(** * Session recording and summarization pipeline (app/actions/Summary.ts)

    A shallow embedding of the server actions of [Summary.ts]: the in-memory
    chunk store ([Init], [setNewParticipantServerAction],
    [setParticipantBlobChunk], [stopRecorder], [stopMeeting]), the
    transcription orchestrator ([transcribeWithAssemblyAI]), the
    summarization orchestrator ([summarizeWithHuggingFace]), the name
    resolver ([getOrganizationMemberNames]), the persistence step
    ([saveMeetingSummary]) and the listing ([getMeetingSummaries]).

    Conventions of the embedding.
    - A JavaScript string is the list of its UTF-16 code units.
    - A time value is an integer number of milliseconds ([Z]); NaN, the
      infinities and fractions are not represented.  [new Date(t)
      .toISOString()] raises a RangeError for a [t] beyond 8.64e15 in
      absolute value, and the calls that print a time raise with it; the
      string itself is kept symbolic.
    - [participantData], [memberNames] and [participantNames] are plain
      objects used as dictionaries.  A lookup that finds no own property
      goes on to the prototype: [Object.prototype], taken as the engine
      ships it, or for [participantData] the record that an assignment to
      [__proto__] has installed.  The own properties of [participantData]
      are kept in creation order, and [Object.keys] and [Object.values]
      list the array indices first, in ascending order; the other two
      objects are finite maps, their order being read nowhere.
    - An asynchronous call either returns, throws, or never completes.  The
      first two are an [Outcome]; loops that wait on a remote service take a
      [fuel] bound and yield [None] when it is used up.
    - Every remote collaborator is a field of an environment record that
      lists, call by call, how it answers.
    - [console.*] output is not represented, but a log line that calls
      [toISOString] can raise and is; outgoing requests and timer waits are
      recorded in an event log, the reads of the rooms table and of the
      listing excepted.
    - The limits of the engine (memory, stack depth, the number of
      arguments of a call) are not represented. *)

From Stdlib Require Import ZArith List Ascii String Lia DecimalString.
From stdpp Require Import base option list gmap.

Local Open Scope Z_scope.

(* ================================================================== *)
(** ** JavaScript strings *)
(* ================================================================== *)

Module JS.

(** A string value: its UTF-16 code units. *)
Definition jsstring := list N.

(** A string literal of the source (ASCII only). *)
Definition lit (s : string) : jsstring :=
  List.map N_of_ascii (list_ascii_of_string s).

(** Truthiness of a string: every string but the empty one. *)
Definition truthy (s : jsstring) : bool :=
  match s with [] => false | _ :: _ => true end.

(** [a || b] on a possibly undefined string [a]. *)
Definition or_else (a : option jsstring) (b : jsstring) : jsstring :=
  match a with
  | Some s => if truthy s then s else b
  | None => b
  end.

(** [a ?? b]. *)
Definition nullish (a : option jsstring) (b : jsstring) : jsstring :=
  match a with Some s => s | None => b end.

(** WhiteSpace and LineTerminator code points of ECMAScript, the ones
    [String.prototype.trim] strips. *)
Definition is_space (c : N) : bool :=
  ((9 <=? c) && (c <=? 13) || (c =? 32) || (c =? 160) || (c =? 5760)
   || ((8192 <=? c) && (c <=? 8202)) || (c =? 8232) || (c =? 8233)
   || (c =? 8239) || (c =? 8287) || (c =? 12288) || (c =? 65279))%N.

Fixpoint trim_start (s : jsstring) : jsstring :=
  match s with
  | c :: r => if is_space c then trim_start r else s
  | [] => []
  end.

Definition trim_end (s : jsstring) : jsstring := rev (trim_start (rev s)).

(** [s.trim()] *)
Definition trim (s : jsstring) : jsstring := trim_end (trim_start s).

(** [s.split(re)] for a regular expression [re] that is a one-character
    class, given as the predicate [sep]. *)
Fixpoint split_on (sep : N -> bool) (s : jsstring) : list jsstring :=
  match s with
  | [] => [[]]
  | c :: r =>
      if sep c then [] :: split_on sep r
      else match split_on sep r with
           | h :: t => (c :: h) :: t
           | [] => [[c]]
           end
  end.

(** The class [[.?!]]. *)
Definition sentence_end (c : N) : bool :=
  ((c =? 46) || (c =? 63) || (c =? 33))%N.

(** [s.slice(0, n)] and [s.substring(0, n)] for a literal [n >= 0]. *)
Definition slice0 (n : nat) (s : jsstring) : jsstring := take n s.

Fixpoint starts_with (p s : jsstring) : bool :=
  match p, s with
  | [], _ => true
  | a :: p', b :: s' => (a =? b)%N && starts_with p' s'
  | _ :: _, [] => false
  end.

(** [s.includes(p)] *)
Fixpoint includes (p s : jsstring) : bool :=
  starts_with p s ||
  match s with
  | [] => false
  | _ :: r => includes p r
  end.

(** [l.join(sep)] *)
Fixpoint join (sep : jsstring) (l : list jsstring) : jsstring :=
  match l with
  | [] => []
  | [x] => x
  | x :: r => x ++ sep ++ join sep r
  end.

Definition newline : jsstring := [10%N].

(** Decimal rendering of an integer, as a template literal does it. *)
Definition of_Z (z : Z) : jsstring :=
  lit (NilZero.string_of_int (Z.to_int z)).

End JS.

Import JS.

(* ================================================================== *)
(** ** Data model *)
(* ================================================================== *)

(** A [Blob]: its bytes.  [new Blob(parts)] concatenates, [.size] counts. *)
Definition Blob := list Byte.byte.
Definition new_Blob (parts : list Blob) : Blob := concat parts.
Definition size (b : Blob) : nat := length b.

(** [participantDataType] *)
Record participantDataType := {
  p_id : jsstring;
  p_name : option jsstring;
  p_offset : Z;
  p_chunks : list Blob;
  p_isFinished : bool
}.

(** The own properties of [Object.prototype]. *)
Definition Object_prototype : list jsstring :=
  [lit "constructor"; lit "__defineGetter__"; lit "__defineSetter__";
   lit "hasOwnProperty"; lit "__lookupGetter__"; lit "__lookupSetter__";
   lit "isPrototypeOf"; lit "propertyIsEnumerable"; lit "toString";
   lit "valueOf"; lit "__proto__"; lit "toLocaleString"].

(** [k] names a member of [Object.prototype]. *)
Definition inherited (k : jsstring) : bool :=
  bool_decide (k ∈ Object_prototype).

(** The property name whose assignment replaces the prototype. *)
Definition proto : jsstring := lit "__proto__".

(** The name resolved for a participant: a string, or, when the lookup
    [memberNames[id]] found no own property and [id] names a member of
    [Object.prototype], that member (a function; for [__proto__] the
    prototype object). *)
Inductive NameValue :=
| Text (s : jsstring)
| Member (k : jsstring).

(** [String(n)], as a template literal renders it; the members as V8
    prints them. *)
Definition name_text (n : NameValue) : jsstring :=
  match n with
  | Text s => s
  | Member k =>
      if decide (k = proto) then lit "[object Object]"
      else lit "function "
           ++ (if decide (k = lit "constructor") then lit "Object" else k)
           ++ lit "() { [native code] }"
  end.

(** An element of [MeetingSummary.transcriptions]. *)
Record Transcription := {
  t_id : jsstring;
  t_name : option NameValue;
  t_text : jsstring
}.

(** A time value that [Date] can represent. *)
Definition valid_time (t : Z) : bool :=
  (-8640000000000000 <=? t) && (t <=? 8640000000000000).

(** The string [new Date(t).toISOString()] of a valid time value, kept as
    the time value it renders; for any other [t] the call raises. *)
Inductive IsoString := toISOString (t : Z).

(** [MeetingSummary] *)
Record MeetingSummary := {
  summary : jsstring;
  keyPoints : list jsstring;
  participants : list jsstring;
  participantNames : gmap jsstring NameValue;
  transcriptions : list Transcription;
  duration : Z;
  startTime : IsoString;
  endTime : IsoString
}.

(** What [summarizeWithHuggingFace] returns. *)
Record SummaryResult := {
  sr_summary : jsstring;
  sr_keyPoints : list jsstring
}.

(** The module-level state: the own properties of [participantData] in
    creation order, the record installed as its prototype by an assignment
    to [__proto__] ([None] while it is [Object.prototype]), and
    [meetingStartTime]. *)
Record Store := {
  participantData : list (jsstring * participantDataType);
  participantData_proto : option participantDataType;
  meetingStartTime : option Z
}.

(** The own property [k] of an object, if it has one. *)
Fixpoint own_get {V} (k : jsstring) (o : list (jsstring * V)) : option V :=
  match o with
  | [] => None
  | (k', v) :: r => if decide (k' = k) then Some v else own_get k r
  end.

(** Writing the own property [k]: an existing one keeps its place in the
    creation order, a new one goes last. *)
Fixpoint own_set {V} (k : jsstring) (v : V) (o : list (jsstring * V))
  : list (jsstring * V) :=
  match o with
  | [] => [(k, v)]
  | (k', v') :: r =>
      if decide (k' = k) then (k, v) :: r else (k', v') :: own_set k v r
  end.

Definition digit (c : N) : option N :=
  if ((48 <=? c) && (c <=? 57))%N then Some (c - 48)%N else None.

Fixpoint digits_value (acc : N) (s : jsstring) : option N :=
  match s with
  | [] => Some acc
  | c :: r =>
      match digit c with
      | Some d => digits_value (10 * acc + d)%N r
      | None => None
      end
  end.

(** The array index a property key denotes: the key is the canonical
    decimal form of an integer below [2^32 - 1]. *)
Definition array_index (k : jsstring) : option N :=
  match k with
  | [] => None
  | c :: r =>
      if (c =? 48)%N && negb (bool_decide (r = [])) then None
      else match digits_value 0 k with
           | Some n => if (n <=? 4294967294)%N then Some n else None
           | None => None
           end
  end.

Fixpoint insert_index {V} (n : N) (e : jsstring * V)
    (l : list (N * (jsstring * V))) : list (N * (jsstring * V)) :=
  match l with
  | [] => [(n, e)]
  | (m, e') :: r =>
      if (n <? m)%N then (n, e) :: l else (m, e') :: insert_index n e r
  end.

(** The properties whose key is an array index, in ascending order. *)
Fixpoint index_properties {V} (o : list (jsstring * V))
  : list (N * (jsstring * V)) :=
  match o with
  | [] => []
  | (k, v) :: r =>
      match array_index k with
      | Some n => insert_index n (k, v) (index_properties r)
      | None => index_properties r
      end
  end.

(** The own properties in the order [Object.keys] and [Object.values]
    list them: array indices ascending, then the other keys in creation
    order. *)
Definition own_properties {V} (o : list (jsstring * V)) : list (jsstring * V) :=
  (index_properties o).*2
  ++ List.filter (fun kv => bool_decide (array_index kv.1 = None)) o.

Definition Object_keys {V} (o : list (jsstring * V)) : list jsstring :=
  (own_properties o).*1.
Definition Object_values {V} (o : list (jsstring * V)) : list V :=
  (own_properties o).*2.

(** Two objects with the same keys in the same creation order, whose
    values are related by [R]. *)
Definition related {V W} (R : V -> W -> Prop)
    (o : list (jsstring * V)) (o' : list (jsstring * W)) : Prop :=
  Forall2 (fun e e' => e.1 = e'.1 /\ R e.2 e'.2) o o'.

(** [!meetingStartTime] on a [number | null]: true for [null] and for [0]. *)
Definition not_time (t : option Z) : bool :=
  match t with
  | None => true
  | Some 0 => true
  | Some _ => false
  end.

(** [Math.min(...l)] for a non-empty [l] whose head is [x]. *)
Definition Math_min (x : Z) (l : list Z) : Z := fold_left Z.min l x.

(* ================================================================== *)
(** ** Remote collaborators *)
(* ================================================================== *)

(** How an awaited call ends when it ends: with a value or by throwing. *)
Inductive Outcome (A : Type) : Type :=
| Ret (a : A)
| Throw.
Arguments Ret {A} a.
Arguments Throw {A}.

(** *** Transcription service (AssemblyAI) *)

(** The polled job document: [status], [text]. *)
Record TxResult := {
  res_status : option jsstring;
  res_text : option jsstring
}.

Record TxService := {
  (** [blobToTempFile]: reading the blob and writing the temporary file *)
  tx_tmpfile : Outcome unit;
  (** POST /v2/upload, [json()] and the destructuring of [upload_url] *)
  tx_upload : Outcome unit;
  (** POST /v2/transcript and [json()]: the [status] of the new job *)
  tx_submit : Outcome (option jsstring);
  (** GET /v2/transcript/:id and [json()], poll by poll *)
  tx_poll : nat -> Outcome TxResult
}.

(** *** Summarization service (Hugging Face) *)

(** A value produced by [JSON.parse].  Numbers are integers here: the code
    only tests them for truthiness or prints them. *)
#[warnings="-register-all"]
Inductive Json :=
| JNull
| JBool (b : bool)
| JNum (n : Z)
| JStr (s : jsstring)
| JArr (l : list Json)
| JObj (fields : list (jsstring * Json)).

Record HttpResponse := {
  status : Z;
  statusText : jsstring;
  content_type : option jsstring;
  (** [await resp.text()] *)
  resp_text : Outcome jsstring
}.

Record HfService := {
  (** the [fetch] of the k-th request *)
  hf_fetch : nat -> Outcome HttpResponse;
  (** [JSON.parse]; [None] when it throws a SyntaxError *)
  JSON_parse : jsstring -> option Json
}.

(** *** Auth context (Clerk) and the rooms table *)

Record AuthInfo := {
  orgId : option jsstring;
  userId : option jsstring
}.

(** *** Member directory (Clerk Backend API) *)

Record PublicUserData := {
  user_id : option jsstring;
  first_name : option jsstring;
  last_name : option jsstring;
  username : option jsstring;
  identifier : option jsstring
}.

Record Membership := { public_user_data : option PublicUserData }.

Record ClerkPage := {
  page_ok : bool;
  (** [json()] and the choice between the bare list and its [data] field *)
  page_memberships : Outcome (list Membership)
}.

Record ClerkService := {
  CLERK_SECRET_KEY : option jsstring;
  (** the [fetch] for the page at index [page - 1] *)
  clerk_fetch : nat -> Outcome ClerkPage
}.

(** *** Persistence sink (Supabase) *)

Record InsertData := {
  room_id : jsstring;
  org_id : jsstring;
  created_by : jsstring;
  summary_text : jsstring;
  key_points : list jsstring;
  ins_participants : list jsstring;
  participant_names : gmap jsstring NameValue;
  duration_ms : Z;
  start_time : IsoString;
  end_time : IsoString;
  ins_transcriptions : list Transcription
}.

Record SavedRow := { row_id : jsstring; row_created_at : jsstring }.

(** The [{ data, error }] of an insert. *)
Record InsertReply := {
  reply_error : bool;
  reply_data : option (list SavedRow)
}.

Record SaveService := {
  save_auth : Outcome AuthInfo;
  (** [roomData?.org_id] of the rooms query *)
  save_room : Outcome (option jsstring);
  DEFAULT_ORG_ID : option jsstring;
  SYSTEM_USER_ID : option jsstring;
  insert : InsertData -> Outcome InsertReply;
  (** the read-back query after the insert *)
  verify : Outcome unit
}.

(* ================================================================== *)
(** ** Runs: outcome, event log, and fuel *)
(* ================================================================== *)

Inductive Event :=
| EvSleep (ms : Z)                      (* await of a setTimeout promise *)
| EvTranscribe (audio : Blob)           (* transcribeWithAssemblyAI called *)
| EvUpload
| EvSubmitJob
| EvPollJob
| EvSummarize (transcript : jsstring)   (* summarizeWithHuggingFace called *)
| EvHfRequest (inputs : jsstring)       (* POST to the model endpoint *)
| EvClerkFetch (page : nat)
| EvInsert (data : InsertData).

Definition is_transcription_event (e : Event) : bool :=
  match e with
  | EvTranscribe _ | EvUpload | EvSubmitJob | EvPollJob => true
  | _ => false
  end.

Definition is_summarization_event (e : Event) : bool :=
  match e with
  | EvSummarize _ | EvHfRequest _ => true
  | _ => false
  end.

(** An event that is no part of a summarization. *)
Definition quiet (e : Event) : Prop :=
  is_summarization_event e = false.

(** A run of an async function: [None] when the fuel ran out before it
    settled, otherwise how it settled and what it did. *)
Definition Run (A : Type) : Type := option (Outcome A * list Event).

Definition ret {A} (a : A) : Run A := Some (Ret a, []).
Definition throw {A} : Run A := Some (Throw, []).
Definition lift {A} (o : Outcome A) : Run A := Some (o, []).
Definition emit (e : Event) : Run unit := Some (Ret tt, [e]).

Definition after {A} (l : list Event) (m : Run A) : Run A :=
  match m with
  | None => None
  | Some (r, l') => Some (r, l ++ l')
  end.

Definition bind {A B} (m : Run A) (f : A -> Run B) : Run B :=
  match m with
  | None => None
  | Some (Throw, l) => Some (Throw, l)
  | Some (Ret a, l) => after l (f a)
  end.

(** [try { m } catch { h }] *)
Definition try_catch {A} (m : Run A) (h : Run A) : Run A :=
  match m with
  | Some (Throw, l) => after l h
  | _ => m
  end.

Notation "'do' x <- m ; k" := (bind m (fun x => k))
  (at level 10, x name, m at level 100, k at level 200).
Notation "m ;; k" := (bind m (fun _ => k))
  (at level 100, k at level 200, right associativity).

(** [m] does not raise. *)
Definition safe {A} (m : Run A) : Prop := forall l, m <> Some (Throw, l).

(** [m] settles, with a value. *)
Definition returns {A} (m : Run A) : Prop := exists a l, m = Some (Ret a, l).

(** Every event of [m] satisfies [P]. *)
Definition logs {A} (P : Event -> Prop) (m : Run A) : Prop :=
  forall r l, m = Some (r, l) -> Forall P l.

(** More fuel does not change a run that settled. *)
Definition mono {A} (f : nat -> Run A) : Prop :=
  forall n m x, (n <= m)%nat -> f n = Some x -> f m = Some x.

(* ================================================================== *)
(** ** 1. transcribeWithAssemblyAI *)
(* ================================================================== *)

Definition completed : jsstring := lit "completed".
Definition error : jsstring := lit "error".

(** [status !== 'completed' && status !== 'error'] *)
Definition still_running (st : option jsstring) : bool :=
  negb (bool_decide (st = Some completed)) && negb (bool_decide (st = Some error)).

(** The polling loop, entered before poll number [n] with the current
    [status] and [result]. *)
Fixpoint poll_loop (svc : TxService) (fuel n : nat)
    (st : option jsstring) (result : option TxResult)
  : Run (option jsstring * option TxResult) :=
  if still_running st then
    match fuel with
    | O => None
    | S fuel' =>
        emit (EvSleep 3000) ;;
        emit EvPollJob ;;
        do r <- lift (tx_poll svc n) ;
        poll_loop svc fuel' (S n) (res_status r) (Some r)
    end
  else ret (st, result).

Definition transcribeWithAssemblyAI (svc : TxService) (fuel : nat) (blob : Blob)
  : Run jsstring :=
  emit (EvTranscribe blob) ;;
  (* const tmpPath = await blobToTempFile(blob), ahead of the try block *)
  lift (tx_tmpfile svc) ;;
  try_catch
    (emit EvUpload ;;
     lift (tx_upload svc) ;;
     emit EvSubmitJob ;;
     do st0 <- lift (tx_submit svc) ;
     do sr <- poll_loop svc fuel 0 st0 None ;
     if bool_decide (sr.1 = Some completed) then
       match sr.2 with
       | Some r => ret (or_else (res_text r) [])
       | None => throw              (* result is still null: TypeError *)
       end
     else ret [])
    (ret []).
  (* finally: removeFile, which swallows its own errors *)

(* ================================================================== *)
(** ** 2. summarizeWithHuggingFace *)
(* ================================================================== *)

Definition json_truthy (v : Json) : bool :=
  match v with
  | JNull => false
  | JBool b => b
  | JNum n => negb (n =? 0)
  | JStr s => truthy s
  | JArr _ | JObj _ => true
  end.

Fixpoint last_field (k : jsstring) (fields : list (jsstring * Json)) (d : option Json)
  : option Json :=
  match fields with
  | [] => d
  | (k', v) :: r => last_field k r (if decide (k' = k) then Some v else d)
  end.

(** [v?.k] for one of the keys the code reads ([error], [summary_text],
    [generated_text]): only a parsed object carries them, and a repeated
    key keeps its last value. *)
Definition json_prop (k : jsstring) (v : Json) : option Json :=
  match v with
  | JObj fields => last_field k fields None
  | _ => None
  end.

(** [e?.includes(needle)] for [e = data?.error]: a string searches, an
    array looks for an equal element, [null] and [undefined] short-circuit,
    anything else has no callable [includes]. *)
Definition error_includes (needle : jsstring) (e : option Json) : Outcome bool :=
  match e with
  | None | Some JNull => Ret false
  | Some (JStr s) => Ret (includes needle s)
  | Some (JArr l) =>
      Ret (existsb (fun x => match x with
                             | JStr s => bool_decide (s = needle)
                             | _ => false
                             end) l)
  | Some _ => Throw
  end.

(** String conversion inside a template literal, for the values that reach
    it ([data.error] once [includes] was callable on it). *)
Fixpoint to_string (v : Json) : jsstring :=
  match v with
  | JNull => lit "null"
  | JBool true => lit "true"
  | JBool false => lit "false"
  | JNum n => of_Z n
  | JStr s => s
  | JArr l =>
      join (lit ",")
        (List.map (fun x => match x with JNull => [] | _ => to_string x end) l)
  | JObj _ => lit "[object Object]"
  end.

Definition opt_truthy (v : option Json) : bool :=
  match v with Some x => json_truthy x | None => false end.

(** [data[0]?.k] on an array. *)
Definition first_prop (k : jsstring) (l : list Json) : option Json :=
  match l with
  | [] => None
  | x :: _ => json_prop k x
  end.

(** The value bound to [text]; [None] stands for the literal ['']
    reached through the last [||]. *)
Definition extract_text (data : Json) : option Json :=
  let generic :=
    if opt_truthy (json_prop (lit "summary_text") data)
    then json_prop (lit "summary_text") data
    else if opt_truthy (json_prop (lit "generated_text") data)
    then json_prop (lit "generated_text") data
    else None in
  match data with
  | JArr l =>
      if opt_truthy (first_prop (lit "summary_text") l)
      then first_prop (lit "summary_text") l
      else if opt_truthy (first_prop (lit "generated_text") l)
      then first_prop (lit "generated_text") l
      else generic
  | JStr s => Some (JStr s)
  | _ => generic
  end.

(** [text.split(/[.?!]/).map(t => t.trim()).filter(t => t.length > 4).slice(0, 5)] *)
Definition derive_keyPoints (text : jsstring) : list jsstring :=
  take 5 (List.filter (fun t => (4 <? length t)%nat)
            (List.map trim (split_on sentence_end text))).

Definition resp_ok (r : HttpResponse) : bool :=
  (200 <=? status r) && (status r <=? 299).

Definition is_json_type (ct : option jsstring) : bool :=
  match ct with
  | Some c => truthy c && includes (lit "application/json") c
  | None => false
  end.

Definition mk_result (s : jsstring) (k : list jsstring) : SummaryResult :=
  {| sr_summary := s; sr_keyPoints := k |}.

(** The part of the body after a response with [resp.ok] and a JSON content
    type was parsed into [data]; [retry] is the recursive call. *)
Definition after_parse (retry : Run SummaryResult) (data : Json)
  : Run SummaryResult :=
  let e := json_prop (error) data in
  do l1 <- lift (error_includes (lit "loading") e) ;
  do l2 <- (if l1 then ret true
            else lift (error_includes (lit "is currently loading") e)) ;
  if l2 then emit (EvSleep 15000) ;; retry
  else if opt_truthy e then
    ret (mk_result
           (lit "Hugging Face API error: " ++
            match e with Some v => to_string v | None => [] end) [])
  else
    match extract_text data with
    | Some v =>
        if json_truthy v then
          match v with
          | JStr text => ret (mk_result text (derive_keyPoints text))
          | _ => throw                (* text.split is not a function *)
          end
        else ret (mk_result (lit "No summary returned from HuggingFace API.")
                            [lit "No summary available"])
    | None => ret (mk_result (lit "No summary returned from HuggingFace API.")
                             [lit "No summary available"])
    end.

(** The body of [summarizeWithHuggingFace(transcript)] when it issues
    request number [k]; [retry] is the recursive call
    [summarizeWithHuggingFace(transcript)]. *)
Definition summarize_call (svc : HfService) (k : nat) (transcript : jsstring)
    (retry : Run SummaryResult) : Run SummaryResult :=
  emit (EvSummarize transcript) ;;
  try_catch
    (emit (EvHfRequest (slice0 4000 transcript)) ;;
     do resp <- lift (hf_fetch svc k) ;
     do responseText <- lift (resp_text resp) ;
     if negb (resp_ok resp) then
       if status resp =? 503 then emit (EvSleep 15000) ;; retry
       else ret (mk_result
                   (lit "HuggingFace API error (" ++ of_Z (status resp)
                    ++ lit "): " ++ statusText resp) [])
     else if negb (is_json_type (content_type resp)) then
       if starts_with (lit "<!DOCTYPE") (trim responseText)
          || starts_with (lit "<!doctype") (trim responseText)
       then ret (mk_result (lit "HuggingFace API returned an error page. Please check your API key and model availability.") [])
       else ret (mk_result (lit "HuggingFace API returned unexpected response format.") [])
     else
       match JSON_parse svc responseText with
       | None => ret (mk_result (lit "Failed to parse HuggingFace API response.") [])
       | Some data => after_parse retry data
       end)
    (ret (mk_result [] [])).

(** [summarizeWithHuggingFace(transcript)], entered for request number [k];
    each request uses one unit of fuel. *)
Fixpoint summarizeWithHuggingFace (svc : HfService) (fuel k : nat)
    (transcript : jsstring) : Run SummaryResult :=
  match fuel with
  | O => None
  | S fuel' =>
      summarize_call svc k transcript
        (summarizeWithHuggingFace svc fuel' (S k) transcript)
  end.

(* ================================================================== *)
(** ** getOrganizationMemberNames *)
(* ================================================================== *)

Definition opt_str_truthy (s : option jsstring) : bool :=
  match s with Some x => truthy x | None => false end.

(** [(a)?.trim()] *)
Definition opt_trim (s : option jsstring) : option jsstring := trim <$> s.

Definition at_sign (c : N) : bool := (c =? 64)%N.

(** [identifier && identifier.includes('@') ? identifier.split('@')[0] : identifier] *)
Definition emailPrefix (ident : option jsstring) : option jsstring :=
  match ident with
  | Some i =>
      if truthy i && includes (lit "@") i
      then head (split_on at_sign i)
      else Some i
  | None => None
  end.

(** The display name of one member. *)
Definition member_name (d : PublicUserData) : jsstring :=
  let first := opt_trim (first_name d) in
  let last := opt_trim (last_name d) in
  if opt_str_truthy first || opt_str_truthy last then
    join (lit " ")
      (List.filter truthy (omap (fun x => x) [first; last]))
  else or_else (username d) (or_else (emailPrefix (identifier d)) (lit "Member")).

(** The loop that fills [nameMap]. *)
Definition build_nameMap (ms : list Membership) : gmap jsstring jsstring :=
  fold_left
    (fun (m : gmap jsstring jsstring) mb =>
       match public_user_data mb with
       | Some d =>
           match user_id d with
           | Some u =>
               (* [nameMap[userId] = name]: the setter of [__proto__]
                  ignores a string *)
               if truthy u && negb (bool_decide (u = proto))
               then <[u := member_name d]> m else m
           | None => m
           end
       | None => m
       end)
    ms ∅.

(** The [while (true)] pagination, entered for page number [page + 1]. *)
Fixpoint fetch_memberships (svc : ClerkService) (fuel page : nat)
    (allMemberships : list Membership) : Run (list Membership) :=
  match fuel with
  | O => None
  | S fuel' =>
      emit (EvClerkFetch page) ;;
      do response <- lift (clerk_fetch svc page) ;
      if negb (page_ok response) then ret allMemberships
      else
        do memberships <- lift (page_memberships response) ;
        if (length memberships =? 0)%nat then ret allMemberships
        else if (length memberships <? 500)%nat
        then ret (allMemberships ++ memberships)
        else fetch_memberships svc fuel' (S page) (allMemberships ++ memberships)
  end.

Definition getOrganizationMemberNames (svc : ClerkService) (fuel : nat)
    (org : option jsstring) : Run (gmap jsstring jsstring) :=
  if negb (opt_str_truthy org) then ret ∅
  else
    try_catch
      (if negb (opt_str_truthy (CLERK_SECRET_KEY svc)) then ret ∅
       else
         do all <- fetch_memberships svc fuel 0 [] ;
         ret (build_nameMap all))
      (ret ∅).

(* ================================================================== *)
(** ** saveMeetingSummary *)
(* ================================================================== *)

Definition insertData_of (svc : SaveService) (org : jsstring)
    (creator : option jsstring) (s : MeetingSummary) (roomId : jsstring)
  : InsertData :=
  {| room_id := roomId;
     org_id := org;
     created_by := nullish creator (nullish (SYSTEM_USER_ID svc) (lit "system"));
     summary_text := summary s;
     key_points := keyPoints s;
     ins_participants := participants s;
     participant_names := participantNames s;
     duration_ms := duration s;
     start_time := startTime s;
     end_time := endTime s;
     ins_transcriptions := transcriptions s |}.

Definition saveMeetingSummary (svc : SaveService) (s : MeetingSummary)
    (roomId : jsstring) : Run (option (list SavedRow)) :=
  try_catch
    (do a <- lift (save_auth svc) ;
     do org1 <-
       (if opt_str_truthy (orgId a) then ret (orgId a)
        else
          try_catch
            (do room <- lift (save_room svc) ;
             if opt_str_truthy room then ret room else ret (orgId a))
            (ret (orgId a))) ;
     let org2 :=
       if opt_str_truthy org1 then nullish org1 []
       else nullish (DEFAULT_ORG_ID svc) (lit "org_default") in
     let data := insertData_of svc org2 (userId a) s roomId in
     emit (EvInsert data) ;;
     do reply <- lift (insert svc data) ;
     if reply_error reply then throw
     else
       match reply_data reply with
       | None | Some [] => throw
       | Some rows =>
           lift (verify svc) ;;
           ret (Some rows)
       end)
    (ret None).

(* ================================================================== *)
(** ** 3. Meeting actions *)
(* ================================================================== *)

(** What [participantData[id]] evaluates to: an own record; the record
    installed as prototype, which [__proto__] reads; or a value that is no
    record and has no [chunks], inherited from the prototype chain, with
    [undefined] as [Alien false]. *)
Inductive Slot :=
| Own (p : participantDataType)
| Installed (p : participantDataType)
| Alien (truthy : bool).

(** [participantData[id]] *)
Definition participantData_get (id : jsstring) (s : Store) : Slot :=
  match own_get id (participantData s) with
  | Some p => Own p
  | None =>
      match participantData_proto s with
      | Some r =>
          (* the fields of the installed record are found first *)
          if decide (id = proto) then Installed r
          else if decide (id = lit "id") then Alien (truthy (p_id r))
          else if decide (id = lit "name") then
            Alien (match p_name r with Some n => truthy n | None => false end)
          else if decide (id = lit "offset") then Alien (negb (p_offset r =? 0))
          else if decide (id = lit "chunks") then Alien true
          else if decide (id = lit "isFinished") then Alien (p_isFinished r)
          else Alien (inherited id)
      | None => Alien (inherited id)
      end
  end.

(** The record [participantData[id]] denotes, when it denotes one. *)
Definition record_at (id : jsstring) (s : Store) : option participantDataType :=
  match participantData_get id s with
  | Own p | Installed p => Some p
  | Alien _ => None
  end.

(** [participantData[id] = rec]: an own property is written or created,
    except that [__proto__], unless it is an own property, is the setter
    that installs [rec] as the prototype. *)
Definition participantData_set (id : jsstring) (rec : participantDataType)
    (s : Store) : Store :=
  if bool_decide (id = proto)
     && negb (bool_decide (is_Some (own_get id (participantData s))))
  then {| participantData := participantData s;
          participantData_proto := Some rec;
          meetingStartTime := meetingStartTime s |}
  else {| participantData := own_set id rec (participantData s);
          participantData_proto := participantData_proto s;
          meetingStartTime := meetingStartTime s |}.

(** [Init(startTime)]: the store it leaves and how the call ends.  The
    own properties are deleted, the prototype stays, and the closing log
    line prints the start time. *)
Definition Init (startTime : Z) (s : Store) : Store * Outcome bool :=
  ({| participantData := [];
      participantData_proto := participantData_proto s;
      meetingStartTime := Some startTime |},
   if valid_time startTime then Ret true else Throw).

Definition setNewParticipantServerAction (p : participantDataType) (s : Store)
  : Store * bool :=
  (participantData_set (p_id p)
     {| p_id := p_id p; p_name := p_name p; p_offset := p_offset p;
        p_chunks := []; p_isFinished := false |}
     s,
   true).

(** [setParticipantBlobChunk(id, blob, timestamp)]: the store it leaves
    and how the call ends.  It raises at the log line of the
    auto-initialization when the timestamp is no valid time, and at
    [p.chunks.push] when [participantData[id]] is a value without
    [chunks]. *)
Definition setParticipantBlobChunk (id : jsstring) (blob : Blob) (timestamp : Z)
    (s : Store) : Store * Outcome bool :=
  let s1 :=
    {| participantData := participantData s;
       participantData_proto := participantData_proto s;
       meetingStartTime :=
         if not_time (meetingStartTime s) then Some timestamp
         else meetingStartTime s |} in
  if not_time (meetingStartTime s) && negb (valid_time timestamp)
  then (s1, Throw)
  else
    let s2 :=
      match participantData_get id s1 with
      | Alien false =>
          participantData_set id
            {| p_id := id; p_name := None; p_offset := timestamp;
               p_chunks := []; p_isFinished := false |}
            s1
      | _ => s1
      end in
    let stored p :=
      {| p_id := p_id p; p_name := p_name p; p_offset := timestamp;
         p_chunks := p_chunks p ++ [blob]; p_isFinished := p_isFinished p |} in
    match participantData_get id s2 with
    | Own p =>
        ({| participantData := own_set id (stored p) (participantData s2);
            participantData_proto := participantData_proto s2;
            meetingStartTime := meetingStartTime s2 |}, Ret true)
    | Installed p =>
        ({| participantData := participantData s2;
            participantData_proto := Some (stored p);
            meetingStartTime := meetingStartTime s2 |}, Ret true)
    | Alien _ => (s2, Throw)
    end.

Definition entry (id : jsstring) (name : NameValue) (text : jsstring)
  : Transcription :=
  {| t_id := id; t_name := Some name; t_text := text |}.

(** [stopRecorder(id, stopTime)]: the store it leaves and its run, whose
    value is [None] for [null].  The guard [!p || p.chunks.length === 0]
    is ahead of the [try]: it raises when [p] is a truthy value without
    [chunks]. *)
Definition stopRecorder (svc : TxService) (fuel : nat) (id : jsstring)
    (stopTime : Z) (s : Store) : Store * Run (option Transcription) :=
  let finalize p (s' : Store) :=
    if (length (p_chunks p) =? 0)%nat then (s, ret None)
    else
      let combined := new_Blob (p_chunks p) in
      let name := Text (nullish (p_name p) id) in
      (s',
       try_catch
         (if (size combined =? 0)%nat
          then ret (Some (entry id name []))
          else
            do text <- transcribeWithAssemblyAI svc fuel combined ;
            ret (Some (entry id name text)))
         (ret (Some (entry id name [])))) in
  let finished p :=
    {| p_id := p_id p; p_name := p_name p; p_offset := p_offset p;
       p_chunks := p_chunks p; p_isFinished := true |} in
  match participantData_get id s with
  | Alien false => (s, ret None)
  | Alien true => (s, throw)
  | Own p =>
      finalize p
        {| participantData := own_set id (finished p) (participantData s);
           participantData_proto := participantData_proto s;
           meetingStartTime := meetingStartTime s |}
  | Installed p =>
      finalize p
        {| participantData := participantData s;
           participantData_proto := Some (finished p);
           meetingStartTime := meetingStartTime s |}
  end.

(** What the collaborators do during one [stopMeeting] call. *)
Record MeetingEnv := {
  (** [Date.now()] of the last-resort start time *)
  now_fallback : Z;
  (** [Date.now()] read as [endTime] *)
  now_end : Z;
  (** [await auth()] of [stopMeeting] *)
  auth_meeting : Outcome AuthInfo;
  (** [roomData?.org_id] of the rooms query of [stopMeeting] *)
  rooms_meeting : Outcome (option jsstring);
  clerk : ClerkService;
  (** the transcription service as met for the k-th participant *)
  tx_of : nat -> TxService;
  hf : HfService;
  save : SaveService
}.

(** [memberNames[p.id] || p.name || p.id], where [memberNames] is a plain
    object: an identifier that is no own property of it and names a member
    of [Object.prototype] finds that member, which is truthy. *)
Definition resolvedName (memberNames : gmap jsstring jsstring)
    (p : participantDataType) : NameValue :=
  match memberNames !! p_id p with
  | Some n =>
      if truthy n then Text n else Text (or_else (p_name p) (p_id p))
  | None =>
      if inherited (p_id p) then Member (p_id p)
      else Text (or_else (p_name p) (p_id p))
  end.

(** One turn of the [for (const p of participants)] loop: the entry pushed. *)
Definition transcribe_participant (svc : TxService) (fuel : nat)
    (memberNames : gmap jsstring jsstring) (p : participantDataType)
  : Run Transcription :=
  let name := resolvedName memberNames p in
  if (length (p_chunks p) =? 0)%nat then ret (entry (p_id p) name [])
  else
    try_catch
      (let combined := new_Blob (p_chunks p) in
       if (size combined =? 0)%nat then ret (entry (p_id p) name [])
       else
         do text <- transcribeWithAssemblyAI svc fuel combined ;
         ret (entry (p_id p) name text))
      (ret (entry (p_id p) name [])).

(** The whole loop, entered at participant number [k]. *)
Fixpoint transcribe_all (tx : nat -> TxService) (fuel : nat)
    (memberNames : gmap jsstring jsstring) (k : nat)
    (ps : list participantDataType) : Run (list Transcription) :=
  match ps with
  | [] => ret []
  | p :: rest =>
      do t <- transcribe_participant (tx k) fuel memberNames p ;
      do ts <- transcribe_all tx fuel memberNames (S k) rest ;
      ret (t :: ts)
  end.

(** [`${t.name ?? t.id}: ${t.text}`] *)
Definition transcript_line (t : Transcription) : jsstring :=
  name_text (default (Text (t_id t)) (t_name t)) ++ lit ": " ++ t_text t.

(** [transcriptions.map(...).join('\n').trim()] *)
Definition fullTranscript_of (ts : list Transcription) : jsstring :=
  trim (join newline (List.map transcript_line ts)).

(** The loop [participantNames[p.id] = ...] on a fresh plain object; an
    assignment to [__proto__] creates no property. *)
Definition participantNames_of (memberNames : gmap jsstring jsstring)
    (ps : list participantDataType) : gmap jsstring NameValue :=
  fold_left (fun (m : gmap jsstring NameValue) p =>
               if decide (p_id p = proto) then m
               else <[p_id p := resolvedName memberNames p]> m) ps ∅.

Definition placeholder_summary : jsstring :=
  lit "No speech detected during this meeting.".
Definition placeholder_keyPoints : list jsstring :=
  [lit "No audio captured"; lit "Meeting contained silence or technical issues"].

Definition fallback_summary (fullTranscript : jsstring) : jsstring :=
  lit "Meeting discussion: " ++ slice0 500 fullTranscript
  ++ (if (500 <? length fullTranscript)%nat then lit "..." else []).

Definition fallback_keyPoints (fullTranscript : jsstring) : list jsstring :=
  take 5 (List.filter (fun t => (10 <? length t)%nat)
            (List.map trim (split_on sentence_end fullTranscript))).

Definition isError (s : jsstring) : bool :=
  includes (lit "error") s || includes (lit "Error") s
  || includes (lit "API error") s.

(** [summary && !isError && keyPoints.length > 0] *)
Definition summary_accepted (r : SummaryResult) : bool :=
  truthy (sr_summary r) && negb (isError (sr_summary r))
  && (0 <? length (sr_keyPoints r))%nat.

(** What the [try] around the summarization leaves in [summary] and
    [keyPoints], given the run of the orchestrator. *)
Definition summarize_or_fallback (orchestrator : Run SummaryResult)
    (fullTranscript : jsstring) : Run SummaryResult :=
  try_catch
    (do r <- orchestrator ;
     if summary_accepted r then ret r
     else ret (mk_result (fallback_summary fullTranscript)
                         (fallback_keyPoints fullTranscript)))
    (ret (mk_result (fallback_summary fullTranscript)
                    (fallback_keyPoints fullTranscript))).

(** The start time [stopMeeting] works with: the stored one, unless
    [!meetingStartTime] holds and it is derived. *)
Definition session_start (env : MeetingEnv) (s : Store) : Z :=
  if not_time (meetingStartTime s) then
    match Object_values (participantData s) with
    | p :: rest => Math_min (p_offset p) (List.map p_offset rest)
    | [] => now_fallback env
    end
  else default 0 (meetingStartTime s).

(** The member names [stopMeeting] resolves. *)
Definition resolve_memberNames (env : MeetingEnv) (fuel : nat) (a : AuthInfo)
  : Run (gmap jsstring jsstring) :=
  if opt_str_truthy (orgId a)
  then getOrganizationMemberNames (clerk env) fuel (orgId a)
  else
    try_catch
      (do room <- lift (rooms_meeting env) ;
       if opt_str_truthy room
       then getOrganizationMemberNames (clerk env) fuel room
       else ret ∅)
      (ret ∅).

Definition mk_summary (s : jsstring) (k : list jsstring)
    (ps : list participantDataType) (names : gmap jsstring NameValue)
    (ts : list Transcription) (start finish : Z) : MeetingSummary :=
  {| summary := s;
     keyPoints := k;
     participants := List.map p_id ps;
     participantNames := names;
     transcriptions := ts;
     duration := finish - start;
     startTime := toISOString start;
     endTime := toISOString finish |}.

(** [stopMeeting(roomId)]: the store it leaves and its run.  The log
    lines ahead of the [auth()] call print the start and the end time with
    [toISOString], outside any [try]. *)
Definition stopMeeting (env : MeetingEnv) (fuel : nat) (roomId : jsstring)
    (s : Store) : Store * Run MeetingSummary :=
  let start := session_start env s in
  let ps := Object_values (participantData s) in
  let finish := now_end env in
  ({| participantData := participantData s;
      participantData_proto := participantData_proto s;
      meetingStartTime := Some start |},
   if negb (valid_time start && valid_time finish) then throw else
   do a <- lift (auth_meeting env) ;
   do memberNames <- resolve_memberNames env fuel a ;
   do ts <- transcribe_all (tx_of env) fuel memberNames 0 ps ;
   let fullTranscript := fullTranscript_of ts in
   let names := participantNames_of memberNames ps in
   if (length fullTranscript =? 0)%nat then
     let result :=
       mk_summary placeholder_summary placeholder_keyPoints ps names ts
                  start finish in
     saveMeetingSummary (save env) result roomId ;;
     ret result
   else
     do r <- summarize_or_fallback
               (summarizeWithHuggingFace (hf env) fuel 0 fullTranscript)
               fullTranscript ;
     let result :=
       mk_summary (sr_summary r) (sr_keyPoints r) ps names ts start finish in
     try_catch (saveMeetingSummary (save env) result roomId ;; ret tt) (ret tt) ;;
     ret result).

(* ================================================================== *)
(** ** Sessions, invariants and the wording of the specification *)
(* ================================================================== *)

(** The calls a capture channel makes between [Init] and [stopMeeting]. *)
Inductive Op :=
| Register (p : participantDataType)
| Ingest (id : jsstring) (blob : Blob) (timestamp : Z).

(** The store a capture call leaves, also when the call raises. *)
Definition run_op (s : Store) (o : Op) : Store :=
  match o with
  | Register p => (setNewParticipantServerAction p s).1
  | Ingest id blob timestamp => (setParticipantBlobChunk id blob timestamp s).1
  end.

Definition run_ops (ops : list Op) (s : Store) : Store :=
  fold_left run_op ops s.

Definition received_chunk (i : jsstring) (ops : list Op) : Prop :=
  ∃ blob timestamp, In (Ingest i blob timestamp) ops.

(** Every record of the store sits under its own identifier, once. *)
Definition store_ok (s : Store) : Prop :=
  NoDup (Object_keys (participantData s)) ∧
  Forall (fun kp => p_id kp.2 = kp.1) (participantData s).

Definition time_of (i : IsoString) : Z :=
  match i with toISOString t => t end.

(** A well-formed aggregate: the three views of the participants agree,
    every entry carries a name, and the duration is the span between the
    two timestamps. *)
Definition well_formed (m : MeetingSummary) : Prop :=
  participants m = List.map t_id (transcriptions m) ∧
  (∀ i, is_Some (participantNames m !! i) ↔ In i (participants m)) ∧
  Forall (fun t => is_Some (t_name t)) (transcriptions m) ∧
  duration m = time_of (endTime m) - time_of (startTime m).

(** The same call with another persistence sink. *)
Definition with_save (env : MeetingEnv) (sv : SaveService) : MeetingEnv :=
  {| now_fallback := now_fallback env; now_end := now_end env;
     auth_meeting := auth_meeting env; rooms_meeting := rooms_meeting env;
     clerk := clerk env; tx_of := tx_of env; hf := hf env; save := sv |}.

(** Poll [n] ends the polling loop: it throws or reports a terminal status. *)
Definition poll_ends (svc : TxService) (n : nat) : bool :=
  match tx_poll svc n with
  | Throw => true
  | Ret r => negb (still_running (res_status r))
  end.

(** Page [n] is full, so the pagination asks for the next one. *)
Definition page_continues (svc : ClerkService) (n : nat) : bool :=
  match clerk_fetch svc n with
  | Ret pg =>
      page_ok pg &&
      match page_memberships pg with
      | Ret ms => negb (length ms <? 500)%nat
      | Throw => false
      end
  | Throw => false
  end.

(** [data?.error?.includes('loading') || ...includes('is currently loading')] *)
Definition signals_loading (data : Json) : bool :=
  match error_includes (lit "loading") (json_prop error data) with
  | Ret true => true
  | Ret false =>
      match error_includes (lit "is currently loading") (json_prop error data) with
      | Ret b => b
      | Throw => false
      end
  | Throw => false
  end.

(** Request [k] is answered by "model not ready": HTTP 503 with a readable
    body, or a parsed JSON body whose error mentions loading. *)
Definition hf_retries (svc : HfService) (k : nat) : bool :=
  match hf_fetch svc k with
  | Ret resp =>
      match resp_text resp with
      | Ret body =>
          if negb (resp_ok resp) then status resp =? 503
          else if negb (is_json_type (content_type resp)) then false
          else match JSON_parse svc body with
               | Some data => signals_loading data
               | None => false
               end
      | Throw => false
      end
  | Throw => false
  end.

(** The first terminal status the service reports for the job is [error]:
    at submission, or at poll [n] after [n] polls of a running job. *)
Definition reports_error (svc : TxService) : Prop :=
  tx_submit svc = Ret (Some error) ∨
  ∃ n r, tx_poll svc n = Ret r ∧ res_status r = Some error ∧
         ∀ m, (m < n)%nat → poll_ends svc m = false.

(** A response body that carries summary text [text] and no error. *)
Definition carries_summary (data : Json) (text : jsstring) : Prop :=
  json_prop error data = None ∧
  extract_text data = Some (JStr text) ∧
  text ≠ [].

(** Key points as section 4.3 words them: split on [.], [?], [!], trim,
    discard the fragments shorter than 5 characters, keep at most 5. *)
Definition spec_keyPoints (text : jsstring) : list jsstring :=
  take 5
    (List.filter (fun t => negb (length t <? 5)%nat)
       (List.map trim
          (split_on (fun c => bool_decide (c ∈ [46%N; 63%N; 33%N])) text))).

(** The combined transcript as step (e) words it: only the entries with
    text contribute a line. *)
Definition spec_fullTranscript (ts : list Transcription) : jsstring :=
  trim (join newline
          (List.map transcript_line
             (List.filter (fun t => truthy (t_text t)) ts))).

(** The fallback summary as step (g) words it: the transcript cut to 500
    characters. *)
Definition spec_fallback_summary (fullTranscript : jsstring) : jsstring :=
  slice0 500 fullTranscript.

(** [stopMeeting] took the placeholder branch. *)
Definition placeholder_path (m : MeetingSummary) (l : list Event) : Prop :=
  summary m = placeholder_summary ∧
  keyPoints m = placeholder_keyPoints ∧
  Forall (fun e => is_summarization_event e = false) l.

(* ================================================================== *)
(** ** Sample sessions and collaborators *)
(* ================================================================== *)

Module Sample.

Definition audio : Blob := [Byte.x1a; Byte.x45; Byte.xdf; Byte.xa3].

Definition alice : participantDataType :=
  {| p_id := lit "user_alice"; p_name := Some (lit "Alice"); p_offset := 1000;
     p_chunks := []; p_isFinished := false |}.

Definition bob : participantDataType :=
  {| p_id := lit "user_bob"; p_name := Some (lit "Bob"); p_offset := 1200;
     p_chunks := []; p_isFinished := false |}.

(** The state of the module when it is loaded. *)
Definition unstarted : Store :=
  {| participantData := []; participantData_proto := None;
     meetingStartTime := None |}.

(** Bob joined and never sent audio. *)
Definition bob_silent : Store := run_ops [Register bob] (Init 700 unstarted).1.

(** Alice joined and sent one chunk; Bob sent one without registering. *)
Definition two_speakers : list Op :=
  [Register alice; Ingest (lit "user_alice") audio 1500;
   Ingest (lit "user_bob") audio 1600].

Definition running (st : string) : Outcome TxResult :=
  Ret {| res_status := Some (lit st); res_text := None |}.

(** A job that is processing at the first poll and completed at the second. *)
Definition tx_completing (text : jsstring) : TxService :=
  {| tx_tmpfile := Ret tt;
     tx_upload := Ret tt;
     tx_submit := Ret (Some (lit "queued"));
     tx_poll := fun n =>
       match n with
       | O => running "processing"
       | S _ => Ret {| res_status := Some completed; res_text := Some text |}
       end |}.

(** A job that is processing at the first poll and in error at the second. *)
Definition tx_erroring : TxService :=
  {| tx_tmpfile := Ret tt;
     tx_upload := Ret tt;
     tx_submit := Ret (Some (lit "queued"));
     tx_poll := fun n =>
       match n with
       | O => running "processing"
       | S _ => running "error"
       end |}.

(** The same service on a host whose temporary directory cannot be written. *)
Definition tx_unwritable : TxService :=
  {| tx_tmpfile := Throw;
     tx_upload := tx_upload tx_erroring;
     tx_submit := tx_submit tx_erroring;
     tx_poll := tx_poll tx_erroring |}.

Definition http (st : Z) (text : string) (ct : string) (body : string)
  : Outcome HttpResponse :=
  Ret {| status := st; statusText := lit text;
         content_type := Some (lit ct); resp_text := Ret (lit body) |}.

(** A model that never finishes loading. *)
Definition hf_unavailable : HfService :=
  {| hf_fetch := fun _ => http 503 "Service Unavailable" "text/plain" "loading";
     JSON_parse := fun _ => None |}.

(** A model that is loading at the first request and answers the second
    with [[{ summary_text }]]. *)
Definition hf_warming (text : jsstring) : HfService :=
  {| hf_fetch := fun k =>
       match k with
       | O => http 503 "Service Unavailable" "text/plain" "loading"
       | S _ => http 200 "OK" "application/json" "[...]"
       end;
     JSON_parse := fun _ => Some (JArr [JObj [(lit "summary_text", JStr text)]]) |}.

(** An endpoint that answers every request with HTTP 500. *)
Definition hf_failing : HfService :=
  {| hf_fetch := fun _ => http 500 "Internal Server Error" "text/plain" "";
     JSON_parse := fun _ => None |}.

Definition clerk_off : ClerkService :=
  {| CLERK_SECRET_KEY := None; clerk_fetch := fun _ => Throw |}.

Definition anonymous : AuthInfo := {| orgId := None; userId := None |}.

Definition save_up : SaveService :=
  {| save_auth := Ret anonymous;
     save_room := Ret None;
     DEFAULT_ORG_ID := None;
     SYSTEM_USER_ID := None;
     insert := fun _ =>
       Ret {| reply_error := false;
              reply_data := Some [ {| row_id := lit "1";
                                      row_created_at := lit "now" |} ] |};
     verify := Ret tt |}.

Definition save_down : SaveService :=
  {| save_auth := Ret anonymous;
     save_room := Ret None;
     DEFAULT_ORG_ID := None;
     SYSTEM_USER_ID := None;
     insert := fun _ => Ret {| reply_error := true; reply_data := None |};
     verify := Ret tt |}.

Definition env_with (tx : TxService) (h : HfService) (sv : SaveService)
  : MeetingEnv :=
  {| now_fallback := 5000;
     now_end := 9000;
     auth_meeting := Ret anonymous;
     rooms_meeting := Ret None;
     clerk := clerk_off;
     tx_of := fun _ => tx;
     hf := h;
     save := sv |}.

Definition room : jsstring := lit "room-1".

Definition shipped : jsstring := lit "Hello world. We shipped the feature.".

End Sample.

(* ================================================================== *)
(** ** getMeetingSummaries *)
(* ================================================================== *)

(** The [{ data, error }] of the select on [meeting_summaries]. *)
Record QueryReply (Row : Type) := {
  query_error : bool;
  query_data : option (list Row)
}.
Arguments query_error {Row} _.
Arguments query_data {Row} _.

Record ListService (Row : Type) := {
  (** [createClient(url, key)], which is called before the [try] and
      raises when the URL or the key is missing *)
  list_client : Outcome unit;
  (** [await auth()] of [getMeetingSummaries] *)
  list_auth : Outcome AuthInfo;
  (** the select of the rows of an organization, newest first *)
  list_query : jsstring -> Outcome (QueryReply Row)
}.
Arguments list_client {Row} _.
Arguments list_auth {Row} _.
Arguments list_query {Row} _.

(** [getMeetingSummaries(orgId)]; the rows are [any] in the source. *)
Definition getMeetingSummaries {Row} (svc : ListService Row) (org : jsstring)
  : Run (list Row) :=
  lift (list_client svc) ;;
  try_catch
    (do a <- lift (list_auth svc) ;
     if negb (opt_str_truthy (userId a)) then ret []
     else
       do reply <- lift (list_query svc org) ;
       if query_error reply then ret []
       else ret (default [] (query_data reply)))
    (ret []).

(** The organization a summary is filed under: the caller's, else the
    room's, else the configured default. *)
Definition resolved_org (svc : SaveService) (a : AuthInfo) : jsstring :=
  let org1 :=
    if opt_str_truthy (orgId a) then orgId a
    else match save_room svc with
         | Ret room => if opt_str_truthy room then room else orgId a
         | Throw => orgId a
         end in
  if opt_str_truthy org1 then nullish org1 []
  else nullish (DEFAULT_ORG_ID svc) (lit "org_default").

(** The records [saveMeetingSummary] tries to insert for [s]: none when
    [auth()] fails, one otherwise. *)
Definition insert_attempts (svc : SaveService) (s : MeetingSummary)
    (roomId : jsstring) : list InsertData :=
  match save_auth svc with
  | Ret a => [insertData_of svc (resolved_org svc a) (userId a) s roomId]
  | Throw => []
  end.

(** What [saveMeetingSummary] hands back, given the reply to its insert
    and the fate of the read-back query. *)
Definition saved_rows (reply : Outcome InsertReply) (readback : Outcome unit)
  : option (list SavedRow) :=
  match reply with
  | Ret r =>
      if reply_error r then None
      else match reply_data r with
           | Some (row :: rows) =>
               match readback with
               | Ret _ => Some (row :: rows)
               | Throw => None
               end
           | _ => None
           end
  | Throw => None
  end.

(* ================================================================== *)
(** ** Sessions as sequences of actions *)
(* ================================================================== *)

(** The identifier a capture call is about. *)
Definition op_id (o : Op) : jsstring :=
  match o with
  | Register p => p_id p
  | Ingest id _ _ => id
  end.

(** The fragments stored for [id]; none when it has no record. *)
Definition chunks_of (id : jsstring) (s : Store) : list Blob :=
  match record_at id s with
  | Some p => p_chunks p
  | None => []
  end.

(** The effect of one capture call on the fragments of [id]: a
    registration of [id] empties them, a chunk for [id] is added last. *)
Definition audio_step (id : jsstring) (acc : list Blob) (o : Op) : list Blob :=
  match o with
  | Register p => if decide (p_id p = id) then [] else acc
  | Ingest i blob _ => if decide (i = id) then acc ++ [blob] else acc
  end.

(** Every exported action that touches the store. *)
Inductive Action :=
| ActInit (startTime : Z)
| ActRegister (p : participantDataType)
| ActIngest (id : jsstring) (blob : Blob) (timestamp : Z)
| ActStopRecorder (svc : TxService) (fuel : nat) (id : jsstring) (stopTime : Z)
| ActStopMeeting (env : MeetingEnv) (fuel : nat) (roomId : jsstring).

Definition act (s : Store) (a : Action) : Store :=
  match a with
  | ActInit t => (Init t s).1
  | ActRegister p => (setNewParticipantServerAction p s).1
  | ActIngest id blob t => (setParticipantBlobChunk id blob t s).1
  | ActStopRecorder svc fuel id t => (stopRecorder svc fuel id t s).1
  | ActStopMeeting env fuel roomId => (stopMeeting env fuel roomId s).1
  end.

Definition acts (l : list Action) (s : Store) : Store := fold_left act l s.

(** A capture call whose identifier names no member of [Object.prototype]
    and, for a chunk, whose timestamp is a valid time. *)
Definition plain_op (o : Op) : bool :=
  negb (inherited (op_id o)) &&
  match o with
  | Register _ => true
  | Ingest _ _ timestamp => valid_time timestamp
  end.

(** A store as assignments build it: every record under its own
    identifier, once, and none under [__proto__], which an assignment
    cannot create. *)
Definition assigned (s : Store) : Prop :=
  store_ok s /\ proto ∉ Object_keys (participantData s).

Definition is_Init (a : Action) : bool :=
  match a with ActInit _ => true | _ => false end.

(** Two records that differ at most in [isFinished]. *)
Definition same_but_finished (p q : participantDataType) : Prop :=
  p_id p = p_id q /\ p_name p = p_name q /\ p_offset p = p_offset q /\
  p_chunks p = p_chunks q.

(* ================================================================== *)
(** ** Reading an event log *)
(* ================================================================== *)

(** The audio handed to [transcribeWithAssemblyAI], call by call. *)
Definition transcribed (l : list Event) : list Blob :=
  omap (fun e => match e with EvTranscribe b => Some b | _ => None end) l.

(** The records handed to the insert, call by call. *)
Definition inserted (l : list Event) : list InsertData :=
  omap (fun e => match e with EvInsert d => Some d | _ => None end) l.

(** The traffic of one transcription after the call itself. *)
Definition job_traffic (e : Event) : Prop :=
  e = EvUpload \/ e = EvSubmitJob \/ e = EvPollJob \/ e = EvSleep 3000.

(** The traffic of the orchestrators and of the member directory. *)
Definition not_insert (e : Event) : Prop :=
  match e with EvInsert _ => False | _ => True end.

Definition not_transcribe (e : Event) : Prop :=
  match e with EvTranscribe _ => False | _ => True end.

(** [n] rounds of the polling loop. *)
Fixpoint poll_rounds (n : nat) : list Event :=
  match n with
  | O => []
  | S n' => EvSleep 3000 :: EvPollJob :: poll_rounds n'
  end.

(** The members page [m] contributes, when it could be read. *)
Definition page_members (svc : ClerkService) (m : nat) : list Membership :=
  match clerk_fetch svc m with
  | Ret pg => match page_memberships pg with Ret ms => ms | Throw => [] end
  | Throw => []
  end.

(** The members of pages [0 .. n - 1], in order. *)
Fixpoint members_upto (svc : ClerkService) (n : nat) : list Membership :=
  match n with
  | O => []
  | S n' => members_upto svc n' ++ page_members svc n'
  end.

(** A string that neither starts nor ends with white space. *)
Definition no_outer_space (s : jsstring) : Prop :=
  (forall c r, s = c :: r -> is_space c = false) /\
  (forall c r, s = r ++ [c] -> is_space c = false).

(** The requests to the member directory. *)
Definition directory_traffic (e : Event) : Prop :=
  exists n, e = EvClerkFetch n.

(** The events of the transcription loop. *)
Definition transcription_traffic (e : Event) : Prop :=
  (exists b, e = EvTranscribe b) \/ job_traffic e.

(** The events of a summarization of [t]. *)
Definition summarization_traffic (t : jsstring) (e : Event) : Prop :=
  e = EvSummarize t \/ e = EvHfRequest (slice0 4000 t) \/ e = EvSleep 15000.

(** The blobs [stopMeeting] has to transcribe: the combined audio of the
    records [ps], in their order, the empty ones left out. *)
Definition audio_to_transcribe (ps : list participantDataType) : list Blob :=
  List.filter (fun b => negb (size b =? 0)%nat)
    (List.map (fun p => new_Blob (p_chunks p)) ps).

(* ================================================================== *)
(** ** More sample collaborators *)
(* ================================================================== *)

Module Fixture.

(** A job that is already completed when it is submitted. *)
Definition tx_instant : TxService :=
  {| tx_tmpfile := Ret tt;
     tx_upload := Ret tt;
     tx_submit := Ret (Some completed);
     tx_poll := fun _ =>
       Ret {| res_status := Some completed; res_text := Some Sample.shipped |} |}.

(** A job that stays in processing. *)
Definition tx_stuck : TxService :=
  {| tx_tmpfile := Ret tt;
     tx_upload := Ret tt;
     tx_submit := Ret (Some (lit "queued"));
     tx_poll := fun _ => Sample.running "processing" |}.

(** An upload that is refused. *)
Definition tx_no_upload : TxService :=
  {| tx_tmpfile := Ret tt;
     tx_upload := Throw;
     tx_submit := Ret (Some (lit "queued"));
     tx_poll := fun _ => Sample.running "processing" |}.

(** An endpoint that answers 200 with a body whose [error] says the model
    is loading, once, and with the summary afterwards. *)
Definition hf_loading_body (text : jsstring) : HfService :=
  {| hf_fetch := fun k =>
       match k with
       | O => Sample.http 200 "OK" "application/json" "loading"
       | S _ => Sample.http 200 "OK" "application/json" "summary"
       end;
     JSON_parse := fun body =>
       if decide (body = lit "loading")
       then Some (JObj [(lit "error", JStr (lit "Model is currently loading"))])
       else Some (JArr [JObj [(lit "summary_text", JStr text)]]) |}.

(** An endpoint that answers 200 with [{ error: "Rate limit reached" }]. *)
Definition hf_refusing : HfService :=
  {| hf_fetch := fun _ => Sample.http 200 "OK" "application/json" "{...}";
     JSON_parse := fun _ =>
       Some (JObj [(lit "error", JStr (lit "Rate limit reached"))]) |}.

(** An endpoint that answers 200 with an empty list. *)
Definition hf_blank : HfService :=
  {| hf_fetch := fun _ => Sample.http 200 "OK" "application/json" "[]";
     JSON_parse := fun _ => Some (JArr []) |}.

Definition member (uid : string) (first : string) : Membership :=
  {| public_user_data :=
       Some {| user_id := Some (lit uid); first_name := Some (lit first);
               last_name := None; username := None; identifier := None |} |}.

(** A directory of one short page. *)
Definition clerk_small : ClerkService :=
  {| CLERK_SECRET_KEY := Some (lit "sk_test");
     clerk_fetch := fun _ =>
       Ret {| page_ok := true;
              page_memberships := Ret [member "user_alice" " Alice "] |} |}.

(** A directory whose first request is refused by the network. *)
Definition clerk_down : ClerkService :=
  {| CLERK_SECRET_KEY := Some (lit "sk_test");
     clerk_fetch := fun _ => Throw |}.

(** A sink whose insert succeeds and whose read-back query is rejected. *)
Definition save_unverified : SaveService :=
  {| save_auth := Ret Sample.anonymous;
     save_room := Ret None;
     DEFAULT_ORG_ID := None;
     SYSTEM_USER_ID := None;
     insert := insert Sample.save_up;
     verify := Throw |}.

(** Nobody is logged in. *)
Definition list_anonymous : ListService nat :=
  {| list_client := Ret tt;
     list_auth := Ret Sample.anonymous;
     list_query := fun _ => Ret {| query_error := false; query_data := Some [1%nat] |} |}.

Definition list_user : ListService nat :=
  {| list_client := Ret tt;
     list_auth := Ret {| orgId := None; userId := Some (lit "user_alice") |};
     list_query := fun _ =>
       Ret {| query_error := false; query_data := Some [2%nat; 1%nat] |} |}.

(** Alice, logged in as a member of an organization. *)
Definition member_auth : AuthInfo :=
  {| orgId := Some (lit "org_1"); userId := Some (lit "user_alice") |}.

(** A sink reached by a logged-in member. *)
Definition save_member : SaveService :=
  {| save_auth := Ret member_auth;
     save_room := Throw;
     DEFAULT_ORG_ID := None;
     SYSTEM_USER_ID := None;
     insert := insert Sample.save_up;
     verify := Ret tt |}.

(** A sink reached without a session, for a room of a known organization. *)
Definition save_by_room : SaveService :=
  {| save_auth := Ret Sample.anonymous;
     save_room := Ret (Some (lit "org_2"));
     DEFAULT_ORG_ID := Some (lit "org_fallback");
     SYSTEM_USER_ID := Some (lit "user_system");
     insert := insert Sample.save_up;
     verify := Ret tt |}.

(** A session end with every collaborator in place. *)
Definition env_member : MeetingEnv :=
  {| now_fallback := 5000;
     now_end := 9000;
     auth_meeting := Ret member_auth;
     rooms_meeting := Ret None;
     clerk := clerk_small;
     tx_of := fun _ => Sample.tx_completing Sample.shipped;
     hf := Sample.hf_warming Sample.shipped;
     save := save_member |}.

(** A participant whose identifier is the property name [__proto__]. *)
Definition eve : participantDataType :=
  {| p_id := proto; p_name := Some (lit "Eve"); p_offset := 1000;
     p_chunks := []; p_isFinished := false |}.

(** A participant registered under [k], without a name. *)
Definition seat (k : string) : participantDataType :=
  {| p_id := lit k; p_name := None; p_offset := 1000;
     p_chunks := []; p_isFinished := false |}.

(** The listing without configuration. *)
Definition list_unconfigured : ListService nat :=
  {| list_client := Throw;
     list_auth := list_auth list_user;
     list_query := list_query list_user |}.

End Fixture.

(* ================================================================== *)
(** ** Reasoning about runs *)
(* ================================================================== *)

Section RunLemmas.
Context {A B : Type}.

Lemma bind_inv (m : Run A) (f : A -> Run B) r l :
  bind m f = Some (r, l) ->
  (m = Some (Throw, l) /\ r = Throw) \/
  exists a l1 l2, m = Some (Ret a, l1) /\ f a = Some (r, l2) /\ l = l1 ++ l2.
Proof.
  unfold bind, after. destruct m as [[[a|] l1]|]; try discriminate.
  - destruct (f a) as [[r2 l2]|] eqn:E; try discriminate.
    intros [= <- <-]. right. exists a, l1, l2. auto.
  - intros [= <- <-]. left. auto.
Qed.

Lemma bind_inv_Ret (m : Run A) (f : A -> Run B) b l :
  bind m f = Some (Ret b, l) ->
  exists a l1 l2, m = Some (Ret a, l1) /\ f a = Some (Ret b, l2) /\ l = l1 ++ l2.
Proof.
  intros H. apply bind_inv in H as [[_ H]|H]; [discriminate | exact H].
Qed.

Lemma bind_Ret (m : Run A) (f : A -> Run B) a l :
  m = Some (Ret a, l) -> bind m f = after l (f a).
Proof. intros ->. reflexivity. Qed.

Lemma bind_Throw (m : Run A) (f : A -> Run B) l :
  m = Some (Throw, l) -> bind m f = Some (Throw, l).
Proof. intros ->. reflexivity. Qed.

Lemma bind_None (m : Run A) (f : A -> Run B) :
  m = None -> bind m f = None.
Proof. intros ->. reflexivity. Qed.

Lemma try_catch_inv (m h : Run A) r l :
  try_catch m h = Some (r, l) ->
  (exists a, m = Some (Ret a, l) /\ r = Ret a) \/
  exists l1 l2, m = Some (Throw, l1) /\ h = Some (r, l2) /\ l = l1 ++ l2.
Proof.
  unfold try_catch, after. destruct m as [[[a|] l1]|]; try discriminate.
  - intros [= <- <-]. left. exists a. auto.
  - destruct h as [[r2 l2]|]; try discriminate.
    intros [= <- <-]. right. exists l1, l2. auto.
Qed.

End RunLemmas.

Section Combinators.
Context {A B : Type}.

Lemma safe_ret (a : A) : safe (ret a).
Proof. intros l. discriminate. Qed.

Lemma safe_try_catch (m h : Run A) : safe h -> safe (try_catch m h).
Proof.
  intros Hh l H. apply try_catch_inv in H as [(a & _ & ?)|(l1 & l2 & _ & H & _)].
  - discriminate.
  - exact (Hh _ H).
Qed.

Lemma safe_bind (m : Run A) (f : A -> Run B) :
  safe m -> (forall a, safe (f a)) -> safe (bind m f).
Proof.
  intros Hm Hf l H. apply bind_inv in H as [[H _]|(a & l1 & l2 & _ & H & _)].
  - exact (Hm _ H).
  - exact (Hf _ _ H).
Qed.

Lemma safe_after l (m : Run A) : safe m -> safe (after l m).
Proof.
  intros Hm l' H. unfold after in H. destruct m as [[r l2]|]; try discriminate.
  injection H as -> <-. exact (Hm _ eq_refl).
Qed.

Lemma returns_bind (m : Run A) (f : A -> Run B) :
  returns m -> (forall a, returns (f a)) -> returns (bind m f).
Proof.
  intros (a & l & ->) Hf. destruct (Hf a) as (b & l' & E).
  exists b, (l ++ l'). simpl. rewrite E. reflexivity.
Qed.

Lemma returns_try_catch (m h : Run A) :
  m <> None -> returns h -> returns (try_catch m h).
Proof.
  intros Hm (b & l' & ->). destruct m as [[[a|] l]|]; try congruence.
  - exists a, l. reflexivity.
  - exists b, (l ++ l'). reflexivity.
Qed.

Lemma logs_ret P (a : A) : logs P (ret a).
Proof. intros r l [= <- <-]. constructor. Qed.

Lemma logs_throw P : logs P (@throw A).
Proof. intros r l [= <- <-]. constructor. Qed.

Lemma logs_lift P (o : Outcome A) : logs P (lift o).
Proof. intros r l [= <- <-]. constructor. Qed.

Lemma logs_after P l (m : Run A) : Forall P l -> logs P m -> logs P (after l m).
Proof.
  intros Hl Hm r l' H. unfold after in H. destruct m as [[r2 l2]|]; try discriminate.
  injection H as <- <-. apply Forall_app. split; [exact Hl | exact (Hm _ _ eq_refl)].
Qed.

Lemma logs_bind P (m : Run A) (f : A -> Run B) :
  logs P m -> (forall a, logs P (f a)) -> logs P (bind m f).
Proof.
  intros Hm Hf r l H. apply bind_inv in H as [[H _]|(a & l1 & l2 & H1 & H2 & ->)].
  - exact (Hm _ _ H).
  - apply Forall_app. split; [exact (Hm _ _ H1) | exact (Hf _ _ _ H2)].
Qed.

Lemma logs_try_catch P (m h : Run A) :
  logs P m -> logs P h -> logs P (try_catch m h).
Proof.
  intros Hm Hh r l H.
  apply try_catch_inv in H as [(a & H & _)|(l1 & l2 & H1 & H2 & ->)].
  - exact (Hm _ _ H).
  - apply Forall_app. split; [exact (Hm _ _ H1) | exact (Hh _ _ H2)].
Qed.

Lemma mono_const (m : Run A) : mono (fun _ => m).
Proof. intros n k x _ H. exact H. Qed.

Lemma mono_bind (f : nat -> Run A) (g : A -> nat -> Run B) :
  mono f -> (forall a, mono (g a)) -> mono (fun n => bind (f n) (fun a => g a n)).
Proof.
  intros Hf Hg n k [r l] Hle H.
  apply bind_inv in H as [[H ->]|(a & l1 & l2 & H1 & H2 & ->)].
  - rewrite (Hf _ _ _ Hle H). reflexivity.
  - rewrite (bind_Ret _ _ _ _ (Hf _ _ _ Hle H1)).
    rewrite (Hg _ _ _ _ Hle H2). reflexivity.
Qed.

Lemma mono_try_catch (f h : nat -> Run A) :
  mono f -> mono h -> mono (fun n => try_catch (f n) (h n)).
Proof.
  intros Hf Hh n k [r l] Hle H.
  apply try_catch_inv in H as [(a & H & ->)|(l1 & l2 & H1 & H2 & ->)].
  - rewrite (Hf _ _ _ Hle H). reflexivity.
  - rewrite (Hf _ _ _ Hle H1). simpl. rewrite (Hh _ _ _ Hle H2). reflexivity.
Qed.

Lemma mono_after l (f : nat -> Run A) : mono f -> mono (fun n => after l (f n)).
Proof.
  intros Hf n k [r l'] Hle H. unfold after in *.
  destruct (f n) as [[r2 l2]|] eqn:E; try discriminate.
  rewrite (Hf _ _ _ Hle E). exact H.
Qed.

Lemma mono_if (b : bool) (f g : nat -> Run A) :
  mono f -> mono g -> mono (fun n => if b then f n else g n).
Proof. destruct b; auto. Qed.

End Combinators.

Lemma logs_emit (P : Event -> Prop) e : P e -> logs P (emit e).
Proof. intros H r l [= <- <-]. constructor; [exact H | constructor]. Qed.

Lemma safe_emit e : safe (emit e).
Proof. intros l. discriminate. Qed.

Lemma returns_ret {A} (a : A) : returns (ret a).
Proof. exists a, []. reflexivity. Qed.

Lemma returns_emit e : returns (emit e).
Proof. exists tt, [e]. reflexivity. Qed.

Lemma returns_after {A} l (m : Run A) : returns m -> returns (after l m).
Proof. intros (a & l' & ->). exists a, (l ++ l'). reflexivity. Qed.

Lemma after_nil {A} (m : Run A) : after [] m = m.
Proof. destruct m as [[r l]|]; reflexivity. Qed.

Lemma after_after {A} l1 l2 (m : Run A) :
  after l1 (after l2 m) = after (l1 ++ l2) m.
Proof. destruct m as [[r l]|]; simpl; [rewrite app_assoc|]; reflexivity. Qed.

Lemma returns_not_None {A} (m : Run A) : returns m -> m <> None.
Proof. intros (a & l & ->). discriminate. Qed.

(* ================================================================== *)
(** ** Strings *)
(* ================================================================== *)

Lemma trim_start_keeps c s :
  In c s -> is_space c = false -> In c (trim_start s).
Proof.
  induction s as [|x s IH]; simpl; [tauto|].
  intros [->|Hin] Hc.
  - rewrite Hc. left. reflexivity.
  - destruct (is_space x); [auto | right; exact Hin].
Qed.

Lemma trim_keeps c s : In c s -> is_space c = false -> In c (trim s).
Proof.
  intros Hin Hc. unfold trim, trim_end.
  apply in_rev. rewrite rev_involutive.
  apply trim_start_keeps; [|exact Hc].
  apply -> in_rev. apply trim_start_keeps; assumption.
Qed.

Lemma join_keeps sep c x l : In x l -> In c x -> In c (join sep l).
Proof.
  induction l as [|y l IH]; simpl; [tauto|].
  intros [->|Hin] Hc.
  - destruct l; [exact Hc | apply in_or_app; left; exact Hc].
  - destruct l as [|z l']; [destruct Hin|].
    apply in_or_app. right. apply in_or_app. right. apply IH; assumption.
Qed.

Lemma transcript_line_colon t : In 58%N (transcript_line t).
Proof.
  unfold transcript_line. apply in_or_app. right.
  apply in_or_app. left. simpl. left. reflexivity.
Qed.

Lemma fullTranscript_nonempty t ts : fullTranscript_of (t :: ts) <> [].
Proof.
  intros H.
  assert (Hin : In 58%N (fullTranscript_of (t :: ts))).
  { unfold fullTranscript_of. apply trim_keeps; [|reflexivity].
    apply join_keeps with (x := transcript_line t).
    - simpl. left. reflexivity.
    - apply transcript_line_colon. }
  rewrite H in Hin. destruct Hin.
Qed.

Lemma fullTranscript_empty_iff ts : fullTranscript_of ts = [] <-> ts = [].
Proof.
  split.
  - destruct ts as [|t ts]; [reflexivity|].
    intros H. destruct (fullTranscript_nonempty _ _ H).
  - intros ->. reflexivity.
Qed.

Lemma length_zero_iff (s : jsstring) : (length s =? 0)%nat = true <-> s = [].
Proof. destruct s; simpl; split; congruence. Qed.

Lemma sentence_end_class c :
  sentence_end c = bool_decide (c ∈ [46%N; 63%N; 33%N]).
Proof.
  unfold sentence_end.
  destruct (N.eqb_spec c 46) as [->|H1]; [reflexivity|].
  destruct (N.eqb_spec c 63) as [->|H2]; [reflexivity|].
  destruct (N.eqb_spec c 33) as [->|H3]; [reflexivity|].
  simpl. symmetry. apply bool_decide_eq_false.
  rewrite !elem_of_cons, elem_of_nil. tauto.
Qed.

Lemma split_on_ext f g s : (forall c, f c = g c) -> split_on f s = split_on g s.
Proof.
  intros H. induction s as [|c s IH]; simpl; [reflexivity|].
  rewrite H, IH. reflexivity.
Qed.

Lemma derive_keyPoints_spec text : derive_keyPoints text = spec_keyPoints text.
Proof.
  unfold derive_keyPoints, spec_keyPoints.
  rewrite (split_on_ext _ _ text sentence_end_class).
  f_equal. apply filter_ext. intros t.
  destruct (Nat.ltb_spec 4 (length t)), (Nat.ltb_spec (length t) 5);
    simpl; try reflexivity; lia.
Qed.

Lemma slice0_length n s : (length (slice0 n s) <= n)%nat.
Proof. unfold slice0. rewrite length_take. lia. Qed.

Lemma slice0_short n s : (length s <= n)%nat -> slice0 n s = s.
Proof. unfold slice0. apply take_ge. Qed.

(* ================================================================== *)
(** ** The transcription orchestrator *)
(* ================================================================== *)

Ltac mono_step :=
  first [ apply mono_const
        | apply mono_try_catch
        | apply mono_after
        | apply mono_bind; [|intros ?] ].

Ltac logs_step :=
  first [ apply logs_ret | apply logs_throw | apply logs_lift
        | apply logs_emit; reflexivity
        | apply logs_try_catch
        | apply logs_bind; [|intros ?] ].

Ltac safe_step :=
  first [ apply safe_ret | apply safe_emit
        | apply safe_try_catch
        | apply safe_bind; [|intros ?] ].

Lemma poll_loop_stop svc fuel n st res :
  still_running st = false -> poll_loop svc fuel n st res = ret (st, res).
Proof. intros H. destruct fuel; simpl; rewrite H; reflexivity. Qed.

Lemma poll_loop_step svc fuel n st res :
  still_running st = true ->
  poll_loop svc (S fuel) n st res =
  match tx_poll svc n with
  | Throw => Some (Throw, [EvSleep 3000; EvPollJob])
  | Ret r => after [EvSleep 3000; EvPollJob]
               (poll_loop svc fuel (S n) (res_status r) (Some r))
  end.
Proof.
  intros H. simpl. rewrite H.
  destruct (tx_poll svc n) as [r|]; [|reflexivity].
  simpl. destruct (poll_loop svc fuel (S n) (res_status r) (Some r)) as [[o l]|];
    reflexivity.
Qed.

Lemma poll_loop_mono svc n st res :
  mono (fun fuel => poll_loop svc fuel n st res).
Proof.
  intros fuel. revert n st res.
  induction fuel as [|fuel IH]; intros n st res fuel' x Hle H.
  - destruct (still_running st) eqn:E.
    + simpl in H. rewrite E in H. discriminate.
    + rewrite poll_loop_stop in * by exact E. exact H.
  - destruct (still_running st) eqn:E.
    + destruct fuel' as [|fuel']; [lia|].
      rewrite poll_loop_step in * by exact E.
      destruct (tx_poll svc n) as [r|]; [|exact H].
      unfold after in *.
      destruct (poll_loop svc fuel (S n) (res_status r) (Some r)) as [y|] eqn:Ey;
        [|discriminate].
      rewrite (IH _ _ _ fuel' y ltac:(lia) Ey). exact H.
    + rewrite poll_loop_stop in * by exact E. exact H.
Qed.

Lemma poll_loop_logs svc fuel n st res :
  logs (fun e => is_summarization_event e = false) (poll_loop svc fuel n st res).
Proof.
  revert n st res. induction fuel as [|fuel IH]; intros n st res.
  - simpl. destruct (still_running st); [intros r l H; discriminate | apply logs_ret].
  - destruct (still_running st) eqn:E;
      [|rewrite poll_loop_stop by exact E; apply logs_ret].
    rewrite poll_loop_step by exact E.
    destruct (tx_poll svc n) as [r|].
    + apply logs_after; [repeat constructor | apply IH].
    + intros r l [= <- <-]. repeat constructor.
Qed.

(** Once some poll ends the loop, enough fuel lets the loop settle. *)
Lemma poll_loop_settles svc d : forall n st res fuel,
  poll_ends svc (n + d) = true -> (d < fuel)%nat ->
  poll_loop svc fuel n st res <> None.
Proof.
  induction d as [|d IH]; intros n st res fuel Hend Hlt.
  - destruct fuel as [|fuel]; [lia|].
    destruct (still_running st) eqn:E;
      [|rewrite poll_loop_stop by exact E; discriminate].
    rewrite poll_loop_step by exact E.
    rewrite Nat.add_0_r in Hend. unfold poll_ends in Hend.
    destruct (tx_poll svc n) as [r|]; [|discriminate].
    rewrite poll_loop_stop
      by (destruct (still_running (res_status r)); [discriminate|reflexivity]).
    simpl. discriminate.
  - destruct fuel as [|fuel]; [lia|].
    destruct (still_running st) eqn:E;
      [|rewrite poll_loop_stop by exact E; discriminate].
    rewrite poll_loop_step by exact E.
    destruct (tx_poll svc n) as [r|]; [|discriminate].
    specialize (IH (S n) (res_status r) (Some r) fuel).
    replace (S n + d)%nat with (n + S d)%nat in IH by lia.
    specialize (IH Hend ltac:(lia)).
    destruct (poll_loop svc fuel (S n) (res_status r) (Some r)) as [[o l]|];
      [simpl; discriminate|congruence].
Qed.

Lemma transcribe_mono svc blob :
  mono (fun fuel => transcribeWithAssemblyAI svc fuel blob).
Proof.
  unfold transcribeWithAssemblyAI. repeat mono_step. apply poll_loop_mono.
Qed.

Lemma transcribe_logs svc fuel blob :
  logs (fun e => is_summarization_event e = false)
       (transcribeWithAssemblyAI svc fuel blob).
Proof.
  unfold transcribeWithAssemblyAI. repeat logs_step.
  - apply poll_loop_logs.
  - destruct (bool_decide _); [destruct (snd _)|]; logs_step.
Qed.

(** The part of [transcribeWithAssemblyAI] inside its [try] block. *)
Lemma transcribe_unfold svc fuel blob :
  transcribeWithAssemblyAI svc fuel blob =
  after [EvTranscribe blob]
    (match tx_tmpfile svc with
     | Throw => throw
     | Ret _ =>
         try_catch
           (emit EvUpload ;;
            lift (tx_upload svc) ;;
            emit EvSubmitJob ;;
            do st0 <- lift (tx_submit svc) ;
            do sr <- poll_loop svc fuel 0 st0 None ;
            if bool_decide (sr.1 = Some completed) then
              match sr.2 with
              | Some r => ret (or_else (res_text r) [])
              | None => throw
              end
            else ret [])
           (ret [])
     end).
Proof.
  unfold transcribeWithAssemblyAI.
  set (body := try_catch _ _).
  destruct (tx_tmpfile svc); simpl; rewrite ?after_nil; reflexivity.
Qed.

(** With a writable temporary file the orchestrator raises nothing. *)
Lemma transcribe_safe svc fuel blob u :
  tx_tmpfile svc = Ret u -> safe (transcribeWithAssemblyAI svc fuel blob).
Proof.
  intros H. rewrite transcribe_unfold, H.
  apply safe_after, safe_try_catch, safe_ret.
Qed.

Lemma transcribe_settles svc blob :
  (exists n, poll_ends svc n = true) ->
  exists fuel, transcribeWithAssemblyAI svc fuel blob <> None.
Proof.
  intros [n Hn]. exists (S n). rewrite transcribe_unfold.
  destruct (tx_tmpfile svc); [|simpl; discriminate].
  destruct (tx_upload svc); [|simpl; discriminate].
  destruct (tx_submit svc) as [st0|]; [|simpl; discriminate].
  pose proof (poll_loop_settles svc n 0 st0 None (S n) Hn ltac:(lia)) as Hp.
  cbn [bind emit lift after]. 
  destruct (poll_loop svc (S n) 0 st0 None) as [[[sr|] l]|]; [|simpl; discriminate|congruence].
  simpl. destruct (bool_decide _); [destruct (snd sr)|]; simpl; discriminate.
Qed.

Lemma still_running_error : still_running (Some error) = false.
Proof. vm_compute. reflexivity. Qed.

Lemma error_not_completed : bool_decide (Some error = Some completed) = false.
Proof. vm_compute. reflexivity. Qed.

(** When the first terminal status is [error], reported at poll [n], the
    loop can only leave with that status. *)
Lemma poll_loop_error svc n r :
  tx_poll svc n = Ret r -> res_status r = Some error ->
  (forall m, (m < n)%nat -> poll_ends svc m = false) ->
  forall d k st res fuel x,
    (k + d)%nat = n -> still_running st = true ->
    poll_loop svc fuel k st res = Some x ->
    exists l, x = (Ret (Some error, Some r), l).
Proof.
  intros Hn Hst Hbefore. induction d as [|d IH]; intros k st res fuel x Hk Hrun H.
  - assert (k = n) as -> by lia.
    destruct fuel as [|fuel]; [simpl in H; rewrite Hrun in H; discriminate|].
    rewrite poll_loop_step, Hn in H by exact Hrun.
    rewrite poll_loop_stop in H by (rewrite Hst; apply still_running_error).
    rewrite Hst in H. injection H as <-. eauto.
  - destruct fuel as [|fuel]; [simpl in H; rewrite Hrun in H; discriminate|].
    rewrite poll_loop_step in H by exact Hrun.
    pose proof (Hbefore k ltac:(lia)) as Hk'. unfold poll_ends in Hk'.
    destruct (tx_poll svc k) as [r'|]; [|discriminate].
    apply negb_false_iff in Hk'.
    destruct (poll_loop svc fuel (S k) (res_status r') (Some r')) as [y|] eqn:E;
      [|discriminate].
    destruct (IH (S k) _ _ _ _ ltac:(lia) Hk' E) as [l ->].
    injection H as <-. eauto.
Qed.

(** A job that ends in error never yields text: the orchestrator returns
    [''], unless the temporary file could not be written, in which case it
    raises. *)
Lemma transcribe_error_result svc fuel blob o l :
  reports_error svc ->
  transcribeWithAssemblyAI svc fuel blob = Some (o, l) ->
  o = Ret [] \/ (o = Throw /\ tx_tmpfile svc = Throw).
Proof.
  intros Herr H. rewrite transcribe_unfold in H.
  destruct (tx_tmpfile svc) as [u|]; [|injection H as <- _; right; auto].
  left. unfold after in H.
  destruct (try_catch _ _) as [[o' l']|] eqn:E; [|discriminate].
  injection H as <- _.
  apply try_catch_inv in E as [(a & E & ->)|(l1 & l2 & _ & E & _)];
    [|injection E as <- _; reflexivity].
  apply bind_inv_Ret in E as (_ & _ & l3 & _ & E & _).
  apply bind_inv_Ret in E as (_ & _ & l4 & _ & E & _).
  apply bind_inv_Ret in E as (_ & _ & l5 & _ & E & _).
  apply bind_inv_Ret in E as (st0 & l6 & l7 & Hsub & E & _).
  apply bind_inv_Ret in E as (sr & l8 & l9 & Hloop & E & _).
  assert (Hsr : sr.1 = Some error \/ (sr.1 <> Some completed \/ sr.2 = None)).
  { destruct (still_running st0) eqn:Erun.
    - destruct Herr as [Hs|(n & r & Hn & Hst & Hbefore)].
      + unfold lift in Hsub. rewrite Hs in Hsub. injection Hsub as <-.
        rewrite still_running_error in Erun. discriminate.
      + destruct (poll_loop_error svc n r Hn Hst Hbefore n 0%nat st0 None fuel _
                    eq_refl Erun Hloop) as [l0 [= -> _]].
        left. reflexivity.
    - rewrite poll_loop_stop in Hloop by exact Erun.
      injection Hloop as <- _. right. right. reflexivity. }
  destruct Hsr as [Hsr|[Hsr|Hsr]].
  - rewrite Hsr, error_not_completed in E. injection E as <- _. reflexivity.
  - rewrite bool_decide_eq_false_2 in E by exact Hsr. injection E as <- _. reflexivity.
  - rewrite Hsr in E. destruct (bool_decide _); [discriminate|].
    injection E as <- _. reflexivity.
Qed.

Lemma transcribe_error_settles svc blob :
  reports_error svc ->
  exists fuel, transcribeWithAssemblyAI svc fuel blob <> None.
Proof.
  intros [Hs|(n & r & Hn & Hst & _)].
  - exists 0%nat. rewrite transcribe_unfold.
    destruct (tx_tmpfile svc); [|simpl; discriminate].
    destruct (tx_upload svc); [|simpl; discriminate].
    rewrite Hs. cbn [bind emit lift after].
    rewrite poll_loop_stop by apply still_running_error.
    cbn [bind ret after fst snd]. rewrite error_not_completed.
    cbn. discriminate.
  - apply transcribe_settles. exists n. unfold poll_ends.
    rewrite Hn, Hst, still_running_error. reflexivity.
Qed.

(* ================================================================== *)
(** ** The summarization orchestrator *)
(* ================================================================== *)

Ltac run_cbn := cbn [bind lift emit after try_catch ret throw app negb].

Ltac settle_shape :=
  (exists (mk_result [] []) + eexists); intros [[[?|] ?l]|] Hs; run_cbn;
  [reflexivity | destruct (Hs _ eq_refl) | reflexivity].

(** One call either answers with a value or, on "model not ready", waits
    15 s and hands over to the next call. *)
Lemma summarize_call_shape svc k t :
  exists v, forall retry, safe retry ->
    summarize_call svc k t retry =
    after [EvSummarize t; EvHfRequest (slice0 4000 t)]
      (if hf_retries svc k then after [EvSleep 15000] retry else ret v).
Proof.
  unfold summarize_call, hf_retries, after_parse, signals_loading.
  generalize (slice0 4000 t) as inputs. intros inputs.
  destruct (hf_fetch svc k) as [resp|]; run_cbn; [|settle_shape].
  destruct (resp_text resp) as [body|]; run_cbn; [|settle_shape].
  destruct (resp_ok resp); run_cbn.
  2:{ destruct (status resp =? 503); settle_shape. }
  destruct (is_json_type (content_type resp)); run_cbn.
  2:{ destruct (starts_with _ _ || starts_with _ _); settle_shape. }
  destruct (JSON_parse svc body) as [data|]; [|settle_shape].
  destruct (error_includes (lit "loading") (json_prop error data)) as [[|]|];
    run_cbn; [settle_shape| |settle_shape].
  destruct (error_includes (lit "is currently loading") (json_prop error data))
    as [[|]|]; run_cbn; [settle_shape| |settle_shape].
  destruct (opt_truthy (json_prop error data)); [settle_shape|].
  destruct (extract_text data) as [v|]; [|settle_shape].
  destruct (json_truthy v); [|settle_shape].
  destruct v; settle_shape.
Qed.

Lemma summarize_call_safe svc k t retry : safe (summarize_call svc k t retry).
Proof.
  unfold summarize_call. apply safe_bind; [apply safe_emit|].
  intros _. apply safe_try_catch, safe_ret.
Qed.

Lemma summarize_safe svc fuel k t : safe (summarizeWithHuggingFace svc fuel k t).
Proof.
  destruct fuel; [intros l; discriminate | apply summarize_call_safe].
Qed.

Lemma summarize_step svc k t :
  exists v, forall fuel,
    summarizeWithHuggingFace svc (S fuel) k t =
    after [EvSummarize t; EvHfRequest (slice0 4000 t)]
      (if hf_retries svc k
       then after [EvSleep 15000] (summarizeWithHuggingFace svc fuel (S k) t)
       else ret v).
Proof.
  destruct (summarize_call_shape svc k t) as [v Hv].
  exists v. intros fuel. apply Hv, summarize_safe.
Qed.

Lemma summarize_mono svc k t :
  mono (fun fuel => summarizeWithHuggingFace svc fuel k t).
Proof.
  intros fuel. revert k. induction fuel as [|fuel IH]; intros k fuel' x Hle H;
    [discriminate|].
  destruct fuel' as [|fuel']; [lia|].
  destruct (summarize_step svc k t) as [v Hv]. rewrite Hv in *.
  destruct (hf_retries svc k); [|exact H].
  rewrite after_after in *. unfold after in *.
  destruct (summarizeWithHuggingFace svc fuel (S k) t) as [y|] eqn:E;
    [|discriminate].
  rewrite (IH _ fuel' y ltac:(lia) E). exact H.
Qed.

(** What a run of the orchestrator does: it announces the transcript, posts
    its first 4000 characters, and waits 15 s between two requests. *)
Lemma summarize_logs svc fuel k t :
  logs (fun e => e = EvSummarize t \/ e = EvHfRequest (slice0 4000 t)
                 \/ e = EvSleep 15000)
       (summarizeWithHuggingFace svc fuel k t).
Proof.
  revert k. induction fuel as [|fuel IH]; intros k; [intros r l H; discriminate|].
  destruct (summarize_step svc k t) as [v Hv]. rewrite Hv.
  apply logs_after; [repeat (constructor; [tauto|]); constructor|].
  destruct (hf_retries svc k); [|apply logs_ret].
  apply logs_after; [|apply IH].
  repeat (constructor; [tauto|]); constructor.
Qed.

Lemma summarize_announces svc fuel k t r l :
  summarizeWithHuggingFace svc fuel k t = Some (r, l) ->
  exists l', l = EvSummarize t :: l'.
Proof.
  destruct fuel as [|fuel]; [discriminate|].
  destruct (summarize_step svc k t) as [v Hv]. rewrite Hv.
  unfold after at 1. destruct (if hf_retries svc k then _ else _) as [[r' l']|];
    [|discriminate].
  intros [= _ <-]. simpl. eauto.
Qed.

(** Once some request is not answered by "model not ready", enough fuel
    lets the orchestrator return. *)
Lemma summarize_settles svc t d : forall k fuel,
  hf_retries svc (k + d) = false -> (d < fuel)%nat ->
  returns (summarizeWithHuggingFace svc fuel k t).
Proof.
  induction d as [|d IH]; intros k fuel Hd Hlt;
    (destruct fuel as [|fuel]; [lia|]);
    destruct (summarize_step svc k t) as [v Hv]; rewrite Hv.
  - rewrite Nat.add_0_r in Hd. rewrite Hd. apply returns_after, returns_ret.
  - destruct (hf_retries svc k); [|apply returns_after, returns_ret].
    do 2 apply returns_after. apply IH; [|lia].
    replace (S k + d)%nat with (k + S d)%nat by lia. exact Hd.
Qed.

(** A request answered by HTTP 503 with a readable body is retried. *)
Lemma hf_retries_503 svc k resp body :
  hf_fetch svc k = Ret resp -> status resp = 503 -> resp_text resp = Ret body ->
  hf_retries svc k = true.
Proof.
  intros Hf Hs Hb. unfold hf_retries, resp_ok. rewrite Hf, Hb, Hs. reflexivity.
Qed.

(** A request answered by a JSON body that carries summary text returns that
    text with the key points derived from it. *)
Lemma summarize_call_success svc k t retry resp body data text :
  hf_fetch svc k = Ret resp -> resp_ok resp = true ->
  is_json_type (content_type resp) = true ->
  resp_text resp = Ret body -> JSON_parse svc body = Some data ->
  carries_summary data text ->
  summarize_call svc k t retry =
  Some (Ret (mk_result text (derive_keyPoints text)),
        [EvSummarize t; EvHfRequest (slice0 4000 t)]).
Proof.
  intros Hf Hok Hjs Hb Hp (He & Hx & Hne).
  unfold summarize_call, after_parse.
  generalize (slice0 4000 t) as inputs. intros inputs.
  rewrite Hf. run_cbn. rewrite Hb. run_cbn. rewrite Hok, Hjs. run_cbn.
  rewrite Hp, He. cbn [error_includes opt_truthy]. run_cbn.
  rewrite Hx. destruct text as [|c text]; [congruence|]. reflexivity.
Qed.

(* ================================================================== *)
(** ** Name resolution and persistence *)
(* ================================================================== *)

Lemma fetch_memberships_step svc fuel page acc :
  fetch_memberships svc (S fuel) page acc =
  after [EvClerkFetch page]
    (if page_continues svc page
     then match clerk_fetch svc page with
          | Ret pg =>
              match page_memberships pg with
              | Ret ms => fetch_memberships svc fuel (S page) (acc ++ ms)
              | Throw => throw
              end
          | Throw => throw
          end
     else match clerk_fetch svc page with
          | Ret pg =>
              if negb (page_ok pg) then ret acc
              else match page_memberships pg with
                   | Ret ms => if (length ms =? 0)%nat then ret acc
                               else ret (acc ++ ms)
                   | Throw => throw
                   end
          | Throw => throw
          end).
Proof.
  unfold page_continues. cbn [fetch_memberships]. run_cbn.
  destruct (clerk_fetch svc page) as [pg|]; run_cbn; [|reflexivity].
  destruct (page_ok pg); run_cbn; [|reflexivity].
  destruct (page_memberships pg) as [ms|]; run_cbn; [|reflexivity].
  rewrite !after_nil.
  destruct (Nat.ltb_spec (length ms) 500); cbn [negb].
  - destruct (Nat.eqb_spec (length ms) 0); reflexivity.
  - destruct (Nat.eqb_spec (length ms) 0) as [E|_]; [lia|reflexivity].
Qed.

Lemma fetch_memberships_mono svc page acc :
  mono (fun fuel => fetch_memberships svc fuel page acc).
Proof.
  intros fuel. revert page acc.
  induction fuel as [|fuel IH]; intros page acc fuel' x Hle H; [discriminate|].
  destruct fuel' as [|fuel']; [lia|].
  rewrite fetch_memberships_step in *.
  destruct (page_continues svc page); [|exact H].
  destruct (clerk_fetch svc page) as [pg|]; [|exact H].
  destruct (page_memberships pg) as [ms|]; [|exact H].
  unfold after in *.
  destruct (fetch_memberships svc fuel (S page) (acc ++ ms)) as [y|] eqn:E;
    [|discriminate].
  rewrite (IH _ _ fuel' y ltac:(lia) E). exact H.
Qed.

Lemma fetch_memberships_logs svc fuel page acc :
  logs quiet (fetch_memberships svc fuel page acc).
Proof.
  revert page acc. induction fuel as [|fuel IH]; intros page acc;
    [intros r l H; discriminate|].
  rewrite fetch_memberships_step.
  apply logs_after; [repeat constructor|].
  destruct (page_continues svc page), (clerk_fetch svc page) as [pg|];
    try apply logs_throw.
  - destruct (page_memberships pg); [apply IH | apply logs_throw].
  - destruct (negb (page_ok pg)); [apply logs_ret|].
    destruct (page_memberships pg) as [ms|]; [|apply logs_throw].
    destruct (length ms =? 0)%nat; apply logs_ret.
Qed.

Lemma fetch_memberships_settles svc d : forall page acc fuel,
  page_continues svc (page + d) = false -> (d < fuel)%nat ->
  fetch_memberships svc fuel page acc <> None.
Proof.
  induction d as [|d IH]; intros page acc fuel Hd Hlt;
    (destruct fuel as [|fuel]; [lia|]); rewrite fetch_memberships_step.
  - rewrite Nat.add_0_r in Hd. rewrite Hd.
    destruct (clerk_fetch svc page) as [pg|]; [|simpl; discriminate].
    destruct (negb (page_ok pg)); [simpl; discriminate|].
    destruct (page_memberships pg) as [ms|]; [|simpl; discriminate].
    destruct (length ms =? 0)%nat; simpl; discriminate.
  - destruct (page_continues svc page).
    + destruct (clerk_fetch svc page) as [pg|]; [|simpl; discriminate].
      destruct (page_memberships pg) as [ms|]; [|simpl; discriminate].
      specialize (IH (S page) (acc ++ ms) fuel).
      replace (S page + d)%nat with (page + S d)%nat in IH by lia.
      specialize (IH Hd ltac:(lia)).
      destruct (fetch_memberships svc fuel (S page) (acc ++ ms)) as [[o l]|];
        [simpl; discriminate | congruence].
    + destruct (clerk_fetch svc page) as [pg|]; [|simpl; discriminate].
      destruct (negb (page_ok pg)); [simpl; discriminate|].
      destruct (page_memberships pg) as [ms|]; [|simpl; discriminate].
      destruct (length ms =? 0)%nat; simpl; discriminate.
Qed.

Lemma getOrganizationMemberNames_safe svc fuel org :
  safe (getOrganizationMemberNames svc fuel org).
Proof.
  unfold getOrganizationMemberNames.
  destruct (negb (opt_str_truthy org)); [apply safe_ret|].
  apply safe_try_catch, safe_ret.
Qed.

Lemma getOrganizationMemberNames_mono svc org :
  mono (fun fuel => getOrganizationMemberNames svc fuel org).
Proof.
  unfold getOrganizationMemberNames.
  destruct (negb (opt_str_truthy org)); [apply mono_const|].
  apply mono_try_catch; [|apply mono_const].
  destruct (negb (opt_str_truthy (CLERK_SECRET_KEY svc))); [apply mono_const|].
  apply mono_bind; [apply fetch_memberships_mono | intros a; apply mono_const].
Qed.

Lemma getOrganizationMemberNames_logs svc fuel org :
  logs quiet (getOrganizationMemberNames svc fuel org).
Proof.
  unfold getOrganizationMemberNames.
  destruct (negb (opt_str_truthy org)); [apply logs_ret|].
  apply logs_try_catch; [|apply logs_ret].
  destruct (negb (opt_str_truthy (CLERK_SECRET_KEY svc))); [apply logs_ret|].
  apply logs_bind; [apply fetch_memberships_logs | intros a; apply logs_ret].
Qed.

Lemma safe_returns {A} (m : Run A) : safe m -> m <> None -> returns m.
Proof.
  intros Hs Hn. destruct m as [[[a|] l]|].
  - exists a, l. reflexivity.
  - destruct (Hs l eq_refl).
  - congruence.
Qed.

Lemma bind_not_None {A B} (m : Run A) (f : A -> Run B) :
  m <> None -> (forall a, f a <> None) -> bind m f <> None.
Proof.
  intros Hm Hf. destruct m as [[[a|] l]|]; [|discriminate|congruence].
  simpl. specialize (Hf a). destruct (f a) as [[o l']|]; [discriminate|congruence].
Qed.

Lemma try_catch_not_None {A} (m h : Run A) :
  m <> None -> h <> None -> try_catch m h <> None.
Proof.
  intros Hm Hh. destruct m as [[[a|] l]|]; [discriminate| |congruence].
  simpl. destruct h as [[o l']|]; [discriminate|congruence].
Qed.

(** With a pagination that ends, enough fuel lets name resolution return. *)
Lemma getOrganizationMemberNames_settles svc org :
  (exists n, page_continues svc n = false) ->
  exists fuel, returns (getOrganizationMemberNames svc fuel org).
Proof.
  intros [n Hn]. exists (S n).
  apply safe_returns; [apply getOrganizationMemberNames_safe|].
  unfold getOrganizationMemberNames.
  destruct (negb (opt_str_truthy org)); [discriminate|].
  apply try_catch_not_None; [|discriminate].
  destruct (negb (opt_str_truthy (CLERK_SECRET_KEY svc))); [discriminate|].
  apply bind_not_None; [|discriminate].
  apply (fetch_memberships_settles svc n 0 [] (S n)); [exact Hn | lia].
Qed.

Lemma resolve_memberNames_safe env fuel a : safe (resolve_memberNames env fuel a).
Proof.
  unfold resolve_memberNames. destruct (opt_str_truthy (orgId a)).
  - apply getOrganizationMemberNames_safe.
  - apply safe_try_catch, safe_ret.
Qed.

Lemma resolve_memberNames_mono env a :
  mono (fun fuel => resolve_memberNames env fuel a).
Proof.
  unfold resolve_memberNames. destruct (opt_str_truthy (orgId a)).
  - apply getOrganizationMemberNames_mono.
  - apply mono_try_catch; [|apply mono_const].
    apply mono_bind; [apply mono_const|]. intros room.
    destruct (opt_str_truthy room);
      [apply getOrganizationMemberNames_mono | apply mono_const].
Qed.

Lemma resolve_memberNames_logs env fuel a :
  logs quiet (resolve_memberNames env fuel a).
Proof.
  unfold resolve_memberNames. destruct (opt_str_truthy (orgId a)).
  - apply getOrganizationMemberNames_logs.
  - apply logs_try_catch; [|apply logs_ret].
    apply logs_bind; [apply logs_lift|]. intros room.
    destruct (opt_str_truthy room);
      [apply getOrganizationMemberNames_logs | apply logs_ret].
Qed.

Lemma resolve_memberNames_settles env a :
  (exists n, page_continues (clerk env) n = false) ->
  exists fuel, returns (resolve_memberNames env fuel a).
Proof.
  intros Hn.
  destruct (getOrganizationMemberNames_settles (clerk env) (orgId a) Hn) as [f1 H1].
  unfold resolve_memberNames. destruct (opt_str_truthy (orgId a)).
  - exists f1. exact H1.
  - destruct (rooms_meeting env) as [room|].
    + destruct (getOrganizationMemberNames_settles (clerk env) room Hn) as [f2 H2].
      exists f2. apply safe_returns; [apply safe_try_catch, safe_ret|].
      apply try_catch_not_None; [|discriminate]. simpl. rewrite after_nil.
      destruct (opt_str_truthy room); [apply returns_not_None, H2 | discriminate].
    + exists 0%nat. exists ∅, []. reflexivity.
Qed.

(** The persistence step always settles, with the saved rows or [null]. *)
Lemma saveMeetingSummary_returns svc s roomId :
  returns (saveMeetingSummary svc s roomId).
Proof.
  apply safe_returns; [apply safe_try_catch, safe_ret|].
  unfold saveMeetingSummary. apply try_catch_not_None; [|discriminate].
  apply bind_not_None; [discriminate|]. intros a.
  apply bind_not_None.
  - destruct (opt_str_truthy (orgId a)); [discriminate|].
    apply try_catch_not_None; [|discriminate].
    apply bind_not_None; [discriminate|]. intros room.
    destruct (opt_str_truthy room); discriminate.
  - intros org1. apply bind_not_None; [discriminate|]. intros _.
    apply bind_not_None; [discriminate|]. intros reply.
    destruct (reply_error reply); [discriminate|].
    destruct (reply_data reply) as [[|row rows]|]; try discriminate.
    apply bind_not_None; [discriminate|]. intros _. discriminate.
Qed.

Lemma saveMeetingSummary_logs svc s roomId :
  logs quiet (saveMeetingSummary svc s roomId).
Proof.
  unfold saveMeetingSummary. apply logs_try_catch; [|apply logs_ret].
  apply logs_bind; [apply logs_lift|]. intros a.
  apply logs_bind.
  - destruct (opt_str_truthy (orgId a)); [apply logs_ret|].
    apply logs_try_catch; [|apply logs_ret].
    apply logs_bind; [apply logs_lift|]. intros room.
    destruct (opt_str_truthy room); apply logs_ret.
  - intros org1. apply logs_bind; [apply logs_emit; reflexivity|]. intros _.
    apply logs_bind; [apply logs_lift|]. intros reply.
    destruct (reply_error reply); [apply logs_throw|].
    destruct (reply_data reply) as [[|row rows]|]; try apply logs_throw.
    apply logs_bind; [apply logs_lift|]. intros _. apply logs_ret.
Qed.

(* ================================================================== *)
(** ** The transcription loop of stopMeeting *)
(* ================================================================== *)

Lemma mono_returns {A} (f : nat -> Run A) n m :
  mono f -> (n <= m)%nat -> returns (f n) -> returns (f m).
Proof. intros Hf Hle (a & l & H). exists a, l. exact (Hf _ _ _ Hle H). Qed.

Lemma transcribe_participant_safe svc fuel mn p :
  safe (transcribe_participant svc fuel mn p).
Proof.
  unfold transcribe_participant.
  destruct (length (p_chunks p) =? 0)%nat; [apply safe_ret|].
  apply safe_try_catch, safe_ret.
Qed.

Lemma transcribe_participant_mono svc mn p :
  mono (fun fuel => transcribe_participant svc fuel mn p).
Proof.
  unfold transcribe_participant.
  destruct (length (p_chunks p) =? 0)%nat; [apply mono_const|].
  apply mono_try_catch; [|apply mono_const]. cbv zeta.
  destruct (size (new_Blob (p_chunks p)) =? 0)%nat; [apply mono_const|].
  apply mono_bind; [apply transcribe_mono | intros a; apply mono_const].
Qed.

Lemma transcribe_participant_logs svc fuel mn p :
  logs quiet (transcribe_participant svc fuel mn p).
Proof.
  unfold transcribe_participant.
  destruct (length (p_chunks p) =? 0)%nat; [apply logs_ret|].
  apply logs_try_catch; [|apply logs_ret]. cbv zeta.
  destruct (size (new_Blob (p_chunks p)) =? 0)%nat; [apply logs_ret|].
  apply logs_bind; [apply transcribe_logs | intros a; apply logs_ret].
Qed.

(** The entry pushed for a participant: its identifier, its resolved name,
    and either the transcribed text or ['']. *)
Lemma transcribe_participant_entry svc fuel mn p o l :
  transcribe_participant svc fuel mn p = Some (o, l) ->
  exists text, o = Ret (entry (p_id p) (resolvedName mn p) text) /\
    (text = [] \/
     exists l', transcribeWithAssemblyAI svc fuel (new_Blob (p_chunks p))
                = Some (Ret text, l')).
Proof.
  unfold transcribe_participant.
  destruct (length (p_chunks p) =? 0)%nat; [intros [= <- _]; eauto|].
  cbv zeta. intros H.
  apply try_catch_inv in H as [(a & H & ->)|(l1 & l2 & _ & H & _)];
    [|injection H as <- _; eauto].
  destruct (size (new_Blob (p_chunks p)) =? 0)%nat; [injection H as <- _; eauto|].
  apply bind_inv_Ret in H as (text & l1 & l2 & H1 & H2 & _).
  injection H2 as <- _. eauto.
Qed.

Lemma transcribe_participant_settles svc mn p :
  (exists n, poll_ends svc n = true) ->
  exists fuel, returns (transcribe_participant svc fuel mn p).
Proof.
  intros Hn.
  destruct (transcribe_settles svc (new_Blob (p_chunks p)) Hn) as [fuel Hf].
  exists fuel. apply safe_returns; [apply transcribe_participant_safe|].
  unfold transcribe_participant.
  destruct (length (p_chunks p) =? 0)%nat; [discriminate|].
  apply try_catch_not_None; [|discriminate]. cbv zeta.
  destruct (size (new_Blob (p_chunks p)) =? 0)%nat; [discriminate|].
  apply bind_not_None; [exact Hf | discriminate].
Qed.

Lemma transcribe_all_safe tx fuel mn ps : forall k,
  safe (transcribe_all tx fuel mn k ps).
Proof.
  induction ps as [|p ps IH]; intros k; [apply safe_ret|].
  cbn [transcribe_all]. apply safe_bind; [apply transcribe_participant_safe|].
  intros t. apply safe_bind; [apply IH | intros ts; apply safe_ret].
Qed.

Lemma transcribe_all_mono tx mn ps : forall k,
  mono (fun fuel => transcribe_all tx fuel mn k ps).
Proof.
  induction ps as [|p ps IH]; intros k; [exact (mono_const (ret []))|].
  cbn [transcribe_all].
  apply mono_bind; [apply transcribe_participant_mono|]. intros t.
  apply mono_bind; [apply IH | intros ts; apply mono_const].
Qed.

Lemma transcribe_all_logs tx fuel mn ps : forall k,
  logs quiet (transcribe_all tx fuel mn k ps).
Proof.
  induction ps as [|p ps IH]; intros k; [apply logs_ret|].
  cbn [transcribe_all].
  apply logs_bind; [apply transcribe_participant_logs|]. intros t.
  apply logs_bind; [apply IH | intros ts; apply logs_ret].
Qed.

(** The loop pushes one entry per record, in order, under the record's
    identifier and resolved name. *)
Lemma transcribe_all_entries tx fuel mn ps : forall k ts l,
  transcribe_all tx fuel mn k ps = Some (Ret ts, l) ->
  Forall2 (fun p t => t_id t = p_id p /\ t_name t = Some (resolvedName mn p))
          ps ts.
Proof.
  induction ps as [|p ps IH]; intros k ts l H.
  - injection H as <- _. constructor.
  - cbn [transcribe_all] in H.
    apply bind_inv_Ret in H as (t & l1 & l2 & H1 & H2 & _).
    apply bind_inv_Ret in H2 as (ts' & l3 & l4 & H3 & H4 & _).
    injection H4 as <- _.
    apply transcribe_participant_entry in H1 as (text & [= ->] & _).
    constructor; [split; reflexivity | exact (IH _ _ _ H3)].
Qed.

Lemma transcribe_all_settles tx mn ps :
  (forall k, exists n, poll_ends (tx k) n = true) ->
  forall k, exists fuel, returns (transcribe_all tx fuel mn k ps).
Proof.
  intros Hn. induction ps as [|p ps IH]; intros k.
  - exists 0%nat. apply returns_ret.
  - destruct (transcribe_participant_settles (tx k) mn p (Hn k)) as [f1 H1].
    destruct (IH (S k)) as [f2 H2].
    exists (Nat.max f1 f2). cbn [transcribe_all].
    apply returns_bind.
    + apply (mono_returns (fun f => transcribe_participant (tx k) f mn p) f1);
        [apply transcribe_participant_mono | lia | exact H1].
    + intros t. apply returns_bind; [|intros ts; apply returns_ret].
      apply (mono_returns (fun f => transcribe_all tx f mn (S k) ps) f2);
        [apply transcribe_all_mono | lia | exact H2].
Qed.

(** When every job ends in error, every entry of the loop has text ['']. *)
Lemma transcribe_all_error_texts tx fuel mn ps :
  (forall k, reports_error (tx k)) ->
  forall k ts l,
    transcribe_all tx fuel mn k ps = Some (Ret ts, l) ->
    Forall (fun t => t_text t = []) ts.
Proof.
  intros Herr. induction ps as [|p ps IH]; intros k ts l H.
  - injection H as <- _. constructor.
  - cbn [transcribe_all] in H.
    apply bind_inv_Ret in H as (t & l1 & l2 & H1 & H2 & _).
    apply bind_inv_Ret in H2 as (ts' & l3 & l4 & H3 & H4 & _).
    injection H4 as <- _. constructor; [|exact (IH _ _ _ H3)].
    apply transcribe_participant_entry in H1 as (text & [= ->] & [->|[l' Ht]]);
      [reflexivity|].
    destruct (transcribe_error_result _ _ _ _ _ (Herr k) Ht) as [[= ->]|[? _]];
      [reflexivity | discriminate].
Qed.

(* ================================================================== *)
(** ** stopMeeting *)
(* ================================================================== *)

Lemma summarize_or_fallback_safe m ft : safe (summarize_or_fallback m ft).
Proof. apply safe_try_catch, safe_ret. Qed.

Lemma summarize_or_fallback_logs P m ft :
  logs P m -> logs P (summarize_or_fallback m ft).
Proof.
  intros Hm. unfold summarize_or_fallback.
  apply logs_try_catch; [|apply logs_ret].
  apply logs_bind; [exact Hm|]. intros r.
  destruct (summary_accepted r); apply logs_ret.
Qed.

(** What [summary] and [keyPoints] hold after the summarization [try]:
    the orchestrator's result when it is accepted, the fallback otherwise. *)
Lemma summarize_or_fallback_Ret m ft r l :
  m = Some (Ret r, l) ->
  summarize_or_fallback m ft =
  Some (Ret (if summary_accepted r then r
             else mk_result (fallback_summary ft) (fallback_keyPoints ft)), l).
Proof.
  intros ->. unfold summarize_or_fallback. run_cbn.
  destruct (summary_accepted r); run_cbn; rewrite app_nil_r; reflexivity.
Qed.

Lemma summarize_or_fallback_inv m ft r l :
  safe m ->
  summarize_or_fallback m ft = Some (Ret r, l) ->
  exists r0, m = Some (Ret r0, l) /\
    r = if summary_accepted r0 then r0
        else mk_result (fallback_summary ft) (fallback_keyPoints ft).
Proof.
  intros Hs H. destruct m as [[[r0|] l0]|].
  - rewrite (summarize_or_fallback_Ret _ ft r0 l0 eq_refl) in H.
    injection H as <- <-. eauto.
  - destruct (Hs l0 eq_refl).
  - discriminate.
Qed.

Lemma save_step_logs svc result roomId :
  logs quiet (try_catch (saveMeetingSummary svc result roomId ;; ret tt) (ret tt)).
Proof.
  apply logs_try_catch; [|apply logs_ret].
  apply logs_bind; [apply saveMeetingSummary_logs | intros _; apply logs_ret].
Qed.

Lemma save_step_returns svc result roomId :
  returns (try_catch (saveMeetingSummary svc result roomId ;; ret tt) (ret tt)).
Proof.
  apply returns_try_catch; [|apply returns_ret].
  apply returns_not_None, returns_bind;
    [apply saveMeetingSummary_returns | intros _; apply returns_ret].
Qed.

(** How a returning [stopMeeting] call came about. *)
Lemma stopMeeting_inv env fuel roomId s agg l :
  (stopMeeting env fuel roomId s).2 = Some (Ret agg, l) ->
  let ps := Object_values (participantData s) in
  exists a mn ts l1 l2 l3,
    auth_meeting env = Ret a /\
    resolve_memberNames env fuel a = Some (Ret mn, l1) /\
    transcribe_all (tx_of env) fuel mn 0 ps = Some (Ret ts, l2) /\
    l = l1 ++ l2 ++ l3 /\
    ((fullTranscript_of ts = [] /\
      agg = mk_summary placeholder_summary placeholder_keyPoints ps
              (participantNames_of mn ps) ts (session_start env s) (now_end env) /\
      Forall quiet l3)
     \/
     (fullTranscript_of ts <> [] /\
      exists r l4 l5,
        summarize_or_fallback
          (summarizeWithHuggingFace (hf env) fuel 0 (fullTranscript_of ts))
          (fullTranscript_of ts) = Some (Ret r, l4) /\
        agg = mk_summary (sr_summary r) (sr_keyPoints r) ps
                (participantNames_of mn ps) ts (session_start env s) (now_end env) /\
        l3 = l4 ++ l5 /\ Forall quiet l5)).
Proof.
  intros H. cbv zeta. unfold stopMeeting in H. cbn [snd] in H. cbv zeta in H.
  destruct (negb (valid_time (session_start env s) && valid_time (now_end env)));
    [discriminate|].
  apply bind_inv_Ret in H as (a & la & l0 & Ha & H & ->).
  apply bind_inv_Ret in H as (mn & l1 & l0' & Hmn & H & ->).
  apply bind_inv_Ret in H as (ts & l2 & l3 & Hts & H & ->).
  assert (la = []) as ->.
  { unfold lift in Ha. injection Ha as _ <-. reflexivity. }
  exists a, mn, ts, l1, l2, l3.
  assert (Ha' : auth_meeting env = Ret a).
  { unfold lift in Ha. injection Ha as ->. reflexivity. }
  repeat split; try assumption.
  destruct (length (fullTranscript_of ts) =? 0)%nat eqn:E.
  - left. apply length_zero_iff in E.
    apply bind_inv_Ret in H as (v & l4 & l5 & Hsave & H & ->).
    injection H as <- <-. repeat split; [exact E|].
    rewrite app_nil_r. exact (saveMeetingSummary_logs _ _ _ _ _ Hsave).
  - right. split.
    { intros E'. apply length_zero_iff in E'. congruence. }
    apply bind_inv_Ret in H as (r & l4 & l5 & Hsum & H & ->).
    apply bind_inv_Ret in H as (u & l6 & l7 & Hsave & H & ->).
    injection H as <- <-. exists r, l4, (l6 ++ []).
    repeat split; [exact Hsum|].
    rewrite app_nil_r. exact (save_step_logs _ _ _ _ _ Hsave).
Qed.

(** A call that returns has printed its start and end times. *)
Lemma stopMeeting_valid env fuel roomId s o l :
  (stopMeeting env fuel roomId s).2 = Some (o, l) ->
  (o = Throw /\ l = []) \/
  (valid_time (session_start env s) = true /\ valid_time (now_end env) = true).
Proof.
  unfold stopMeeting. cbn [snd].
  destruct (valid_time (session_start env s)), (valid_time (now_end env));
    cbn [negb andb]; try (intros [= <- <-]; left; split; reflexivity).
  intros _. right. split; reflexivity.
Qed.

(** A start or end time that [Date] cannot represent: the call raises at
    its first lines, before any collaborator is contacted. *)
Lemma stopMeeting_raises_on_invalid_time env fuel roomId s :
  valid_time (session_start env s) && valid_time (now_end env) = false ->
  (stopMeeting env fuel roomId s).2 = Some (Throw, []).
Proof. intros H. unfold stopMeeting. cbn [snd]. rewrite H. reflexivity. Qed.

Lemma stopMeeting_mono env roomId s :
  mono (fun fuel => (stopMeeting env fuel roomId s).2).
Proof.
  unfold stopMeeting. cbn [snd].
  destruct (negb (valid_time (session_start env s) && valid_time (now_end env)));
    [apply mono_const|].
  apply mono_bind; [apply mono_const|]. intros a.
  apply mono_bind; [apply resolve_memberNames_mono|]. intros mn.
  apply mono_bind; [apply transcribe_all_mono|]. intros ts.
  destruct (length (fullTranscript_of ts) =? 0)%nat; [apply mono_const|].
  apply mono_bind; [|intros r; apply mono_const].
  unfold summarize_or_fallback.
  apply mono_try_catch; [|apply mono_const].
  apply mono_bind; [apply summarize_mono | intros r; apply mono_const].
Qed.

Lemma participantNames_fold mn ps i : forall m : gmap jsstring NameValue,
  is_Some (fold_left (fun (m : gmap jsstring NameValue) p =>
                        if decide (p_id p = proto) then m
                        else <[p_id p := resolvedName mn p]> m) ps m !! i)
  <-> is_Some (m !! i) \/ (In i (List.map p_id ps) /\ i <> proto).
Proof.
  induction ps as [|p ps IH]; intros m; simpl; [tauto|].
  rewrite IH. destruct (decide (p_id p = proto)) as [Hp|Hp].
  - split; [tauto|]. intros [H|[[H|H] Hi]]; [tauto | congruence | tauto].
  - destruct (decide (p_id p = i)) as [<-|Hne].
    + rewrite lookup_insert_eq. split; [auto|]. intros _. left. eauto.
    + rewrite lookup_insert_ne by exact Hne. tauto.
Qed.

(** The keys of [participantNames]: the identifiers of the records, except
    [__proto__]. *)
Lemma participantNames_of_lookup mn ps i :
  is_Some (participantNames_of mn ps !! i) <->
  In i (List.map p_id ps) /\ i <> proto.
Proof.
  unfold participantNames_of. rewrite participantNames_fold, lookup_empty.
  split; [intros [[x Hx]|H]; [discriminate | exact H] | auto].
Qed.

Lemma entries_ids mn ps ts :
  Forall2 (fun p t => t_id t = p_id p /\ t_name t = Some (resolvedName mn p)) ps ts ->
  List.map t_id ts = List.map p_id ps /\
  Forall (fun t => is_Some (t_name t)) ts.
Proof.
  induction 1 as [|p t ps ts [Hid Hname] _ [IH1 IH2]]; [split; constructor|].
  simpl. rewrite Hid, IH1. split; [reflexivity|].
  constructor; [rewrite Hname; eauto | exact IH2].
Qed.

Lemma mk_summary_well_formed sm kp mn ps ts start finish :
  Forall (fun p => p_id p <> proto) ps ->
  Forall2 (fun p t => t_id t = p_id p /\ t_name t = Some (resolvedName mn p)) ps ts ->
  well_formed (mk_summary sm kp ps (participantNames_of mn ps) ts start finish).
Proof.
  intros Hp H. destruct (entries_ids _ _ _ H) as [Hids Hnames].
  unfold well_formed. cbn. repeat split.
  - symmetry. exact Hids.
  - intros Hi. apply participantNames_of_lookup in Hi. tauto.
  - intros Hi. apply participantNames_of_lookup. split; [exact Hi|].
    intros ->. rewrite Forall_forall in Hp.
    apply in_map_iff in Hi as (q & Hq & Hin).
    exact (Hp q (proj2 (list_elem_of_In _ _) Hin) Hq).
  - exact Hnames.
Qed.

(** The participants of a returned aggregate are the identifiers of its
    entries, which are those of the records, in the order of
    [Object.values]. *)
Lemma stopMeeting_ids env fuel roomId s agg l :
  (stopMeeting env fuel roomId s).2 = Some (Ret agg, l) ->
  participants agg = List.map p_id (Object_values (participantData s)) /\
  List.map t_id (transcriptions agg) = participants agg.
Proof.
  intros H. apply stopMeeting_inv in H.
  destruct H as (a & mn & ts & l1 & l2 & l3 & _ & _ & Hts & _ & H).
  apply transcribe_all_entries, entries_ids in Hts as [Hts _].
  destruct H as [(_ & -> & _)|(_ & r & l4 & l5 & _ & -> & _)];
    split; [reflexivity | exact Hts | reflexivity | exact Hts].
Qed.

(** An aggregate that [stopMeeting] returns is well formed, when no record
    is named [__proto__]. *)
Lemma stopMeeting_well_formed env fuel roomId s agg l :
  Forall (fun p => p_id p <> proto) (Object_values (participantData s)) ->
  (stopMeeting env fuel roomId s).2 = Some (Ret agg, l) -> well_formed agg.
Proof.
  intros Hp H. apply stopMeeting_inv in H.
  destruct H as (a & mn & ts & l1 & l2 & l3 & _ & _ & Hts & _ & H).
  apply transcribe_all_entries in Hts.
  destruct H as [(_ & -> & _)|(_ & r & l4 & l5 & _ & -> & _)];
    apply mk_summary_well_formed; assumption.
Qed.

(** The conditions under which no wait of [stopMeeting] is endless. *)
Lemma stopMeeting_settles env roomId s :
  valid_time (session_start env s) = true ->
  valid_time (now_end env) = true ->
  (exists a, auth_meeting env = Ret a) ->
  (exists n, page_continues (clerk env) n = false) ->
  (forall k, exists n, poll_ends (tx_of env k) n = true) ->
  (exists n, hf_retries (hf env) n = false) ->
  exists fuel, returns (stopMeeting env fuel roomId s).2.
Proof.
  intros Hv1 Hv2 [a Ha] Hclerk Htx [n Hhf].
  destruct (resolve_memberNames_settles env a Hclerk) as (f1 & mn & l1 & H1).
  destruct (transcribe_all_settles (tx_of env) mn
              (Object_values (participantData s)) Htx 0%nat)
    as (f2 & ts & l2 & H2).
  set (F := Nat.max f1 (Nat.max f2 (S n))).
  exists F. unfold stopMeeting. cbn [snd]. rewrite Hv1, Hv2. cbn [andb negb].
  rewrite Ha. run_cbn. rewrite after_nil.
  rewrite (bind_Ret _ _ _ _
             (resolve_memberNames_mono env a f1 F _ ltac:(lia) H1)).
  apply returns_after.
  rewrite (bind_Ret _ _ _ _
             (transcribe_all_mono (tx_of env) mn _ 0%nat f2 F _ ltac:(lia) H2)).
  apply returns_after.
  destruct (length (fullTranscript_of ts) =? 0)%nat.
  - apply returns_bind; [apply saveMeetingSummary_returns|].
    intros _. apply returns_ret.
  - assert (Hsum : returns (summarizeWithHuggingFace (hf env) F 0
                              (fullTranscript_of ts))).
    { apply (mono_returns
               (fun f => summarizeWithHuggingFace (hf env) f 0 (fullTranscript_of ts))
               (S n)); [apply summarize_mono | lia|].
      apply (summarize_settles _ _ n 0%nat); [exact Hhf | lia]. }
    destruct Hsum as (r & l4 & Hsum).
    rewrite (bind_Ret _ _ _ _ (summarize_or_fallback_Ret _ _ _ _ Hsum)).
    apply returns_after, returns_bind; [apply save_step_returns|].
    intros _. apply returns_ret.
Qed.

(** The auth lookup of [stopMeeting] is outside every [try]: when it
    throws, so does [stopMeeting]. *)
Lemma stopMeeting_raises_when_auth_fails env fuel roomId s :
  auth_meeting env = Throw ->
  (stopMeeting env fuel roomId s).2 = Some (Throw, []).
Proof.
  intros H. unfold stopMeeting. cbn [snd]. rewrite H.
  destruct (negb _); reflexivity.
Qed.

Lemma with_save_same env : with_save env (save env) = env.
Proof. destruct env. reflexivity. Qed.

(** The aggregate does not depend on what the persistence sink does. *)
Lemma stopMeeting_any_sink env sv fuel roomId s agg l :
  (stopMeeting env fuel roomId s).2 = Some (Ret agg, l) ->
  exists l', (stopMeeting (with_save env sv) fuel roomId s).2 = Some (Ret agg, l').
Proof.
  intros H.
  destruct (stopMeeting_valid _ _ _ _ _ _ H) as [[? _]|[Hv1 Hv2]]; [discriminate|].
  apply stopMeeting_inv in H.
  destruct H as (a & mn & ts & l1 & l2 & l3 & Ha & Hmn & Hts & _ & H).
  unfold stopMeeting. cbn [snd with_save auth_meeting tx_of hf save now_end].
  change (session_start (with_save env sv) s) with (session_start env s).
  rewrite Hv1, Hv2. cbn [andb negb].
  rewrite Ha. run_cbn. rewrite after_nil.
  change (resolve_memberNames (with_save env sv) fuel a)
    with (resolve_memberNames env fuel a).
  rewrite (bind_Ret _ _ _ _ Hmn), (bind_Ret _ _ _ _ Hts).
  change (session_start (with_save env sv) s) with (session_start env s).
  destruct H as [(E & -> & _)|(E & r & l4 & l5 & Hsum & -> & _)].
  - rewrite E. cbn [length Nat.eqb].
    destruct (saveMeetingSummary_returns sv
                (mk_summary placeholder_summary placeholder_keyPoints
                   (Object_values (participantData s))
                   (participantNames_of mn (Object_values (participantData s)))
                   ts (session_start env s) (now_end env)) roomId)
      as (v & l' & Hsave).
    rewrite (bind_Ret _ _ _ _ Hsave). cbn. eauto.
  - destruct (length (fullTranscript_of ts) =? 0)%nat eqn:E0;
      [apply length_zero_iff in E0; congruence|].
    rewrite (bind_Ret _ _ _ _ Hsum).
    destruct (save_step_returns sv
                (mk_summary (sr_summary r) (sr_keyPoints r)
                   (Object_values (participantData s))
                   (participantNames_of mn (Object_values (participantData s)))
                   ts (session_start env s) (now_end env)) roomId)
      as (v & l' & Hsave).
    rewrite (bind_Ret _ _ _ _ Hsave). cbn. eauto.
Qed.

(* ================================================================== *)
(** ** The chunk store *)
(* ================================================================== *)

Section ObjectLemmas.
Context {V : Type}.
Implicit Types (o : list (jsstring * V)) (k : jsstring) (v : V).

Lemma own_get_None k o : own_get k o = None <-> k ∉ o.*1.
Proof.
  induction o as [|[k' v'] o IH]; simpl.
  - split; [intros _; apply not_elem_of_nil | reflexivity].
  - rewrite not_elem_of_cons. destruct (decide (k' = k)) as [->|Hne].
    + split; [discriminate | intros [? _]; congruence].
    + rewrite IH. split; [intros H; split; [congruence | exact H] | tauto].
Qed.

Lemma own_get_is_Some k o : is_Some (own_get k o) <-> k ∈ o.*1.
Proof.
  destruct (own_get k o) eqn:E.
  - split; [intros _|eauto]. destruct (decide (k ∈ o.*1)) as [H|H]; [exact H|].
    apply own_get_None in H. congruence.
  - apply own_get_None in E. split; [intros [? ?]; discriminate | tauto].
Qed.

Lemma own_get_Some_in k v o : own_get k o = Some v -> (k, v) ∈ o.
Proof.
  induction o as [|[k' v'] o IH]; simpl; [discriminate|].
  destruct (decide (k' = k)) as [->|Hne].
  - intros [= ->]. apply elem_of_cons. left. reflexivity.
  - intros H. apply elem_of_cons. right. exact (IH H).
Qed.

Lemma own_get_set_eq k v o : own_get k (own_set k v o) = Some v.
Proof.
  induction o as [|[k' v'] o IH]; simpl.
  - rewrite decide_True by reflexivity. reflexivity.
  - destruct (decide (k' = k)) as [->|Hne]; simpl.
    + rewrite decide_True by reflexivity. reflexivity.
    + rewrite decide_False by exact Hne. exact IH.
Qed.

Lemma own_get_set_ne k k' v o : k <> k' -> own_get k' (own_set k v o) = own_get k' o.
Proof.
  intros Hne. induction o as [|[k0 v0] o IH]; simpl.
  - rewrite decide_False by exact Hne. reflexivity.
  - destruct (decide (k0 = k)) as [->|Hne0]; simpl.
    + rewrite !decide_False by exact Hne. reflexivity.
    + destruct (decide (k0 = k')); [reflexivity | exact IH].
Qed.

Lemma own_set_twice k v v' o : own_set k v (own_set k v' o) = own_set k v o.
Proof.
  induction o as [|[k0 v0] o IH]; simpl.
  - rewrite decide_True by reflexivity. reflexivity.
  - destruct (decide (k0 = k)) as [->|Hne]; simpl.
    + rewrite decide_True by reflexivity. reflexivity.
    + rewrite decide_False by exact Hne. rewrite IH. reflexivity.
Qed.

Lemma own_set_keys_in k v o : k ∈ o.*1 -> (own_set k v o).*1 = o.*1.
Proof.
  induction o as [|[k' v'] o IH]; cbn [own_set].
  - intros H. apply elem_of_nil in H. destruct H.
  - destruct (decide (k' = k)) as [->|Hne]; [reflexivity|].
    rewrite !fmap_cons. cbn [fst].
    intros H. apply elem_of_cons in H as [->|H]; [congruence|].
    rewrite (IH H). reflexivity.
Qed.

Lemma own_set_keys_notin k v o : k ∉ o.*1 -> (own_set k v o).*1 = o.*1 ++ [k].
Proof.
  induction o as [|[k' v'] o IH]; cbn [own_set]; [reflexivity|].
  rewrite !fmap_cons. cbn [fst].
  intros H. apply not_elem_of_cons in H as [Hne H].
  destruct (decide (k' = k)) as [->|_]; [congruence|].
  rewrite fmap_cons, (IH H). reflexivity.
Qed.

Lemma own_set_keys k' k v o : k' ∈ (own_set k v o).*1 <-> k' ∈ o.*1 \/ k' = k.
Proof.
  destruct (decide (k ∈ o.*1)) as [H|H].
  - rewrite own_set_keys_in by exact H. split; [auto|].
    intros [H'| ->]; assumption.
  - rewrite own_set_keys_notin by exact H.
    rewrite elem_of_app, list_elem_of_singleton. reflexivity.
Qed.

Lemma own_set_NoDup k v o : NoDup o.*1 -> NoDup (own_set k v o).*1.
Proof.
  intros Hnd. destruct (decide (k ∈ o.*1)) as [H|H].
  - rewrite own_set_keys_in by exact H. exact Hnd.
  - rewrite own_set_keys_notin by exact H. apply NoDup_app.
    split; [exact Hnd|]. split; [|apply NoDup_singleton].
    intros x Hx Hk. apply list_elem_of_singleton in Hk. subst. exact (H Hx).
Qed.

Lemma own_set_Forall (P : jsstring * V -> Prop) k v o :
  Forall P o -> P (k, v) -> Forall P (own_set k v o).
Proof.
  intros Ho Hkv. induction Ho as [|[k' v'] o Hx Ho IH]; simpl.
  - constructor; [exact Hkv | constructor].
  - destruct (decide (k' = k)); constructor; assumption.
Qed.

Lemma own_set_length k v o :
  length (own_set k v o) =
  match own_get k o with Some _ => length o | None => S (length o) end.
Proof.
  induction o as [|[k' v'] o IH]; simpl; [reflexivity|].
  destruct (decide (k' = k)); simpl; [reflexivity|].
  rewrite IH. destruct (own_get k o); reflexivity.
Qed.

(** *** The order of enumeration *)

Lemma insert_index_Permutation n (e : jsstring * V) l :
  insert_index n e l ≡ₚ (n, e) :: l.
Proof.
  induction l as [|[m e'] l IH]; simpl; [reflexivity|].
  destruct (n <? m)%N; [reflexivity|].
  rewrite IH. apply Permutation_swap.
Qed.

Lemma own_properties_Permutation o : own_properties o ≡ₚ o.
Proof.
  unfold own_properties. induction o as [|[k v] o IH]; [reflexivity|].
  cbn [index_properties List.filter fst].
  destruct (array_index k) as [n|] eqn:E.
  - rewrite bool_decide_eq_false_2 by discriminate.
    rewrite insert_index_Permutation. cbn. constructor. exact IH.
  - rewrite bool_decide_eq_true_2 by reflexivity.
    rewrite <- Permutation_middle. constructor. exact IH.
Qed.

Lemma Object_keys_Permutation o : Object_keys o ≡ₚ o.*1.
Proof. unfold Object_keys. rewrite own_properties_Permutation. reflexivity. Qed.

Lemma Object_values_Permutation o : Object_values o ≡ₚ o.*2.
Proof. unfold Object_values. rewrite own_properties_Permutation. reflexivity. Qed.

Lemma elem_of_Object_keys k o : k ∈ Object_keys o <-> k ∈ o.*1.
Proof. rewrite Object_keys_Permutation. reflexivity. Qed.

Lemma NoDup_Object_keys o : NoDup (Object_keys o) <-> NoDup o.*1.
Proof. rewrite Object_keys_Permutation. reflexivity. Qed.

Lemma elem_of_Object_values v o : v ∈ Object_values o <-> v ∈ o.*2.
Proof. rewrite Object_values_Permutation. reflexivity. Qed.

Lemma length_Object_values o : length (Object_values o) = length o.
Proof.
  rewrite (Permutation_length (Object_values_Permutation o)).
  apply length_fmap.
Qed.

Lemma Object_values_nil o : Object_values o = [] <-> o = [].
Proof.
  split; [|intros ->; reflexivity].
  intros H. apply (f_equal length) in H. rewrite length_Object_values in H.
  destruct o; [reflexivity | discriminate].
Qed.

Lemma own_properties_Forall (P : jsstring * V -> Prop) o :
  Forall P o -> Forall P (own_properties o).
Proof. rewrite own_properties_Permutation. tauto. Qed.

(** An object without array indices is listed in creation order. *)
Lemma own_properties_plain o :
  Forall (fun kv => array_index kv.1 = None) o -> own_properties o = o.
Proof.
  intros H. unfold own_properties.
  assert (E : index_properties o = [] /\
              List.filter (fun kv => bool_decide (array_index kv.1 = None)) o = o).
  { induction H as [|[k v] o Hk _ [IH1 IH2]]; [split; reflexivity|].
    cbn [index_properties List.filter fst] in *. rewrite Hk, IH1, IH2.
    rewrite bool_decide_eq_true_2 by reflexivity. split; reflexivity. }
  destruct E as [-> ->]. reflexivity.
Qed.

End ObjectLemmas.

Section ObjectRelated.
Context {V W : Type} (R : V -> W -> Prop).


Lemma related_index_properties (o : list (jsstring * V)) (o' : list (jsstring * W)) :
  related R o o' ->
  Forall2 (fun a b => a.1 = b.1 /\ a.2.1 = b.2.1 /\ R a.2.2 b.2.2)
          (index_properties o) (index_properties o').
Proof.
  induction 1 as [|[k v] [k' v'] o o' [Hk Hv] _ IH]; [constructor|].
  cbn in Hk, Hv. subst k'. cbn [index_properties].
  destruct (array_index k) as [n|]; [|exact IH].
  revert IH. generalize (index_properties o) (index_properties o').
  induction 1 as [|[m e] [m' e'] l l' (Hm & He) Hl IH]; cbn [insert_index].
  - constructor; [cbn; auto | constructor].
  - cbn in Hm. subst m'. destruct (n <? m)%N.
    + constructor; [cbn; auto|].
      constructor; [split; [reflexivity | exact He] | assumption].
    + constructor; [split; [reflexivity | exact He] | exact IH].
Qed.

Lemma related_own_properties (o : list (jsstring * V)) (o' : list (jsstring * W)) :
  related R o o' -> related R (own_properties o) (own_properties o').
Proof.
  intros H. unfold own_properties, related. apply Forall2_app.
  - pose proof (related_index_properties o o' H) as Hi.
    induction Hi as [|a b l l' (_ & Hk & Hv) _ IH]; [constructor|].
    cbn. constructor; [split; assumption | exact IH].
  - induction H as [|[k v] [k' v'] o o' [Hk Hv] _ IH]; [constructor|].
    cbn in Hk, Hv. subst k'. cbn [List.filter fst].
    destruct (bool_decide (array_index k = None));
      [constructor; [split; [reflexivity | exact Hv] | exact IH] | exact IH].
Qed.

Lemma related_Object_values (o : list (jsstring * V)) (o' : list (jsstring * W)) :
  related R o o' -> Forall2 R (Object_values o) (Object_values o').
Proof.
  intros H. apply related_own_properties in H. unfold Object_values.
  induction H as [|e e' l l' [_ Hv] _ IH]; [constructor|].
  cbn. constructor; assumption.
Qed.

Lemma related_Object_keys (o : list (jsstring * V)) (o' : list (jsstring * W)) :
  related R o o' -> Object_keys o = Object_keys o'.
Proof.
  intros H. apply related_own_properties in H. unfold Object_keys.
  induction H as [|e e' l l' [Hk _] _ IH]; [reflexivity|].
  cbn. rewrite Hk, IH. reflexivity.
Qed.

End ObjectRelated.

Lemma related_refl {V} (R : V -> V -> Prop) (o : list (jsstring * V)) :
  (forall x, R x x) -> related R o o.
Proof.
  intros Hrefl. apply Forall_Forall2_diag, Forall_forall.
  intros x _. split; [reflexivity | apply Hrefl].
Qed.

(** Writing a related value under an existing key. *)
Lemma related_own_set {V} (R : V -> V -> Prop) k v v' (o : list (jsstring * V)) :
  (forall x, R x x) -> own_get k o = Some v -> R v' v ->
  related R (own_set k v' o) o.
Proof.
  intros Hrefl. induction o as [|[k0 v0] o IH]; simpl; [discriminate|].
  destruct (decide (k0 = k)) as [->|Hne].
  - intros [= ->] HR. constructor; [split; [reflexivity | exact HR]|].
    apply related_refl, Hrefl.
  - intros Hg HR. constructor; [split; [reflexivity | apply Hrefl]|].
    apply IH; assumption.
Qed.

(** *** The store *)

Lemma store_ok_raw s :
  store_ok s <->
  NoDup (participantData s).*1 /\ Forall (fun kp => p_id kp.2 = kp.1) (participantData s).
Proof. unfold store_ok. rewrite NoDup_Object_keys. reflexivity. Qed.

Lemma store_ok_empty pr t :
  store_ok {| participantData := []; participantData_proto := pr;
              meetingStartTime := t |}.
Proof. apply store_ok_raw. split; constructor. Qed.

Lemma store_ok_Init t s : store_ok (Init t s).1.
Proof. apply store_ok_empty. Qed.

Lemma store_ok_set id rec s :
  p_id rec = id -> store_ok s -> store_ok (participantData_set id rec s).
Proof.
  intros Hid Hok. unfold participantData_set.
  destruct (_ && _); [exact Hok|].
  apply store_ok_raw in Hok as [Hnd Hf]. apply store_ok_raw. split; cbn.
  - apply own_set_NoDup, Hnd.
  - apply own_set_Forall; [exact Hf | exact Hid].
Qed.

Lemma store_ok_register p s :
  store_ok s -> store_ok (setNewParticipantServerAction p s).1.
Proof. apply store_ok_set. reflexivity. Qed.

Lemma store_ok_own_set id p q s pr t :
  store_ok s -> own_get id (participantData s) = Some p -> p_id q = p_id p ->
  store_ok {| participantData := own_set id q (participantData s);
              participantData_proto := pr; meetingStartTime := t |}.
Proof.
  intros Hok E Hq.
  apply store_ok_raw in Hok as [Hnd Hf]. apply store_ok_raw. split; cbn.
  - apply own_set_NoDup, Hnd.
  - apply own_set_Forall; [exact Hf|]. cbn. rewrite Hq.
    apply own_get_Some_in in E. rewrite Forall_forall in Hf. exact (Hf _ E).
Qed.

Lemma store_ok_same_data s s' :
  participantData s' = participantData s -> store_ok s -> store_ok s'.
Proof. unfold store_ok. intros ->. tauto. Qed.

Lemma get_Own id s p :
  participantData_get id s = Own p <-> own_get id (participantData s) = Some p.
Proof.
  unfold participantData_get. destruct (own_get id (participantData s)) as [q|].
  - split; congruence.
  - split; [|discriminate].
    destruct (participantData_proto s); [|discriminate].
    repeat (destruct (decide _); [discriminate|]). discriminate.
Qed.


Lemma get_Alien id s b :
  participantData_get id s = Alien b -> own_get id (participantData s) = None.
Proof.
  unfold participantData_get. destruct (own_get id (participantData s));
    [discriminate | reflexivity].
Qed.

(** Without an installed prototype, an identifier that names no member of
    [Object.prototype] finds its own record or nothing. *)
Lemma get_plain id s :
  participantData_proto s = None -> inherited id = false ->
  participantData_get id s =
  match own_get id (participantData s) with Some p => Own p | None => Alien false end.
Proof.
  intros Hp Hi. unfold participantData_get. rewrite Hp, Hi. reflexivity.
Qed.

Lemma set_plain id rec s :
  id <> proto ->
  participantData_set id rec s =
  {| participantData := own_set id rec (participantData s);
     participantData_proto := participantData_proto s;
     meetingStartTime := meetingStartTime s |}.
Proof.
  intros Hne. unfold participantData_set.
  rewrite (bool_decide_eq_false_2 _ Hne). reflexivity.
Qed.

(** [participantData.__proto__] is never falsy. *)
Lemma get_proto_truthy s : participantData_get proto s <> Alien false.
Proof.
  unfold participantData_get. destruct (own_get proto (participantData s));
    [discriminate|].
  destruct (participantData_proto s);
    [rewrite decide_True by reflexivity; discriminate|].
  discriminate.
Qed.

Lemma get_ext id s s' :
  participantData s' = participantData s ->
  participantData_proto s' = participantData_proto s ->
  participantData_get id s' = participantData_get id s.
Proof. intros H1 H2. unfold participantData_get. rewrite H1, H2. reflexivity. Qed.

(** [setParticipantBlobChunk] case by case. *)
Lemma ingest_cases id blob ts s :
  let clock :=
    if not_time (meetingStartTime s) then Some ts else meetingStartTime s in
  let stored p :=
    {| p_id := p_id p; p_name := p_name p; p_offset := ts;
       p_chunks := p_chunks p ++ [blob]; p_isFinished := p_isFinished p |} in
  let mk d pr :=
    {| participantData := d; participantData_proto := pr;
       meetingStartTime := clock |} in
  setParticipantBlobChunk id blob ts s =
  if not_time (meetingStartTime s) && negb (valid_time ts)
  then (mk (participantData s) (participantData_proto s), Throw)
  else
    match participantData_get id s with
    | Own p =>
        (mk (own_set id (stored p) (participantData s)) (participantData_proto s),
         Ret true)
    | Installed p => (mk (participantData s) (Some (stored p)), Ret true)
    | Alien true => (mk (participantData s) (participantData_proto s), Throw)
    | Alien false =>
        (mk (own_set id
               {| p_id := id; p_name := None; p_offset := ts;
                  p_chunks := [blob]; p_isFinished := false |}
               (participantData s))
            (participantData_proto s),
         Ret true)
    end.
Proof.
  cbv zeta. unfold setParticipantBlobChunk. cbv zeta.
  set (s1 := {| participantData := participantData s;
                participantData_proto := participantData_proto s;
                meetingStartTime := _ |}).
  destruct (_ && _); [reflexivity|].
  rewrite (get_ext id s s1 eq_refl eq_refl).
  destruct (participantData_get id s) as [p|p|[|]] eqn:E.
  - rewrite (get_ext id s s1 eq_refl eq_refl), E. reflexivity.
  - rewrite (get_ext id s s1 eq_refl eq_refl), E. reflexivity.
  - rewrite (get_ext id s s1 eq_refl eq_refl), E. reflexivity.
  - assert (Hne : id <> proto) by (intros ->; exact (get_proto_truthy _ E)).
    rewrite (set_plain _ _ _ Hne).
    match goal with
    | |- context [participantData_get id ?s2] =>
        assert (G2 : participantData_get id s2 =
                     Own {| p_id := id; p_name := None; p_offset := ts;
                            p_chunks := []; p_isFinished := false |})
          by (apply get_Own; cbn [participantData]; apply own_get_set_eq)
    end.
    rewrite G2. cbn [participantData participantData_proto meetingStartTime].
    rewrite own_set_twice. reflexivity.
Qed.

Lemma store_ok_ingest id blob ts s :
  store_ok s -> store_ok (setParticipantBlobChunk id blob ts s).1.
Proof.
  intros Hok. rewrite ingest_cases. cbv zeta.
  destruct (_ && _); [exact Hok|].
  destruct (participantData_get id s) as [p|p|[|]] eqn:E; cbn [fst];
    try exact Hok.
  - apply get_Own in E.
    apply (store_ok_own_set id p); [exact Hok | exact E | reflexivity].
  - apply store_ok_raw in Hok as [Hnd Hf]. apply store_ok_raw. split; cbn.
    + apply own_set_NoDup, Hnd.
    + apply own_set_Forall; [exact Hf | reflexivity].
Qed.

Lemma store_ok_run_ops ops : forall s, store_ok s -> store_ok (run_ops ops s).
Proof.
  induction ops as [|o ops IH]; intros s Hs; [exact Hs|].
  change (run_ops (o :: ops) s) with (run_ops ops (run_op s o)).
  apply IH. destruct o; [apply store_ok_register | apply store_ok_ingest]; exact Hs.
Qed.

Lemma store_ok_ids s :
  store_ok s ->
  List.map p_id (Object_values (participantData s)) = Object_keys (participantData s).
Proof.
  intros [_ Hid]. unfold Object_values, Object_keys.
  apply own_properties_Forall in Hid.
  induction Hid as [|[k p] o Hkp _ IH]; [reflexivity|].
  cbn in *. rewrite Hkp, IH. reflexivity.
Qed.

Lemma once_in_NoDup {A} (f : A -> jsstring) i (l : list A) :
  NoDup (List.map f l) -> i ∈ List.map f l ->
  length (filter (fun x => f x = i) l) = 1%nat.
Proof.
  induction l as [|x l IH]; simpl; intros Hnd Hin.
  - apply elem_of_nil in Hin. destruct Hin.
  - apply NoDup_cons in Hnd as [Hx Hnd].
    rewrite filter_cons. destruct (decide (f x = i)) as [E|E].
    + simpl. f_equal. destruct (filter _ l) as [|y ys] eqn:Ef; [reflexivity|].
      assert (Hy : y ∈ filter (fun x => f x = i) l) by (rewrite Ef; left).
      apply list_elem_of_filter in Hy as [Hy1 Hy2].
      destruct Hx. rewrite E, <- Hy1.
      apply list_elem_of_In, in_map, list_elem_of_In, Hy2.
    + apply IH; [exact Hnd|].
      apply elem_of_cons in Hin as [->|Hin]; [congruence | exact Hin].
Qed.

(** *** Capture calls with ordinary identifiers *)

(** What such a call does to the own properties: a registration writes a
    fresh record, a chunk is added to the record of its participant, which
    is created when missing; no prototype is installed. *)
Lemma run_op_plain s o :
  participantData_proto s = None -> plain_op o = true ->
  participantData_proto (run_op s o) = None /\
  exists rec,
    participantData (run_op s o) = own_set (op_id o) rec (participantData s) /\
    p_chunks rec =
      match o with
      | Register _ => []
      | Ingest _ blob _ =>
          match own_get (op_id o) (participantData s) with
          | Some p => p_chunks p ++ [blob]
          | None => [blob]
          end
      end.
Proof.
  intros Hp Ho. apply andb_true_iff in Ho as [Hi Hv].
  apply negb_true_iff in Hi.
  assert (Hne : op_id o <> proto).
  { intros E. rewrite E in Hi. discriminate. }
  destruct o as [p|id blob ts]; cbn [run_op op_id] in *.
  - unfold setNewParticipantServerAction, participantData_set. cbn [fst].
    rewrite (bool_decide_eq_false_2 _ Hne). cbn [andb participantData participantData_proto].
    split; [exact Hp|]. eexists. split; reflexivity.
  - rewrite ingest_cases. cbv zeta. rewrite Hv, andb_false_r.
    rewrite (get_plain id s Hp Hi).
    destruct (own_get id (participantData s)) as [p|];
      (split; [exact Hp|]); eexists; split; reflexivity.
Qed.

Lemma run_ops_plain ops : forall s,
  participantData_proto s = None -> forallb plain_op ops = true ->
  participantData_proto (run_ops ops s) = None.
Proof.
  induction ops as [|o ops IH]; intros s Hp Ho; [exact Hp|].
  change (run_ops (o :: ops) s) with (run_ops ops (run_op s o)).
  cbn [forallb] in Ho. apply andb_true_iff in Ho as [Ho Hops].
  apply IH; [|exact Hops]. exact (proj1 (run_op_plain s o Hp Ho)).
Qed.

(** The own keys after such calls: those there were and those named. *)
Lemma named_keys k ops : forall s,
  participantData_proto s = None -> forallb plain_op ops = true ->
  k ∈ (participantData (run_ops ops s)).*1 <->
  k ∈ (participantData s).*1 \/ k ∈ List.map op_id ops.
Proof.
  induction ops as [|o ops IH]; intros s Hp Ho.
  - cbn. rewrite elem_of_nil. tauto.
  - change (run_ops (o :: ops) s) with (run_ops ops (run_op s o)).
    cbn [forallb] in Ho. apply andb_true_iff in Ho as [Ho Hops].
    destruct (run_op_plain s o Hp Ho) as (Hp' & rec & Hd & _).
    rewrite (IH _ Hp' Hops), Hd, own_set_keys.
    cbn [List.map]. rewrite elem_of_cons. tauto.
Qed.

Lemma ingest_clock id blob ts s :
  meetingStartTime (setParticipantBlobChunk id blob ts s).1 =
  if not_time (meetingStartTime s) then Some ts else meetingStartTime s.
Proof.
  rewrite ingest_cases. cbv zeta. destruct (_ && _); [reflexivity|].
  destruct (participantData_get id s) as [p|p|[|]]; reflexivity.
Qed.

(** The session clock survives a chunk and a session end unless it is [0]. *)
Lemma clock_kept_by_ingest id blob ts s t :
  meetingStartTime s = Some t -> t <> 0 ->
  meetingStartTime (setParticipantBlobChunk id blob ts s).1 = Some t.
Proof.
  intros H Ht. rewrite ingest_clock, H.
  destruct t; [congruence | reflexivity | reflexivity].
Qed.

Lemma clock_kept_by_register p s :
  meetingStartTime (setNewParticipantServerAction p s).1 = meetingStartTime s.
Proof.
  unfold setNewParticipantServerAction, participantData_set. cbn [fst].
  destruct (_ && _); reflexivity.
Qed.

Lemma clock_kept_by_stopMeeting env fuel roomId s t :
  meetingStartTime s = Some t -> t <> 0 ->
  meetingStartTime (stopMeeting env fuel roomId s).1 = Some t.
Proof.
  intros H Ht. unfold stopMeeting, session_start. cbn. rewrite H.
  destruct t; [congruence | reflexivity | reflexivity].
Qed.

(** ** Finalizing one participant *)
(* ================================================================== *)

(** C1, as the specification words it, fails: for a participant that is
    registered and has sent no fragment, [stopRecorder] returns [null], not
    a Transcript Entry with empty text. *)
Lemma stopRecorder_without_fragments_is_null :
  participantData_get (lit "user_bob") Sample.bob_silent = Own Sample.bob /\
  p_chunks Sample.bob = [] /\
  (stopRecorder Sample.tx_erroring 5 (lit "user_bob") 2000 Sample.bob_silent).2
    = Some (Ret None, []) /\
  ~ (exists e l,
       (stopRecorder Sample.tx_erroring 5 (lit "user_bob") 2000 Sample.bob_silent).2
         = Some (Ret (Some e), l) /\ t_text e = []).
Proof.
  repeat split. intros (e & l & H & _). vm_compute in H. discriminate.
Qed.

(** The guard [!p || p.chunks.length === 0] is ahead of the [try]: when
    [participantData[id]] is a truthy value that is no record, such as the
    function an unregistered ["constructor"] inherits, reading
    [p.chunks.length] raises, and the store is left as it was. *)
Lemma stopRecorder_raises_on_inherited_value svc fuel id stopTime s :
  participantData_get id s = Alien true ->
  stopRecorder svc fuel id stopTime s = (s, Some (Throw, [])).
Proof. intros H. unfold stopRecorder. cbv zeta. rewrite H. reflexivity. Qed.

Lemma stopRecorder_raises_for_constructor :
  (stopRecorder Sample.tx_erroring 5 (lit "constructor") 2000 Sample.unstarted).2
  = Some (Throw, []).
Proof. reflexivity. Qed.

Lemma record_at_Some id s p :
  record_at id s = Some p ->
  participantData_get id s = Own p \/ participantData_get id s = Installed p.
Proof.
  unfold record_at. destruct (participantData_get id s); intros [= ->]; auto.
Qed.

(** C1, amended: whenever [participantData[id]] is a record or a falsy
    value such as [undefined], [stopRecorder] does not throw.  For a falsy
    value or a record with zero fragments it returns [null] without any
    call to the transcription service; when the fragments add up to an
    empty blob it returns an entry with empty text, again without a call;
    otherwise the entry carries the transcribed text, and a transcription
    that throws is turned into an entry with empty text. *)
Theorem stopRecorder_contract svc fuel id stopTime s :
  let run := (stopRecorder svc fuel id stopTime s).2 in
  let name p := Text (nullish (p_name p) id) in
  (participantData_get id s <> Alien true -> safe run) /\
  (participantData_get id s = Alien false -> run = Some (Ret None, [])) /\
  (forall p, record_at id s = Some p -> p_chunks p = [] ->
             run = Some (Ret None, [])) /\
  (forall p, record_at id s = Some p -> p_chunks p <> [] ->
             size (new_Blob (p_chunks p)) = 0%nat ->
             run = Some (Ret (Some (entry id (name p) [])), [])) /\
  (forall p l, record_at id s = Some p -> p_chunks p <> [] ->
               size (new_Blob (p_chunks p)) <> 0%nat ->
               transcribeWithAssemblyAI svc fuel (new_Blob (p_chunks p))
                 = Some (Throw, l) ->
               run = Some (Ret (Some (entry id (name p) [])), l)) /\
  (forall p text l, record_at id s = Some p -> p_chunks p <> [] ->
                    size (new_Blob (p_chunks p)) <> 0%nat ->
                    transcribeWithAssemblyAI svc fuel (new_Blob (p_chunks p))
                      = Some (Ret text, l) ->
                    run = Some (Ret (Some (entry id (name p) text)), l)).
Proof.
  cbv zeta. unfold stopRecorder, record_at. cbv zeta.
  destruct (participantData_get id s) as [p|p|[|]] eqn:Ep.
  3:{ cbn [snd]. repeat split;
      first [congruence | intros; discriminate]. }
  3:{ cbn [snd]. repeat split;
      first [intros _; apply safe_ret | reflexivity | intros; discriminate]. }
  all: destruct (p_chunks p) as [|c cs] eqn:Ec.
  all: cbn [snd length Nat.eqb]; rewrite <- ?Ec.
  1,3: repeat split;
      first [intros _; apply safe_ret | reflexivity | discriminate
            | intros; congruence].
  all: split; [intros _; apply safe_try_catch, safe_ret|].
  all: split; [discriminate|].
  all: split; [intros q [= <-] Hq; congruence|].
  all: split; [|split].
  all: try (intros q [= <-] _ Hsz; apply Nat.eqb_eq in Hsz; rewrite Hsz;
            reflexivity).
  all: try (intros q l [= <-] _ Hsz Ht; apply Nat.eqb_neq in Hsz;
            rewrite Hsz, Ht; cbn; rewrite app_nil_r; reflexivity).
  all: intros q text l [= <-] _ Hsz Ht; apply Nat.eqb_neq in Hsz;
    rewrite Hsz, Ht; cbn; rewrite app_nil_r; reflexivity.
Qed.

(** A run of the amended C1: Alice has sent one chunk and the temporary
    file cannot be written, so the transcription throws and the entry has
    empty text. *)
Lemma stopRecorder_contract_witness :
  (stopRecorder Sample.tx_unwritable 5 (lit "user_alice") 2000
     (run_ops Sample.two_speakers Sample.unstarted)).2
  = Some (Ret (Some (entry (lit "user_alice") (Text (lit "Alice")) [])),
          [EvTranscribe Sample.audio]).
Proof.
  pose proof (stopRecorder_contract Sample.tx_unwritable 5 (lit "user_alice") 2000
                (run_ops Sample.two_speakers Sample.unstarted)) as H.
  cbv zeta in H. destruct H as (_ & _ & _ & _ & H & _).
  apply (H {| p_id := lit "user_alice"; p_name := Some (lit "Alice");
              p_offset := 1500; p_chunks := [Sample.audio];
              p_isFinished := false |}).
  - reflexivity.
  - discriminate.
  - discriminate.
  - reflexivity.
Defined.

(** ** Ending a session *)
(* ================================================================== *)

Lemma summarize_endless svc t :
  (forall k, hf_retries svc k = true) ->
  forall fuel k, summarizeWithHuggingFace svc fuel k t = None.
Proof.
  intros Hall. induction fuel as [|fuel IH]; intros k; [reflexivity|].
  destruct (summarize_step svc k t) as [v Hv].
  rewrite Hv, Hall, IH. reflexivity.
Qed.

Lemma transcribe_all_length tx fuel mn ps k ts l :
  transcribe_all tx fuel mn k ps = Some (Ret ts, l) -> length ts = length ps.
Proof.
  intros H. apply transcribe_all_entries in H.
  symmetry. exact (Forall2_length _ _ _ H).
Qed.

(** C2, as the specification words it, fails: while the summarization
    endpoint keeps answering HTTP 503, [stopMeeting] keeps retrying and
    returns nothing, whatever the fuel. *)
Lemma stopMeeting_waits_forever_on_503 :
  ~ (exists fuel agg l,
       (stopMeeting
          (Sample.env_with (Sample.tx_completing Sample.shipped)
             Sample.hf_unavailable Sample.save_up)
          fuel Sample.room Sample.bob_silent).2 = Some (Ret agg, l)).
Proof.
  intros (fuel & agg & l & H). apply stopMeeting_inv in H.
  destruct H as (a & mn & ts & l1 & l2 & l3 & _ & _ & Hts & _ & H).
  destruct H as [(E & _)|(_ & r & l4 & l5 & Hsum & _)].
  - apply transcribe_all_length in Hts. apply fullTranscript_empty_iff in E.
    subst ts. discriminate.
  - apply summarize_or_fallback_inv in Hsum as (r0 & Hsum & _);
      [|apply summarize_safe].
    rewrite summarize_endless in Hsum; [discriminate|].
    intros k. reflexivity.
Qed.

(** The hypothesis of C2 on the store is kept by every action that
    assigns: a record is written under its own identifier, and an
    assignment to [__proto__] creates no own property. *)
Lemma assigned_run_op s o : assigned s -> assigned (run_op s o).
Proof.
  intros [Hok Hp]. split.
  - destruct o; [apply store_ok_register | apply store_ok_ingest]; exact Hok.
  - rewrite elem_of_Object_keys in *. intros Hin. apply Hp. clear Hok.
    destruct o as [p|id blob ts]; cbn [run_op] in Hin.
    + unfold setNewParticipantServerAction, participantData_set in Hin.
      cbn [fst] in Hin.
      destruct (bool_decide (p_id p = proto)) eqn:Eb; cbn [andb] in Hin.
      * apply bool_decide_eq_true in Eb.
        destruct (bool_decide (is_Some _)) eqn:Es; cbn [negb] in Hin;
          [|exact Hin].
        apply bool_decide_eq_true, own_get_is_Some in Es. rewrite <- Eb. exact Es.
      * apply bool_decide_eq_false in Eb. cbn [participantData] in Hin.
        apply own_set_keys in Hin as [Hin|Hin]; [exact Hin | congruence].
    + rewrite ingest_cases in Hin. cbv zeta in Hin.
      destruct (_ && _); [exact Hin|].
      destruct (participantData_get id s) as [q|q|[|]] eqn:E;
        cbn [fst participantData] in Hin; try exact Hin.
      * apply own_set_keys in Hin as [Hin|Hin]; [exact Hin|].
        rewrite <- Hin in E. apply get_Own in E. apply own_get_is_Some. eauto.
      * apply own_set_keys in Hin as [Hin|Hin]; [exact Hin|].
        rewrite <- Hin in E. destruct (get_proto_truthy _ E).
Qed.

Lemma assigned_run_ops ops : forall s, assigned s -> assigned (run_ops ops s).
Proof.
  induction ops as [|o ops IH]; intros s Hs; [exact Hs|].
  change (run_ops (o :: ops) s) with (run_ops ops (run_op s o)).
  apply IH, assigned_run_op, Hs.
Qed.

Lemma assigned_unstarted : assigned Sample.unstarted.
Proof.
  split; [apply store_ok_empty|]. intros H. apply elem_of_nil in H. exact H.
Qed.

Lemma assigned_no_proto_record s :
  assigned s ->
  Forall (fun p => p_id p <> proto) (Object_values (participantData s)).
Proof.
  intros [Hok Hp]. apply Forall_forall. intros p Hin Hid. apply Hp.
  rewrite <- (store_ok_ids _ Hok), <- Hid.
  apply list_elem_of_In, in_map, list_elem_of_In, Hin.
Qed.

(** C2, amended: for every Chunk Store state that assignments can have
    built, with a start and an end time that [Date] can represent, and for
    every behaviour of the collaborators in which the auth lookup of
    [stopMeeting] returns, the member pagination meets a page that is not
    full, every transcription job reaches a poll that ends its loop, and the
    summarization endpoint at some request stops answering "model not
    ready", [stopMeeting] returns a well-formed aggregate once it is given
    enough fuel; the aggregate is the same for every larger fuel and for
    every behaviour of the persistence sink, whose failure is not raised. *)
Theorem stopMeeting_returns_well_formed env roomId s :
  assigned s ->
  valid_time (session_start env s) = true ->
  valid_time (now_end env) = true ->
  (exists a, auth_meeting env = Ret a) ->
  (exists n, page_continues (clerk env) n = false) ->
  (forall k, exists n, poll_ends (tx_of env k) n = true) ->
  (exists n, hf_retries (hf env) n = false) ->
  exists fuel0 agg,
    well_formed agg /\
    forall fuel, (fuel0 <= fuel)%nat ->
      (exists l, (stopMeeting env fuel roomId s).2 = Some (Ret agg, l)) /\
      (forall sv, exists l,
          (stopMeeting (with_save env sv) fuel roomId s).2 = Some (Ret agg, l)).
Proof.
  intros Hs Hv1 Hv2 Ha Hc Ht Hh.
  destruct (stopMeeting_settles env roomId s Hv1 Hv2 Ha Hc Ht Hh)
    as (fuel0 & agg & l & H).
  exists fuel0, agg.
  split; [exact (stopMeeting_well_formed _ _ _ _ _ _
                   (assigned_no_proto_record _ Hs) H)|].
  intros fuel Hle.
  pose proof (stopMeeting_mono env roomId s fuel0 fuel _ Hle H) as H'.
  split; [eauto|]. intros sv. exact (stopMeeting_any_sink _ sv _ _ _ _ _ H').
Qed.

(** A run of the amended C2: two speakers, a model that is loading at the
    first request, and a persistence sink that rejects the insert. *)
Lemma stopMeeting_returns_well_formed_witness :
  exists fuel0 agg,
    well_formed agg /\
    forall fuel, (fuel0 <= fuel)%nat ->
      (exists l,
          (stopMeeting
             (Sample.env_with (Sample.tx_completing Sample.shipped)
                (Sample.hf_warming Sample.shipped) Sample.save_down)
             fuel Sample.room
             (run_ops Sample.two_speakers Sample.unstarted)).2
          = Some (Ret agg, l)) /\
      (forall sv, exists l,
          (stopMeeting
             (with_save
                (Sample.env_with (Sample.tx_completing Sample.shipped)
                   (Sample.hf_warming Sample.shipped) Sample.save_down) sv)
             fuel Sample.room
             (run_ops Sample.two_speakers Sample.unstarted)).2
          = Some (Ret agg, l)).
Proof.
  apply (stopMeeting_returns_well_formed
           (Sample.env_with (Sample.tx_completing Sample.shipped)
              (Sample.hf_warming Sample.shipped) Sample.save_down)
           Sample.room (run_ops Sample.two_speakers Sample.unstarted)).
  - apply assigned_run_ops, assigned_unstarted.
  - reflexivity.
  - reflexivity.
  - exists Sample.anonymous. reflexivity.
  - exists 0%nat. reflexivity.
  - intros k. exists 1%nat. reflexivity.
  - exists 1%nat. reflexivity.
Defined.

Ltac exists_run t :=
  let r := eval vm_compute in t in
  match r with
  | Some (Ret ?a, ?l) => exists a, l
  end.

Lemma quiet_not_summarize l t : Forall quiet l -> ~ In (EvSummarize t) l.
Proof.
  intros H Hin. rewrite Forall_forall in H.
  apply list_elem_of_In in Hin. specialize (H _ Hin). discriminate.
Qed.

(** The two ways a returning [stopMeeting] call can go: the placeholder
    branch, with no summarization at all, or one invocation of the
    orchestrator on the combined transcript. *)
Lemma stopMeeting_outline env fuel roomId s agg l :
  (stopMeeting env fuel roomId s).2 = Some (Ret agg, l) ->
  let ft := fullTranscript_of (transcriptions agg) in
  length (transcriptions agg) = length (participantData s) /\
  ((ft = [] /\ summary agg = placeholder_summary /\
    keyPoints agg = placeholder_keyPoints /\ Forall quiet l)
   \/
   (ft <> [] /\
    exists r lr,
      summarizeWithHuggingFace (hf env) fuel 0 ft = Some (Ret r, lr) /\
      mk_result (summary agg) (keyPoints agg) =
        (if summary_accepted r then r
         else mk_result (fallback_summary ft) (fallback_keyPoints ft)) /\
      In (EvSummarize ft) l /\
      (forall t, In (EvSummarize t) l -> t = ft))).
Proof.
  intros H. apply stopMeeting_inv in H.
  destruct H as (a & mn & ts & l1 & l2 & l3 & _ & Hmn & Hts & -> & H).
  pose proof (resolve_memberNames_logs _ _ _ _ _ Hmn) as Q1.
  pose proof (transcribe_all_logs _ _ _ _ _ _ _ Hts) as Q2.
  assert (Hlen : length ts = length (participantData s)).
  { rewrite (transcribe_all_length _ _ _ _ _ _ _ Hts).
    apply length_Object_values. }
  destruct H as [(E & -> & Q3)|(E & r & l4 & l5 & Hsum & -> & -> & Q5)]; cbn.
  - split; [exact Hlen|]. left. repeat split; [exact E|].
    apply Forall_app; split; [exact Q1|]. apply Forall_app; split; assumption.
  - split; [exact Hlen|]. right. split; [exact E|].
    apply summarize_or_fallback_inv in Hsum as (r0 & Hsum & ->);
      [|apply summarize_safe].
    exists r0, l4. split; [exact Hsum|].
    split; [destruct (if summary_accepted r0 then _ else _); reflexivity|].
    pose proof (summarize_logs _ _ _ _ _ _ Hsum) as Q4.
    destruct (summarize_announces _ _ _ _ _ _ Hsum) as [l' ->].
    split.
    + apply in_or_app. right. apply in_or_app. right. left. reflexivity.
    + intros t Hin.
      apply in_app_or in Hin as [Hin|Hin];
        [destruct (quiet_not_summarize _ _ Q1 Hin)|].
      apply in_app_or in Hin as [Hin|Hin];
        [destruct (quiet_not_summarize _ _ Q2 Hin)|].
      apply in_app_or in Hin as [Hin|Hin];
        [|destruct (quiet_not_summarize _ _ Q5 Hin)].
      rewrite Forall_forall in Q4. apply list_elem_of_In in Hin.
      destruct (Q4 _ Hin) as [[= ->]|[?|?]]; [reflexivity|discriminate..].
Qed.

(** C3 on the code: Bob registered and sent no audio, so his entry has
    empty text and, as the claim words step (e), contributes nothing: the
    combined transcript is empty and the session is one without speech.
    The code builds the line of every entry, so the combined transcript is
    ["Bob:"], the branch for a session without speech is not taken, and
    the orchestrator is asked to summarize ["Bob:"]. *)
Theorem fullTranscript_keeps_empty_entries :
  exists agg l,
    (stopMeeting
       (Sample.env_with Sample.tx_erroring Sample.hf_failing Sample.save_up)
       1 Sample.room Sample.bob_silent).2 = Some (Ret agg, l) /\
    List.Forall (fun t => t_text t = []) (transcriptions agg) /\
    spec_fullTranscript (transcriptions agg) = [] /\
    fullTranscript_of (transcriptions agg) = lit "Bob:" /\
    summary agg <> placeholder_summary /\
    In (EvSummarize (lit "Bob:")) l.
Proof.
  eexists. eexists. split; [vm_compute; reflexivity|].
  split; [repeat constructor|].
  split; [reflexivity|]. split; [reflexivity|].
  split; [discriminate|]. vm_compute. auto.
Qed.

(* ================================================================== *)
(** ** The session clock *)
(* ================================================================== *)

(** C4 on the code: after [Init(0)] the clock is established, at [0], and
    the next chunk overwrites it with its own timestamp, as does a session
    end, because both test [!meetingStartTime].  The claim names the start
    value [0]; the code loses it. *)
Theorem clock_overwritten_after_Init_zero :
  let s1 := (Init 0 Sample.unstarted).1 in
  meetingStartTime s1 = Some 0 /\
  meetingStartTime
    (setParticipantBlobChunk (lit "user_alice") Sample.audio 1500 s1).1
    = Some 1500 /\
  meetingStartTime
    (stopMeeting
       (Sample.env_with Sample.tx_erroring Sample.hf_failing Sample.save_up)
       1 Sample.room (run_ops [Register Sample.bob] s1)).1
    = Some 1200.
Proof. repeat split. Qed.

(* ================================================================== *)
(** ** A transcription service that reports errors *)
(* ================================================================== *)

Lemma reports_error_erroring : reports_error Sample.tx_erroring.
Proof.
  right. exists 1%nat, {| res_status := Some error; res_text := None |}.
  repeat split. intros [|m] Hm; [reflexivity | lia].
Qed.

(** C5, as the specification words it, fails: the job ends in error, but
    the temporary file cannot be written, and [transcribeWithAssemblyAI]
    raises instead of returning the empty string. *)
Lemma transcribe_raises_when_tmpfile_fails :
  reports_error Sample.tx_unwritable /\
  (forall fuel,
      transcribeWithAssemblyAI Sample.tx_unwritable fuel Sample.audio
      = Some (Throw, [EvTranscribe Sample.audio])) /\
  ~ (exists fuel l,
       transcribeWithAssemblyAI Sample.tx_unwritable fuel Sample.audio
       = Some (Ret [], l)).
Proof.
  split; [exact reports_error_erroring|].
  split; [intros fuel; reflexivity|].
  intros (fuel & l & H). discriminate.
Qed.

(** C5, amended: if the first terminal status the transcription service
    reports for every submitted job is an error, then
    [transcribeWithAssemblyAI], once its temporary file has been written,
    returns the empty string without raising, and every Transcript Entry
    that [stopMeeting] produces has text [""]. *)
Theorem transcription_errors_give_empty_text env :
  (forall k, reports_error (tx_of env k)) ->
  (forall k blob u, tx_tmpfile (tx_of env k) = Ret u ->
     exists fuel0, forall fuel, (fuel0 <= fuel)%nat ->
       exists l, transcribeWithAssemblyAI (tx_of env k) fuel blob = Some (Ret [], l)) /\
  (forall fuel roomId s agg l,
     (stopMeeting env fuel roomId s).2 = Some (Ret agg, l) ->
     Forall (fun t => t_text t = []) (transcriptions agg)).
Proof.
  intros Herr. split.
  - intros k blob u Hu.
    destruct (transcribe_error_settles _ blob (Herr k)) as [fuel0 H0].
    exists fuel0. intros fuel Hle.
    destruct (transcribeWithAssemblyAI (tx_of env k) fuel0 blob)
      as [[o l]|] eqn:E; [|congruence].
    destruct (transcribe_error_result _ _ _ _ _ (Herr k) E) as [->|[_ Hth]];
      [|congruence].
    exists l. exact (transcribe_mono _ _ _ _ _ Hle E).
  - intros fuel roomId s agg l H. apply stopMeeting_inv in H.
    destruct H as (a & mn & ts & l1 & l2 & l3 & _ & _ & Hts & _ & H).
    apply (transcribe_all_error_texts _ _ _ _ Herr) in Hts.
    destruct H as [(_ & -> & _)|(_ & r & l4 & l5 & _ & -> & _)]; exact Hts.
Qed.

(** A run of the amended C5: both speakers sent audio, both jobs end in
    error, and both entries have empty text. *)
Lemma transcription_errors_give_empty_text_witness :
  (exists fuel0, forall fuel, (fuel0 <= fuel)%nat ->
     exists l, transcribeWithAssemblyAI Sample.tx_erroring fuel Sample.audio
               = Some (Ret [], l)) /\
  exists agg l,
    (stopMeeting
       (Sample.env_with Sample.tx_erroring Sample.hf_failing Sample.save_up)
       3 Sample.room (run_ops Sample.two_speakers Sample.unstarted)).2
    = Some (Ret agg, l) /\
    length (transcriptions agg) = 2%nat /\
    Forall (fun t => t_text t = []) (transcriptions agg).
Proof.
  destruct (transcription_errors_give_empty_text
              (Sample.env_with Sample.tx_erroring Sample.hf_failing Sample.save_up)
              (fun _ => reports_error_erroring)) as (H1 & H3).
  split; [exact (H1 0%nat Sample.audio tt eq_refl)|].
  exists_run (stopMeeting
                (Sample.env_with Sample.tx_erroring Sample.hf_failing Sample.save_up)
                3 Sample.room (run_ops Sample.two_speakers Sample.unstarted)).2.
  match goal with
  | |- ?run = ?v /\ _ => assert (H : run = v) by (vm_compute; reflexivity)
  end.
  split; [exact H|]. split; [reflexivity|]. exact (H3 _ _ _ _ _ H).
Defined.

(* ================================================================== *)
(** ** Summary and key points of the aggregate *)
(* ================================================================== *)

(** C6, as the specification words it, fails: the endpoint answers
    HTTP 500, the orchestrator's result is flagged as an error, and the
    summary of the aggregate is not the transcript cut to 500 characters
    but that text behind the prefix ["Meeting discussion: "]. *)
Lemma fallback_summary_is_prefixed :
  exists agg l r lr,
    (stopMeeting
       (Sample.env_with Sample.tx_erroring Sample.hf_failing Sample.save_up)
       1 Sample.room Sample.bob_silent).2 = Some (Ret agg, l) /\
    summarizeWithHuggingFace Sample.hf_failing 1 0
      (fullTranscript_of (transcriptions agg)) = Some (Ret r, lr) /\
    isError (sr_summary r) = true /\
    summary agg = lit "Meeting discussion: Bob:" /\
    spec_fallback_summary (fullTranscript_of (transcriptions agg)) = lit "Bob:" /\
    summary agg <> spec_fallback_summary (fullTranscript_of (transcriptions agg)).
Proof.
  do 4 eexists. split; [vm_compute; reflexivity|].
  split; [vm_compute; reflexivity|].
  split; [vm_compute; reflexivity|].
  split; [reflexivity|]. split; [reflexivity|]. discriminate.
Qed.

(** C6, amended: when [stopMeeting] invokes the orchestrator on the
    combined transcript, and its result has an empty summary, a summary
    that contains ["error"] or ["Error"], or no key point, the aggregate's
    summary is ["Meeting discussion: "] followed by the first 500
    characters of the combined transcript and by ["..."] when the
    transcript is longer, and its key points are the first 5 fragments
    longer than 10 characters among the trimmed pieces between [.], [?]
    and [!]; in every other case the orchestrator's summary and key points
    are used unchanged. *)
Theorem stopMeeting_summary_choice env fuel roomId s agg l :
  (stopMeeting env fuel roomId s).2 = Some (Ret agg, l) ->
  let ft := fullTranscript_of (transcriptions agg) in
  ft <> [] ->
  exists r lr,
    summarizeWithHuggingFace (hf env) fuel 0 ft = Some (Ret r, lr) /\
    ((sr_summary r <> [] /\ isError (sr_summary r) = false /\
      sr_keyPoints r <> [] /\
      summary agg = sr_summary r /\ keyPoints agg = sr_keyPoints r)
     \/
     ((sr_summary r = [] \/ isError (sr_summary r) = true \/ sr_keyPoints r = []) /\
      summary agg =
        lit "Meeting discussion: " ++ take 500 ft
        ++ (if (500 <? length ft)%nat then lit "..." else []) /\
      keyPoints agg =
        take 5 (List.filter (fun t => (10 <? length t)%nat)
                  (List.map trim (split_on sentence_end ft))))).
Proof.
  intros H ft Hne. apply stopMeeting_outline in H. cbv zeta in H. fold ft in H.
  destruct H as [_ [(E & _)|(_ & r & lr & Hsum & Hres & _)]]; [congruence|].
  exists r, lr. split; [exact Hsum|].
  unfold summary_accepted in Hres.
  destruct (sr_summary r) as [|c cs] eqn:Es.
  { right. injection Hres as -> ->. auto. }
  destruct (isError (c :: cs)) eqn:Ee.
  { right. injection Hres as -> ->. auto. }
  destruct (sr_keyPoints r) as [|kp kps] eqn:Ek.
  { right. injection Hres as -> ->. auto. }
  left. cbn in Hres. rewrite <- Hres in Es, Ek. cbn in Es, Ek.
  repeat split; [discriminate | discriminate | exact Es | exact Ek].
Qed.

(** A run of the amended C6, on the fallback side. *)
Lemma stopMeeting_summary_choice_witness :
  exists agg l,
    (stopMeeting
       (Sample.env_with Sample.tx_erroring Sample.hf_failing Sample.save_up)
       1 Sample.room Sample.bob_silent).2 = Some (Ret agg, l) /\
    fullTranscript_of (transcriptions agg) <> [] /\
    summary agg = lit "Meeting discussion: Bob:" /\
    keyPoints agg = [].
Proof.
  exists_run (stopMeeting
                (Sample.env_with Sample.tx_erroring Sample.hf_failing Sample.save_up)
                1 Sample.room Sample.bob_silent).2.
  match goal with
  | |- ?run = ?v /\ _ => assert (H : run = v) by (vm_compute; reflexivity)
  end.
  split; [exact H|].
  assert (Hne : fullTranscript_of
                  [{| t_id := lit "user_bob"; t_name := Some (Text (lit "Bob"));
                      t_text := [] |}] <> []) by discriminate.
  split; [exact Hne|].
  destruct (stopMeeting_summary_choice _ _ _ _ _ _ H Hne)
    as (r & lr & Hsum & [(_ & He & _)|(_ & Hs & Hk)]).
  - vm_compute in Hsum. injection Hsum as <- _. vm_compute in He. discriminate.
  - split; [exact Hs | exact Hk].
Defined.

(* ================================================================== *)
(** ** Retry and key points of the summarization orchestrator *)
(* ================================================================== *)

(** C7: when the endpoint answers the first request with HTTP 503 and the
    second with a 200 JSON body that carries summary text, the orchestrator
    waits the fixed 15 s once, posts again, and returns the summary of the
    second answer with its key points; no error result reaches the
    caller. *)
Theorem summarize_retries_after_503 svc transcript fuel first second body0 body data text :
  hf_fetch svc 0 = Ret first -> status first = 503 ->
  resp_text first = Ret body0 ->
  hf_fetch svc 1 = Ret second -> status second = 200 ->
  is_json_type (content_type second) = true ->
  resp_text second = Ret body -> JSON_parse svc body = Some data ->
  carries_summary data text ->
  (2 <= fuel)%nat ->
  summarizeWithHuggingFace svc fuel 0 transcript =
  Some (Ret {| sr_summary := text; sr_keyPoints := derive_keyPoints text |},
        [EvSummarize transcript; EvHfRequest (slice0 4000 transcript);
         EvSleep 15000;
         EvSummarize transcript; EvHfRequest (slice0 4000 transcript)]).
Proof.
  intros Hf1 Hs1 Hb1 Hf2 Hs2 Hj2 Hb2 Hp Hc Hfuel.
  destruct fuel as [|[|fuel]]; try lia.
  destruct (summarize_step svc 0 transcript) as [v Hv]. rewrite Hv.
  rewrite (hf_retries_503 _ _ _ _ Hf1 Hs1 Hb1).
  cbn [summarizeWithHuggingFace].
  rewrite (summarize_call_success svc 1 transcript _ second body data text
             Hf2 ltac:(unfold resp_ok; rewrite Hs2; reflexivity) Hj2 Hb2 Hp Hc).
  reflexivity.
Qed.

(** A run of C7 against the sample endpoint that is loading once. *)
Lemma summarize_retries_after_503_witness :
  summarizeWithHuggingFace (Sample.hf_warming Sample.shipped) 2 0 (lit "Alice: hi") =
  Some (Ret {| sr_summary := Sample.shipped;
               sr_keyPoints := derive_keyPoints Sample.shipped |},
        [EvSummarize (lit "Alice: hi"); EvHfRequest (slice0 4000 (lit "Alice: hi"));
         EvSleep 15000;
         EvSummarize (lit "Alice: hi"); EvHfRequest (slice0 4000 (lit "Alice: hi"))]).
Proof.
  eapply (summarize_retries_after_503 (Sample.hf_warming Sample.shipped)
            (lit "Alice: hi") 2).
  - reflexivity.
  - reflexivity.
  - reflexivity.
  - reflexivity.
  - reflexivity.
  - reflexivity.
  - reflexivity.
  - reflexivity.
  - repeat split. discriminate.
  - lia.
Defined.

(** C8: a response that carries summary text yields that text with the key
    points the specification describes (split on [.], [?], [!], trim, drop
    the fragments shorter than 5 characters, keep the first 5); the summary
    ["Hello world. We shipped the feature."] gives ["Hello world"] and
    ["We shipped the feature"]; and every request carries the first 4000
    characters of the transcript, which is the whole transcript when it is
    no longer than that. *)
Theorem keyPoints_and_truncation svc :
  (forall text, derive_keyPoints text = spec_keyPoints text) /\
  (forall fuel k transcript resp body data text,
     hf_fetch svc k = Ret resp -> resp_ok resp = true ->
     is_json_type (content_type resp) = true ->
     resp_text resp = Ret body -> JSON_parse svc body = Some data ->
     carries_summary data text ->
     summarizeWithHuggingFace svc (S fuel) k transcript =
     Some (Ret {| sr_summary := text; sr_keyPoints := spec_keyPoints text |},
           [EvSummarize transcript; EvHfRequest (slice0 4000 transcript)])) /\
  spec_keyPoints (lit "Hello world. We shipped the feature.")
    = [lit "Hello world"; lit "We shipped the feature"] /\
  (forall fuel k transcript r l inputs,
     summarizeWithHuggingFace svc fuel k transcript = Some (r, l) ->
     In (EvHfRequest inputs) l ->
     inputs = slice0 4000 transcript /\
     (length inputs <= 4000)%nat /\
     ((length transcript <= 4000)%nat -> inputs = transcript)).
Proof.
  split; [exact derive_keyPoints_spec|]. split; [|split].
  - intros fuel k transcript resp body data text Hf Hok Hj Hb Hp Hc.
    rewrite <- derive_keyPoints_spec. cbn [summarizeWithHuggingFace].
    exact (summarize_call_success _ _ _ _ _ _ _ _ Hf Hok Hj Hb Hp Hc).
  - vm_compute. reflexivity.
  - intros fuel k transcript r l inputs H Hin.
    pose proof (summarize_logs _ _ _ _ _ _ H) as Hl.
    rewrite Forall_forall in Hl. apply list_elem_of_In in Hin.
    assert (E : inputs = slice0 4000 transcript).
    { destruct (Hl _ Hin) as [E|[E|E]]; congruence. }
    split; [exact E|]. rewrite E.
    split; [apply slice0_length | apply slice0_short].
Qed.

(** A run of C8: the sample endpoint answers the combined transcript of the
    specification's example with the summary of that example. *)
Lemma keyPoints_and_truncation_witness :
  summarizeWithHuggingFace (Sample.hf_warming Sample.shipped) 1 1
    (lit "Alice: Hello world. We shipped the feature.") =
  Some (Ret {| sr_summary := lit "Hello world. We shipped the feature.";
               sr_keyPoints := [lit "Hello world"; lit "We shipped the feature"] |},
        [EvSummarize (lit "Alice: Hello world. We shipped the feature.");
         EvHfRequest (lit "Alice: Hello world. We shipped the feature.")]).
Proof.
  destruct (keyPoints_and_truncation (Sample.hf_warming Sample.shipped))
    as (_ & Hrun & Hex & Hcut).
  pose proof (Hrun 0%nat 1%nat (lit "Alice: Hello world. We shipped the feature.")
                _ _ _ Sample.shipped eq_refl eq_refl eq_refl eq_refl eq_refl
                ltac:(repeat split; discriminate)) as H.
  destruct (Hcut _ _ _ _ _ (slice0 4000 (lit "Alice: Hello world. We shipped the feature."))
              H ltac:(right; left; reflexivity)) as (_ & _ & Hshort).
  rewrite (Hshort ltac:(vm_compute; lia)) in H.
  unfold Sample.shipped in H. rewrite Hex in H. exact H.
Defined.

(* ================================================================== *)
(** ** Participants of the aggregate *)
(* ================================================================== *)

Lemma received_chunk_has_key i ops s :
  participantData_proto s = None -> forallb plain_op ops = true ->
  received_chunk i ops -> i ∈ Object_keys (participantData (run_ops ops s)).
Proof.
  intros Hp Ho (blob & ts & Hin).
  apply elem_of_Object_keys, named_keys; [exact Hp | exact Ho|]. right.
  apply list_elem_of_In, in_map_iff. exists (Ingest i blob ts). auto.
Qed.

(** What C9 claims holds for identifiers that name no member of
    [Object.prototype], sent with valid timestamps to a store whose
    prototype has not been replaced: every such identifier that received a
    chunk appears exactly once in the [transcriptions] of the aggregate
    [stopMeeting] returns, and [participants], the keys of
    [participantNames] and the identifiers of [transcriptions] name the same
    identifiers. *)
Lemma ordinary_speakers_listed_once ops s0 env fuel roomId agg l :
  assigned s0 -> participantData_proto s0 = None ->
  forallb plain_op ops = true ->
  (stopMeeting env fuel roomId (run_ops ops s0)).2 = Some (Ret agg, l) ->
  (forall i, received_chunk i ops ->
     length (filter (fun t => t_id t = i) (transcriptions agg)) = 1%nat) /\
  participants agg = List.map t_id (transcriptions agg) /\
  (forall i, In i (participants agg) <-> is_Some (participantNames agg !! i)) /\
  (forall i, In i (participants agg) <-> In i (List.map t_id (transcriptions agg))).
Proof.
  intros Hs0 Hp Ho H.
  pose proof (assigned_run_ops ops _ Hs0) as Hs.
  pose proof (stopMeeting_well_formed _ _ _ _ _ _
                (assigned_no_proto_record _ Hs) H) as (Hpa & Hn & _ & _).
  destruct Hs as [Hok _].
  assert (Hids : List.map t_id (transcriptions agg)
                 = Object_keys (participantData (run_ops ops s0))).
  { rewrite <- (store_ok_ids _ Hok).
    destruct (stopMeeting_ids _ _ _ _ _ _ H) as [E1 E2]. congruence. }
  split; [|split; [exact Hpa|split]].
  - intros i Hi. apply once_in_NoDup.
    + rewrite Hids. apply Hok.
    + rewrite Hids. apply received_chunk_has_key; assumption.
  - intros i. symmetry. apply Hn.
  - intros i. rewrite Hpa. reflexivity.
Qed.

(** C9 on the code: [participantData] is a plain object, and an identifier
    that names a member of [Object.prototype] is not handled like the
    others.  A chunk for the unregistered ["constructor"] finds the
    inherited function, is not auto-registered, and the call raises with
    nothing stored.  A participant registered as ["__proto__"] is
    installed as the prototype instead of being stored; its chunk is
    accepted and kept there.  In both sessions the identifier received a
    chunk, and the aggregate lists no entry for it. *)
Theorem chunks_under_inherited_names_are_lost :
  let env := Sample.env_with (Sample.tx_completing Sample.shipped)
               (Sample.hf_warming Sample.shipped) Sample.save_up in
  (let ops := [Ingest (lit "constructor") Sample.audio 1500] in
   received_chunk (lit "constructor") ops /\
   (setParticipantBlobChunk (lit "constructor") Sample.audio 1500
      Sample.unstarted).2 = Throw /\
   participantData (run_ops ops Sample.unstarted) = [] /\
   exists agg l,
     (stopMeeting env 5 Sample.room (run_ops ops Sample.unstarted)).2
       = Some (Ret agg, l) /\
     length (filter (fun t => t_id t = lit "constructor") (transcriptions agg))
       = 0%nat) /\
  (let ops := [Register Fixture.eve; Ingest proto Sample.audio 1500] in
   received_chunk proto ops /\
   (setParticipantBlobChunk proto Sample.audio 1500
      (run_ops [Register Fixture.eve] Sample.unstarted)).2 = Ret true /\
   participantData (run_ops ops Sample.unstarted) = [] /\
   chunks_of proto (run_ops ops Sample.unstarted) = [Sample.audio] /\
   exists agg l,
     (stopMeeting env 5 Sample.room (run_ops ops Sample.unstarted)).2
       = Some (Ret agg, l) /\
     length (filter (fun t => t_id t = proto) (transcriptions agg)) = 0%nat /\
     participants agg = []).
Proof.
  cbv zeta. split.
  - split; [exists Sample.audio, 1500; left; reflexivity|].
    split; [reflexivity|]. split; [reflexivity|].
    eexists. eexists. split; [vm_compute; reflexivity | reflexivity].
  - split; [exists Sample.audio, 1500; right; left; reflexivity|].
    split; [reflexivity|]. split; [reflexivity|]. split; [reflexivity|].
    eexists. eexists. split; [vm_compute; reflexivity|].
    split; reflexivity.
Qed.

(** A run with ordinary identifiers: Alice registered and spoke, Bob spoke
    without registering. *)
Lemma ordinary_speakers_listed_once_example :
  exists agg l,
    (stopMeeting
       (Sample.env_with (Sample.tx_completing Sample.shipped)
          (Sample.hf_warming Sample.shipped) Sample.save_up)
       5 Sample.room (run_ops Sample.two_speakers Sample.unstarted)).2
    = Some (Ret agg, l) /\
    length (filter (fun t => t_id t = lit "user_bob") (transcriptions agg)) = 1%nat /\
    participants agg = List.map t_id (transcriptions agg).
Proof.
  exists_run (stopMeeting
                (Sample.env_with (Sample.tx_completing Sample.shipped)
                   (Sample.hf_warming Sample.shipped) Sample.save_up)
                5 Sample.room (run_ops Sample.two_speakers Sample.unstarted)).2.
  match goal with
  | |- ?run = ?v /\ _ => assert (H : run = v) by (vm_compute; reflexivity)
  end.
  split; [exact H|].
  destruct (ordinary_speakers_listed_once Sample.two_speakers Sample.unstarted
              _ _ _ _ _ assigned_unstarted eq_refl eq_refl H) as (Honce & Hp & _).
  split; [|exact Hp].
  apply Honce. exists Sample.audio, 1600. right. right. left. reflexivity.
Qed.

Lemma includes_starts p s : starts_with p s = true -> includes p s = true.
Proof. intros H. destruct s; simpl; simpl in H; rewrite H; reflexivity. Qed.

Lemma starts_with_app p s : starts_with p (p ++ s) = true.
Proof.
  induction p as [|c p IH]; [reflexivity|].
  simpl. rewrite N.eqb_refl. exact IH.
Qed.

Lemma includes_app p a s : includes p s = true -> includes p (a ++ s) = true.
Proof.
  intros H. induction a as [|c a IH]; [exact H|].
  simpl. rewrite IH. apply orb_true_r.
Qed.

Lemma transcript_line_separator t :
  includes (lit ": ") (transcript_line t) = true.
Proof.
  unfold transcript_line. apply includes_app, includes_starts, starts_with_app.
Qed.

(** C10: a returning [stopMeeting] call took the placeholder branch (the
    fixed summary, its two fixed key points, no summarization call) exactly
    when the store held no Participant Record; with at least one record,
    every entry contributes a line that contains [": "], the combined
    transcript is not empty after trimming, and the orchestrator is invoked
    on it, even when every entry has empty text. *)
Theorem placeholder_iff_no_participants env fuel roomId s agg l :
  (stopMeeting env fuel roomId s).2 = Some (Ret agg, l) ->
  (placeholder_path agg l <-> participantData s = []) /\
  (participantData s <> [] ->
   Forall (fun t => includes (lit ": ") (transcript_line t) = true)
          (transcriptions agg) /\
   fullTranscript_of (transcriptions agg) <> [] /\
   In (EvSummarize (fullTranscript_of (transcriptions agg))) l).
Proof.
  intros H. apply stopMeeting_outline in H. cbv zeta in H.
  destruct H as [Hlen H].
  assert (Hiff : fullTranscript_of (transcriptions agg) = []
                 <-> participantData s = []).
  { rewrite fullTranscript_empty_iff.
    destruct (transcriptions agg), (participantData s); simpl in Hlen;
      split; congruence. }
  split.
  - destruct H as [(E & Hs & Hk & Q)|(E & r & lr & _ & _ & Hin & _)].
    + split; [intros _; apply Hiff, E | intros _; repeat split; assumption].
    + split; [|intros Hpd; apply Hiff in Hpd; congruence].
      intros (_ & _ & Q). destruct (quiet_not_summarize _ _ Q Hin).
  - intros Hpd. split; [|split].
    + apply Forall_forall. intros t _. apply transcript_line_separator.
    + intros E. apply Hiff in E. congruence.
    + destruct H as [(E & _)|(_ & r & lr & _ & _ & Hin & _)]; [|exact Hin].
      apply Hiff in E. congruence.
Qed.

(** Two runs of C10: no participant at all, and a single silent one. *)
Lemma placeholder_iff_no_participants_witness :
  (exists agg l,
     (stopMeeting
        (Sample.env_with Sample.tx_erroring Sample.hf_failing Sample.save_up)
        1 Sample.room Sample.unstarted).2 = Some (Ret agg, l) /\
     placeholder_path agg l) /\
  (exists agg l,
     (stopMeeting
        (Sample.env_with Sample.tx_erroring Sample.hf_failing Sample.save_up)
        1 Sample.room Sample.bob_silent).2 = Some (Ret agg, l) /\
     Forall (fun t => t_text t = []) (transcriptions agg) /\
     In (EvSummarize (lit "Bob:")) l).
Proof.
  split.
  - exists_run (stopMeeting
                  (Sample.env_with Sample.tx_erroring Sample.hf_failing Sample.save_up)
                  1 Sample.room Sample.unstarted).2.
    match goal with
    | |- ?run = ?v /\ _ => assert (H : run = v) by (vm_compute; reflexivity)
    end.
    split; [exact H|].
    apply (placeholder_iff_no_participants _ _ _ _ _ _ H). reflexivity.
  - exists_run (stopMeeting
                  (Sample.env_with Sample.tx_erroring Sample.hf_failing Sample.save_up)
                  1 Sample.room Sample.bob_silent).2.
    match goal with
    | |- ?run = ?v /\ _ => assert (H : run = v) by (vm_compute; reflexivity)
    end.
    split; [exact H|]. split; [repeat constructor|].
    destruct (placeholder_iff_no_participants _ _ _ _ _ _ H) as [_ Hrec].
    apply Hrec. discriminate.
Defined.

(* ================================================================== *)
(** ** Further properties: the chunk store *)
(* ================================================================== *)

Lemma record_at_plain id s :
  participantData_proto s = None ->
  record_at id s = own_get id (participantData s).
Proof.
  intros Hp. unfold record_at, participantData_get. rewrite Hp.
  destruct (own_get id (participantData s)); reflexivity.
Qed.



(** X2: a registration under an identifier other than [__proto__] stores
    a record with no fragment and not finished under that identifier,
    whatever the caller passed for those two fields and whatever was stored
    before; no other lookup changes, and the number of records grows only
    for a new identifier.  A registration under [__proto__] stores
    nothing: the record is installed as the prototype of [participantData],
    where [__proto__] finds it. *)
Theorem register_resets_participant p s :
  let s' := (setNewParticipantServerAction p s).1 in
  let fresh := {| p_id := p_id p; p_name := p_name p; p_offset := p_offset p;
                  p_chunks := []; p_isFinished := false |} in
  meetingStartTime s' = meetingStartTime s /\
  (p_id p <> proto ->
   participantData_get (p_id p) s' = Own fresh /\
   participantData_proto s' = participantData_proto s /\
   (forall id', id' <> p_id p ->
      participantData_get id' s' = participantData_get id' s) /\
   length (participantData s') =
     match own_get (p_id p) (participantData s) with
     | Some _ => length (participantData s)
     | None => S (length (participantData s))
     end) /\
  (p_id p = proto -> own_get proto (participantData s) = None ->
   participantData s' = participantData s /\
   participantData_proto s' = Some fresh /\
   participantData_get proto s' = Installed fresh).
Proof.
  cbv zeta. split; [apply clock_kept_by_register|].
  unfold setNewParticipantServerAction. cbn [fst]. split.
  - intros Hne. rewrite (set_plain _ _ _ Hne).
    cbn [participantData participantData_proto]. split; [|split; [|split]].
    + apply get_Own. cbn [participantData]. apply own_get_set_eq.
    + reflexivity.
    + intros id' Hne'. unfold participantData_get.
      cbn [participantData participantData_proto].
      rewrite own_get_set_ne by congruence. reflexivity.
    + apply own_set_length.
  - intros Hp Hown. unfold participantData_set. rewrite Hp, Hown.
    rewrite bool_decide_eq_true_2 by reflexivity.
    rewrite bool_decide_eq_false_2 by (intros [? ?]; discriminate).
    cbn [andb negb participantData participantData_proto].
    split; [reflexivity|]. split; [reflexivity|].
    unfold participantData_get. cbn [participantData participantData_proto].
    rewrite Hown, decide_True by reflexivity. reflexivity.
Qed.

Lemma chunks_of_run_op id s o :
  participantData_proto s = None -> plain_op o = true ->
  chunks_of id (run_op s o) = audio_step id (chunks_of id s) o.
Proof.
  intros Hp Ho. destruct (run_op_plain s o Hp Ho) as (Hp' & rec & Hd & Hc).
  unfold chunks_of. rewrite (record_at_plain _ _ Hp'), (record_at_plain _ _ Hp), Hd.
  destruct o as [p|i blob ts]; cbn [op_id audio_step] in *.
  - destruct (decide (p_id p = id)) as [<-|Hne].
    + rewrite own_get_set_eq. exact Hc.
    + rewrite own_get_set_ne by exact Hne. reflexivity.
  - destruct (decide (i = id)) as [->|Hne].
    + rewrite own_get_set_eq, Hc.
      destruct (own_get id (participantData s)); reflexivity.
    + rewrite own_get_set_ne by exact Hne. reflexivity.
Qed.

(** X3: after any sequence of registrations and chunks whose identifiers
    name no member of [Object.prototype] and whose timestamps are valid
    times, on a store whose prototype has not been replaced, the fragments
    held for a participant are the chunks it received since its last
    registration, in arrival order, after those it held at the start when
    it was not registered again. *)
Theorem stored_audio_is_chunks_since_registration id ops : forall s,
  participantData_proto s = None ->
  forallb plain_op ops = true ->
  chunks_of id (run_ops ops s) = fold_left (audio_step id) ops (chunks_of id s).
Proof.
  induction ops as [|o ops IH]; intros s Hp Ho; [reflexivity|].
  change (run_ops (o :: ops) s) with (run_ops ops (run_op s o)).
  cbn [forallb] in Ho. apply andb_true_iff in Ho as [Ho Hops].
  rewrite IH; [|exact (proj1 (run_op_plain s o Hp Ho)) | exact Hops].
  rewrite (chunks_of_run_op _ _ _ Hp Ho). reflexivity.
Qed.

Lemma stored_audio_is_chunks_since_registration_witness :
  chunks_of (lit "user_bob")
    (run_ops (Sample.two_speakers
              ++ [Ingest (lit "user_bob") [Byte.x00] 1700;
                  Register Sample.alice])
       Sample.unstarted)
  = [Sample.audio; [Byte.x00]] /\
  chunks_of (lit "user_alice")
    (run_ops (Sample.two_speakers
              ++ [Ingest (lit "user_bob") [Byte.x00] 1700;
                  Register Sample.alice])
       Sample.unstarted)
  = [].
Proof.
  split.
  - rewrite (stored_audio_is_chunks_since_registration (lit "user_bob"));
      reflexivity.
  - rewrite (stored_audio_is_chunks_since_registration (lit "user_alice"));
      reflexivity.
Defined.

(** X4: the participants of a session are exactly the identifiers named by
    a registration or a chunk since [Init], as long as those identifiers
    name no member of [Object.prototype], the timestamps are valid times
    and the prototype of the store has not been replaced: [Init] forgets
    every earlier record, and no capture call removes or invents one. *)
Theorem session_participants_are_those_named k t ops s :
  participantData_proto s = None ->
  forallb plain_op ops = true ->
  k ∈ Object_keys (participantData (run_ops ops (Init t s).1)) <->
  k ∈ List.map op_id ops.
Proof.
  intros Hp Ho. rewrite elem_of_Object_keys, named_keys; [|exact Hp | exact Ho].
  cbn. rewrite elem_of_nil. tauto.
Qed.

Lemma session_participants_are_those_named_witness :
  lit "user_bob" ∈
    Object_keys
      (participantData
         (run_ops Sample.two_speakers (Init 700 Sample.bob_silent).1)) /\
  lit "user_carol" ∉
    Object_keys
      (participantData
         (run_ops Sample.two_speakers (Init 700 Sample.bob_silent).1)).
Proof.
  split.
  - apply session_participants_are_those_named; [reflexivity | reflexivity|].
    vm_compute. right. right. left.
  - intros H.
    apply session_participants_are_those_named in H;
      [|reflexivity | reflexivity].
    vm_compute in H. repeat (apply elem_of_cons in H as [H|H]; [discriminate|]).
    apply elem_of_nil in H. exact H.
Defined.

(** ** Further properties: invariants of the actions *)
(* ================================================================== *)

Lemma store_ok_stopRecorder svc fuel id t s :
  store_ok s -> store_ok (stopRecorder svc fuel id t s).1.
Proof.
  intros Hok. unfold stopRecorder. cbv zeta.
  destruct (participantData_get id s) as [p|p|[|]] eqn:E; try exact Hok.
  - destruct (length (p_chunks p) =? 0)%nat; [exact Hok|]. cbn [fst].
    apply get_Own in E.
    apply (store_ok_own_set id p); [exact Hok | exact E | reflexivity].
  - destruct (length (p_chunks p) =? 0)%nat; exact Hok.
Qed.

Lemma store_ok_stopMeeting env fuel roomId s :
  store_ok s -> store_ok (stopMeeting env fuel roomId s).1.
Proof. intros Hok. exact Hok. Qed.

Lemma store_ok_act a s : store_ok s -> store_ok (act s a).
Proof.
  intros Hok. destruct a; cbn [act].
  - apply store_ok_Init.
  - apply store_ok_register, Hok.
  - apply store_ok_ingest, Hok.
  - apply store_ok_stopRecorder, Hok.
  - apply store_ok_stopMeeting, Hok.
Qed.

(** X5: every exported action keeps the store well keyed: each record
    sits under its own identifier and no identifier occurs twice, whatever
    the collaborators do. *)
Theorem actions_keep_store_keyed l : forall s,
  store_ok s -> store_ok (acts l s).
Proof.
  induction l as [|a l IH]; intros s Hok; [exact Hok|].
  change (acts (a :: l) s) with (acts l (act s a)).
  apply IH, store_ok_act, Hok.
Qed.

(** A session of all five actions, on the module's initial state. *)
Lemma actions_keep_store_keyed_witness :
  store_ok
    (acts [ActIngest (lit "user_bob") Sample.audio 1600;
           ActRegister Sample.alice;
           ActStopRecorder Sample.tx_erroring 3 (lit "user_bob") 1700;
           ActStopMeeting
             (Sample.env_with Sample.tx_erroring Sample.hf_failing Sample.save_up)
             3 Sample.room;
           ActInit 5000;
           ActRegister Sample.alice]
       Sample.unstarted).
Proof.
  apply actions_keep_store_keyed. apply (store_ok_empty None None).
Defined.

Lemma clock_kept_by_stopRecorder svc fuel id t s :
  meetingStartTime (stopRecorder svc fuel id t s).1 = meetingStartTime s.
Proof.
  unfold stopRecorder. cbv zeta.
  destruct (participantData_get id s) as [p|p|[|]]; try reflexivity;
    destruct (length (p_chunks p) =? 0)%nat; reflexivity.
Qed.

(** X6: a session clock that holds a non-zero value is changed by no
    action other than [Init]: not by registrations, chunks, finalizations
    or session ends, in any number and order. *)
Theorem nonzero_clock_is_stable l : forall s t,
  meetingStartTime s = Some t -> t <> 0 ->
  forallb (fun a => negb (is_Init a)) l = true ->
  meetingStartTime (acts l s) = Some t.
Proof.
  induction l as [|a l IH]; intros s t Hs Ht Hl; [exact Hs|].
  change (acts (a :: l) s) with (acts l (act s a)).
  cbn [forallb] in Hl. apply andb_true_iff in Hl as [Ha Hl].
  apply IH; [|exact Ht|exact Hl].
  destruct a; cbn [act]; try discriminate.
  - rewrite clock_kept_by_register. exact Hs.
  - apply clock_kept_by_ingest; assumption.
  - rewrite clock_kept_by_stopRecorder. exact Hs.
  - apply clock_kept_by_stopMeeting; assumption.
Qed.

Lemma nonzero_clock_is_stable_witness :
  meetingStartTime
    (acts [ActIngest (lit "user_bob") Sample.audio 1600;
           ActRegister Sample.alice;
           ActStopMeeting
             (Sample.env_with Sample.tx_erroring Sample.hf_failing Sample.save_up)
             3 Sample.room;
           ActIngest (lit "user_alice") Sample.audio 99000]
       (Init 700 Sample.unstarted).1) = Some 700.
Proof.
  apply nonzero_clock_is_stable; [reflexivity | discriminate | reflexivity].
Defined.

Lemma Math_min_le x l : Math_min x l <= x /\ Forall (fun y => Math_min x l <= y) l.
Proof.
  unfold Math_min. revert x. induction l as [|y l IH]; intros x; simpl.
  - split; [lia | constructor].
  - destruct (IH (Z.min x y)) as [H1 H2]. split; [lia|].
    constructor; [lia | exact H2].
Qed.

Lemma Math_min_in x l : In (Math_min x l) (x :: l).
Proof.
  unfold Math_min. revert x. induction l as [|y l IH]; intros x; simpl.
  - left. reflexivity.
  - destruct (IH (Z.min x y)) as [H|H].
    + destruct (Z.min_spec x y) as [[_ E]|[_ E]].
      * left. rewrite <- H. symmetry. exact E.
      * right. left. rewrite <- H. symmetry. exact E.
    + right. right. exact H.
Qed.

(** X7: when [stopMeeting] finds the clock unset (or at [0]) and at least
    one record, the start time it stores and reports is the earliest
    offset: an offset of some record, and no later than any of them; with
    no record it is the current time. *)
Theorem derived_start_is_earliest_offset env fuel roomId s :
  not_time (meetingStartTime s) = true ->
  let start := session_start env s in
  meetingStartTime (stopMeeting env fuel roomId s).1 = Some start /\
  (participantData s = [] -> start = now_fallback env) /\
  (participantData s <> [] ->
   In start (List.map p_offset (Object_values (participantData s))) /\
   Forall (fun p => start <= p_offset p) (Object_values (participantData s))).
Proof.
  intros Hnt. cbv zeta. split; [reflexivity|].
  unfold session_start. rewrite Hnt.
  destruct (Object_values (participantData s)) as [|p rest] eqn:E.
  - apply Object_values_nil in E. split; [reflexivity | congruence].
  - split; [intros Hnil; rewrite Hnil in E; discriminate|]. intros _.
    split; [apply Math_min_in|].
    destruct (Math_min_le (p_offset p) (List.map p_offset rest)) as [H1 H2].
    constructor; [exact H1|]. rewrite Forall_map in H2. exact H2.
Qed.

Lemma derived_start_is_earliest_offset_witness :
  meetingStartTime
    (stopMeeting
       (Sample.env_with Sample.tx_erroring Sample.hf_failing Sample.save_up)
       3 Sample.room
       (run_ops [Register Sample.bob; Register Sample.alice] Sample.unstarted)).1
  = Some 1000.
Proof.
  apply (derived_start_is_earliest_offset
           (Sample.env_with Sample.tx_erroring Sample.hf_failing Sample.save_up)
           3 Sample.room
           (run_ops [Register Sample.bob; Register Sample.alice] Sample.unstarted)).
  reflexivity.
Defined.

Lemma bind_ext {A B} (m : Run A) (f g : A -> Run B) :
  (forall a, f a = g a) -> bind m f = bind m g.
Proof.
  intros H. destruct m as [[[a|] l]|]; simpl; [rewrite H|..]; reflexivity.
Qed.

Lemma same_but_finished_refl p : same_but_finished p p.
Proof. repeat split. Qed.

Lemma resolvedName_same mn p q :
  same_but_finished p q -> resolvedName mn p = resolvedName mn q.
Proof. intros (Hi & Hn & _ & _). unfold resolvedName. rewrite Hi, Hn. reflexivity. Qed.

Lemma transcribe_participant_same svc fuel mn p q :
  same_but_finished p q ->
  transcribe_participant svc fuel mn p = transcribe_participant svc fuel mn q.
Proof.
  intros H. unfold transcribe_participant.
  rewrite (resolvedName_same mn p q H).
  destruct H as (Hi & _ & _ & Hc). rewrite Hi, Hc. reflexivity.
Qed.

Lemma transcribe_all_same tx fuel mn ps qs :
  Forall2 same_but_finished ps qs ->
  forall k, transcribe_all tx fuel mn k ps = transcribe_all tx fuel mn k qs.
Proof.
  induction 1 as [|p q ps qs H _ IH]; intros k; [reflexivity|].
  cbn [transcribe_all]. rewrite (transcribe_participant_same _ _ _ p q H).
  apply bind_ext. intros t. rewrite IH. reflexivity.
Qed.

Lemma participantNames_same mn ps qs :
  Forall2 same_but_finished ps qs ->
  participantNames_of mn ps = participantNames_of mn qs.
Proof.
  intros HF. unfold participantNames_of. generalize (∅ : gmap jsstring NameValue).
  induction HF as [|p q ps qs H _ IH]; intros m; [reflexivity|].
  cbn [fold_left]. rewrite (resolvedName_same mn p q H).
  destruct H as (Hi & _). rewrite Hi. apply IH.
Qed.

Lemma ids_same ps qs :
  Forall2 same_but_finished ps qs -> List.map p_id ps = List.map p_id qs.
Proof.
  induction 1 as [|p q ps qs (Hi & _) _ IH]; [reflexivity|].
  cbn. rewrite Hi, IH. reflexivity.
Qed.

Lemma offsets_same ps qs :
  Forall2 same_but_finished ps qs -> List.map p_offset ps = List.map p_offset qs.
Proof.
  induction 1 as [|p q ps qs (_ & _ & Ho & _) _ IH]; [reflexivity|].
  cbn. rewrite Ho, IH. reflexivity.
Qed.

Lemma session_start_same env s s' :
  meetingStartTime s = meetingStartTime s' ->
  Forall2 same_but_finished (Object_values (participantData s))
                            (Object_values (participantData s')) ->
  session_start env s = session_start env s'.
Proof.
  intros Ht H. unfold session_start. rewrite Ht.
  destruct (not_time (meetingStartTime s')); [|reflexivity].
  pose proof (offsets_same _ _ H) as Ho.
  destruct H as [|p q ps qs _ _]; [reflexivity|].
  cbn in Ho. injection Ho as -> ->. reflexivity.
Qed.

(** [stopMeeting] reads of a record only its identifier, name, offset and
    fragments. *)
Lemma stopMeeting_same env fuel roomId s s' :
  meetingStartTime s = meetingStartTime s' ->
  Forall2 same_but_finished (Object_values (participantData s))
                            (Object_values (participantData s')) ->
  (stopMeeting env fuel roomId s).2 = (stopMeeting env fuel roomId s').2.
Proof.
  intros Ht H. unfold stopMeeting. cbn [snd].
  rewrite (session_start_same env s s' Ht H).
  destruct (negb _); [reflexivity|].
  apply bind_ext. intros a. apply bind_ext. intros mn.
  rewrite (transcribe_all_same _ _ _ _ _ H).
  apply bind_ext. intros ts.
  rewrite (participantNames_same mn _ _ H).
  unfold mk_summary. rewrite (ids_same _ _ H). reflexivity.
Qed.

Lemma stopRecorder_values svc fuel id t s :
  Forall2 same_but_finished
    (Object_values (participantData (stopRecorder svc fuel id t s).1))
    (Object_values (participantData s)).
Proof.
  assert (Hrefl : forall l : list participantDataType, Forall2 same_but_finished l l).
  { intros l. apply Forall_Forall2_diag, Forall_forall.
    intros x _. apply same_but_finished_refl. }
  unfold stopRecorder. cbv zeta.
  destruct (participantData_get id s) as [p|p|[|]] eqn:E; try apply Hrefl.
  - destruct (length (p_chunks p) =? 0)%nat; [apply Hrefl|].
    cbn [fst participantData]. apply get_Own in E.
    apply related_Object_values, (related_own_set same_but_finished id p);
      [apply same_but_finished_refl | exact E | repeat split].
  - destruct (length (p_chunks p) =? 0)%nat; apply Hrefl.
Qed.

(** X8: finalizing a participant with [stopRecorder] changes nothing that
    [stopMeeting] reads: the session end afterwards runs exactly as it
    would have without the finalization, so the participant's audio is
    transcribed again and [isFinished] has no effect. *)
Theorem finalizing_is_invisible_to_stopMeeting svc f id t env fuel roomId s :
  (stopMeeting env fuel roomId (stopRecorder svc f id t s).1).2
  = (stopMeeting env fuel roomId s).2.
Proof.
  apply stopMeeting_same.
  - apply clock_kept_by_stopRecorder.
  - apply stopRecorder_values.
Qed.

(** X9: [stopMeeting] does not clear the store.  A second session end
    without [Init] in between reports the same participants and the same
    entry identifiers, and the same start time whenever the first one was
    not [0]. *)
Theorem stopMeeting_twice env1 env2 fuel1 fuel2 room1 room2 s agg1 agg2 l1 l2 :
  (stopMeeting env1 fuel1 room1 s).2 = Some (Ret agg1, l1) ->
  (stopMeeting env2 fuel2 room2 (stopMeeting env1 fuel1 room1 s).1).2
    = Some (Ret agg2, l2) ->
  participants agg2 = participants agg1 /\
  List.map t_id (transcriptions agg2) = List.map t_id (transcriptions agg1) /\
  (time_of (startTime agg1) <> 0 -> startTime agg2 = startTime agg1).
Proof.
  intros H1 H2.
  destruct (stopMeeting_ids _ _ _ _ _ _ H1) as (_ & Hp1).
  destruct (stopMeeting_ids _ _ _ _ _ _ H2) as (_ & Hp2).
  apply stopMeeting_inv in H1. apply stopMeeting_inv in H2.
  destruct H1 as (a1 & mn1 & ts1 & ? & ? & ? & _ & _ & _ & _ & H1).
  destruct H2 as (a2 & mn2 & ts2 & ? & ? & ? & _ & _ & _ & _ & H2).
  assert (E1 : participants agg1 = List.map p_id (Object_values (participantData s))
               /\ startTime agg1 = toISOString (session_start env1 s)).
  { destruct H1 as [(_ & -> & _)|(_ & r & ? & ? & _ & -> & _)]; split; reflexivity. }
  assert (E2 : participants agg2 = List.map p_id (Object_values (participantData s))
               /\ startTime agg2 =
                  toISOString (session_start env2 (stopMeeting env1 fuel1 room1 s).1)).
  { destruct H2 as [(_ & -> & _)|(_ & r & ? & ? & _ & -> & _)]; split; reflexivity. }
  destruct E1 as [Ep1 Es1], E2 as [Ep2 Es2].
  split; [congruence|]. split; [congruence|].
  rewrite Es1, Es2. cbn [time_of]. intros Hnz. f_equal.
  unfold session_start at 1. cbn [stopMeeting fst meetingStartTime].
  destruct (session_start env1 s); [congruence | reflexivity | reflexivity].
Qed.

Lemma stopMeeting_twice_witness :
  exists agg1 agg2 l1 l2,
    (stopMeeting
       (Sample.env_with (Sample.tx_completing Sample.shipped)
          (Sample.hf_warming Sample.shipped) Sample.save_up)
       5 Sample.room (run_ops Sample.two_speakers Sample.unstarted)).2
      = Some (Ret agg1, l1) /\
    (stopMeeting
       (Sample.env_with Sample.tx_erroring Sample.hf_failing Sample.save_down)
       5 Sample.room
       (stopMeeting
          (Sample.env_with (Sample.tx_completing Sample.shipped)
             (Sample.hf_warming Sample.shipped) Sample.save_up)
          5 Sample.room (run_ops Sample.two_speakers Sample.unstarted)).1).2
      = Some (Ret agg2, l2) /\
    participants agg2 = participants agg1 /\
    startTime agg2 = startTime agg1.
Proof.
  do 4 eexists.
  assert (H1 : (stopMeeting
       (Sample.env_with (Sample.tx_completing Sample.shipped)
          (Sample.hf_warming Sample.shipped) Sample.save_up)
       5 Sample.room (run_ops Sample.two_speakers Sample.unstarted)).2
      = Some (Ret ?[a1], ?[l1])) by (vm_compute; reflexivity).
  assert (H2 : (stopMeeting
       (Sample.env_with Sample.tx_erroring Sample.hf_failing Sample.save_down)
       5 Sample.room
       (stopMeeting
          (Sample.env_with (Sample.tx_completing Sample.shipped)
             (Sample.hf_warming Sample.shipped) Sample.save_up)
          5 Sample.room (run_ops Sample.two_speakers Sample.unstarted)).1).2
      = Some (Ret ?[a2], ?[l2])) by (vm_compute; reflexivity).
  split; [exact H1|]. split; [exact H2|].
  destruct (stopMeeting_twice _ _ _ _ _ _ _ _ _ _ _ H1 H2) as (Hp & _ & Hs).
  split; [exact Hp|]. apply Hs. discriminate.
Defined.

(* ================================================================== *)
(** ** Further properties: the transcription orchestrator *)
(* ================================================================== *)

(** The loop, entered at poll [k] with a running job, polls up to the
    first poll [n] that ends it. *)
Lemma poll_loop_until svc n :
  (forall m, (m < n)%nat -> poll_ends svc m = false) ->
  poll_ends svc n = true ->
  forall d k st res fuel,
    (k + d)%nat = n -> still_running st = true -> (d < fuel)%nat ->
    poll_loop svc fuel k st res =
    Some (match tx_poll svc n with
          | Ret r => Ret (res_status r, Some r)
          | Throw => Throw
          end, poll_rounds (S d)).
Proof.
  intros Hbefore Hend. induction d as [|d IH]; intros k st res fuel Hk Hrun Hlt;
    (destruct fuel as [|fuel]; [lia|]); rewrite poll_loop_step by exact Hrun.
  - assert (k = n) as -> by lia. unfold poll_ends in Hend.
    destruct (tx_poll svc n) as [r|]; [|reflexivity].
    apply negb_true_iff in Hend. rewrite poll_loop_stop by exact Hend. reflexivity.
  - pose proof (Hbefore k ltac:(lia)) as Hk'. unfold poll_ends in Hk'.
    destruct (tx_poll svc k) as [r'|]; [|discriminate].
    apply negb_false_iff in Hk'.
    rewrite (IH (S k) _ _ fuel ltac:(lia) Hk' ltac:(lia)). reflexivity.
Qed.

Lemma poll_loop_endless svc :
  (forall n, poll_ends svc n = false) ->
  forall fuel k st res, still_running st = true ->
    poll_loop svc fuel k st res = None.
Proof.
  intros Hall. induction fuel as [|fuel IH]; intros k st res Hrun.
  - simpl. rewrite Hrun. reflexivity.
  - rewrite poll_loop_step by exact Hrun.
    pose proof (Hall k) as Hk. unfold poll_ends in Hk.
    destruct (tx_poll svc k) as [r|]; [|discriminate].
    apply negb_false_iff in Hk. rewrite (IH _ _ _ Hk). reflexivity.
Qed.

(** X10: when the job is running at submission and [completed] is the
    first terminal status, reported at poll [n], the orchestrator returns
    the text of that poll ([''] when it carries none) after exactly
    [n + 1] polls, each one after a wait of 3000 ms. *)
Theorem transcribe_returns_text_of_completed_job svc blob u u' st0 n r fuel :
  tx_tmpfile svc = Ret u -> tx_upload svc = Ret u' ->
  tx_submit svc = Ret st0 -> still_running st0 = true ->
  (forall m, (m < n)%nat -> poll_ends svc m = false) ->
  tx_poll svc n = Ret r -> res_status r = Some completed ->
  (n < fuel)%nat ->
  transcribeWithAssemblyAI svc fuel blob =
  Some (Ret (or_else (res_text r) []),
        EvTranscribe blob :: EvUpload :: EvSubmitJob :: poll_rounds (S n)).
Proof.
  intros Ht Hu Hs Hrun Hbefore Hn Hst Hlt.
  assert (Hend : poll_ends svc n = true).
  { unfold poll_ends. rewrite Hn, Hst. reflexivity. }
  rewrite transcribe_unfold, Ht, Hu, Hs. run_cbn.
  rewrite (poll_loop_until svc n Hbefore Hend n 0%nat st0 None fuel
             eq_refl Hrun Hlt), Hn.
  cbn [bind after fst snd]. rewrite Hst.
  rewrite bool_decide_eq_true_2 by reflexivity.
  cbn. rewrite !app_nil_r. reflexivity.
Qed.

Lemma transcribe_returns_text_of_completed_job_witness :
  transcribeWithAssemblyAI (Sample.tx_completing Sample.shipped) 2 Sample.audio =
  Some (Ret Sample.shipped,
        [EvTranscribe Sample.audio; EvUpload; EvSubmitJob;
         EvSleep 3000; EvPollJob; EvSleep 3000; EvPollJob]).
Proof.
  apply (transcribe_returns_text_of_completed_job
           (Sample.tx_completing Sample.shipped) Sample.audio tt tt
           (Some (lit "queued")) 1
           {| res_status := Some completed; res_text := Some Sample.shipped |}).
  - reflexivity.
  - reflexivity.
  - reflexivity.
  - reflexivity.
  - intros [|m] Hm; [reflexivity | lia].
  - reflexivity.
  - reflexivity.
  - lia.
Defined.

(** X11: a job that is already [completed] in the answer to its
    submission is never polled, [result] is still [null] when its text is
    read, and the orchestrator returns ['']: the transcript is lost. *)
Theorem transcribe_loses_text_of_instant_job svc blob u u' fuel :
  tx_tmpfile svc = Ret u -> tx_upload svc = Ret u' ->
  tx_submit svc = Ret (Some completed) ->
  transcribeWithAssemblyAI svc fuel blob =
  Some (Ret [], [EvTranscribe blob; EvUpload; EvSubmitJob]).
Proof.
  intros Ht Hu Hs. rewrite transcribe_unfold, Ht, Hu, Hs. run_cbn.
  rewrite poll_loop_stop by (vm_compute; reflexivity).
  cbn [bind ret after fst snd].
  rewrite bool_decide_eq_true_2 by reflexivity. reflexivity.
Qed.

Lemma transcribe_loses_text_of_instant_job_witness :
  transcribeWithAssemblyAI Fixture.tx_instant 7 Sample.audio =
  Some (Ret [], [EvTranscribe Sample.audio; EvUpload; EvSubmitJob]).
Proof.
  apply (transcribe_loses_text_of_instant_job Fixture.tx_instant Sample.audio tt tt);
    reflexivity.
Defined.

(** X12: the polling loop has no bound: while the service answers every
    poll with a status other than [completed] and [error], the
    orchestrator does not return, whatever the fuel. *)
Theorem transcribe_polls_without_bound svc blob u u' st0 :
  tx_tmpfile svc = Ret u -> tx_upload svc = Ret u' ->
  tx_submit svc = Ret st0 -> still_running st0 = true ->
  (forall n, poll_ends svc n = false) ->
  forall fuel, transcribeWithAssemblyAI svc fuel blob = None.
Proof.
  intros Ht Hu Hs Hrun Hall fuel.
  rewrite transcribe_unfold, Ht, Hu, Hs. run_cbn.
  rewrite (poll_loop_endless svc Hall fuel 0%nat st0 None Hrun). reflexivity.
Qed.

Lemma transcribe_polls_without_bound_witness :
  transcribeWithAssemblyAI Fixture.tx_stuck 1000 Sample.audio = None.
Proof.
  apply (transcribe_polls_without_bound Fixture.tx_stuck Sample.audio tt tt
           (Some (lit "queued"))); try reflexivity.
Defined.

(** X13: once the temporary file is written the orchestrator raises
    nothing: when the upload request, or the reading of its answer, raises,
    the result is [''] and no job is submitted; when the submission raises,
    the result is [''] and nothing is polled; and when a running job has
    been polled [n] times and the next poll raises, the result is [''] as
    well.  Only a call that raises counts here: the code does not test the
    HTTP status of an answer. *)
Theorem transcription_failures_yield_empty_text svc blob u :
  tx_tmpfile svc = Ret u ->
  (forall fuel, safe (transcribeWithAssemblyAI svc fuel blob)) /\
  (tx_upload svc = Throw ->
   forall fuel, transcribeWithAssemblyAI svc fuel blob =
                Some (Ret [], [EvTranscribe blob; EvUpload])) /\
  (forall u', tx_upload svc = Ret u' -> tx_submit svc = Throw ->
   forall fuel, transcribeWithAssemblyAI svc fuel blob =
                Some (Ret [], [EvTranscribe blob; EvUpload; EvSubmitJob])) /\
  (forall u' st0 n fuel,
     tx_upload svc = Ret u' -> tx_submit svc = Ret st0 ->
     still_running st0 = true ->
     (forall m, (m < n)%nat -> poll_ends svc m = false) ->
     tx_poll svc n = Throw -> (n < fuel)%nat ->
     transcribeWithAssemblyAI svc fuel blob =
     Some (Ret [], EvTranscribe blob :: EvUpload :: EvSubmitJob
                   :: poll_rounds (S n))).
Proof.
  intros Ht. split; [intros fuel; exact (transcribe_safe _ _ _ _ Ht)|].
  split; [|split].
  - intros Hu fuel. rewrite transcribe_unfold, Ht, Hu. reflexivity.
  - intros u' Hu Hs fuel. rewrite transcribe_unfold, Ht, Hu, Hs. reflexivity.
  - intros u' st0 n fuel Hu Hs Hrun Hbefore Hn Hlt.
    assert (Hend : poll_ends svc n = true).
    { unfold poll_ends. rewrite Hn. reflexivity. }
    rewrite transcribe_unfold, Ht, Hu, Hs. run_cbn.
    rewrite (poll_loop_until svc n Hbefore Hend n 0%nat st0 None fuel
               eq_refl Hrun Hlt), Hn.
    cbn. rewrite !app_nil_r. reflexivity.
Qed.

Lemma transcription_failures_yield_empty_text_witness :
  transcribeWithAssemblyAI Fixture.tx_no_upload 3 Sample.audio =
  Some (Ret [], [EvTranscribe Sample.audio; EvUpload]).
Proof.
  destruct (transcription_failures_yield_empty_text
              Fixture.tx_no_upload Sample.audio tt eq_refl) as (_ & H & _).
  apply H. reflexivity.
Defined.

(* ================================================================== *)
(** ** Further properties: the summarization orchestrator *)
(* ================================================================== *)

Lemma summarize_call_parsed svc k t retry resp body data :
  hf_fetch svc k = Ret resp -> resp_ok resp = true ->
  is_json_type (content_type resp) = true ->
  resp_text resp = Ret body -> JSON_parse svc body = Some data ->
  summarize_call svc k t retry =
  after [EvSummarize t]
    (try_catch (after [EvHfRequest (slice0 4000 t)] (after_parse retry data))
               (ret (mk_result [] []))).
Proof.
  intros Hf Hok Hjs Hb Hp. unfold summarize_call.
  generalize (slice0 4000 t) as inputs. intros inputs.
  rewrite Hf. run_cbn. rewrite Hb. run_cbn. rewrite Hok, Hjs. run_cbn.
  rewrite Hp, !after_nil. reflexivity.
Qed.

(** X14: [summarizeWithHuggingFace] raises nothing, whatever the endpoint
    does; a request that is rejected, or whose body cannot be read, gives
    the empty summary with no key point after that one request. *)
Theorem summarize_never_raises svc k t :
  (forall fuel, safe (summarizeWithHuggingFace svc fuel k t)) /\
  (hf_fetch svc k = Throw \/
   (exists resp, hf_fetch svc k = Ret resp /\ resp_text resp = Throw) ->
   forall fuel,
     summarizeWithHuggingFace svc (S fuel) k t =
     Some (Ret (mk_result [] []), [EvSummarize t; EvHfRequest (slice0 4000 t)])).
Proof.
  split; [intros fuel; apply summarize_safe|].
  intros H fuel. cbn [summarizeWithHuggingFace]. unfold summarize_call.
  generalize (slice0 4000 t) as inputs. intros inputs.
  destruct H as [Hf|(resp & Hf & Hb)]; rewrite Hf; run_cbn;
    [|rewrite Hb]; reflexivity.
Qed.

Lemma summarize_never_raises_witness :
  summarizeWithHuggingFace
    {| hf_fetch := fun _ => Throw; JSON_parse := fun _ => None |} 1 0 (lit "Bob:") =
  Some (Ret (mk_result [] []), [EvSummarize (lit "Bob:"); EvHfRequest (lit "Bob:")]).
Proof.
  destruct (summarize_never_raises
              {| hf_fetch := fun _ => Throw; JSON_parse := fun _ => None |}
              0 (lit "Bob:")) as [_ H].
  apply (H (or_introl eq_refl) 0%nat).
Defined.

(** X15: an HTTP error other than 503 is not retried: after that one
    request the orchestrator returns the status and its text as the
    summary, with no key point, a result [stopMeeting] never accepts. *)
Theorem summarize_does_not_retry_other_errors svc k t resp body fuel :
  hf_fetch svc k = Ret resp -> resp_text resp = Ret body ->
  resp_ok resp = false -> status resp <> 503 ->
  let r := mk_result (lit "HuggingFace API error (" ++ of_Z (status resp)
                      ++ lit "): " ++ statusText resp) [] in
  summarizeWithHuggingFace svc (S fuel) k t =
    Some (Ret r, [EvSummarize t; EvHfRequest (slice0 4000 t)]) /\
  summary_accepted r = false.
Proof.
  intros Hf Hb Hok Hs. cbv zeta. split.
  - cbn [summarizeWithHuggingFace]. unfold summarize_call.
    generalize (slice0 4000 t) as inputs. intros inputs.
    rewrite Hf. run_cbn. rewrite Hb. run_cbn. rewrite Hok. run_cbn.
    apply Z.eqb_neq in Hs. rewrite Hs. reflexivity.
  - unfold summary_accepted. cbn [sr_keyPoints length Nat.ltb Nat.leb].
    apply andb_false_r.
Qed.

Lemma summarize_does_not_retry_other_errors_witness :
  summarizeWithHuggingFace Sample.hf_failing 1 0 (lit "Bob:") =
  Some (Ret (mk_result (lit "HuggingFace API error (500): Internal Server Error") []),
        [EvSummarize (lit "Bob:"); EvHfRequest (lit "Bob:")]).
Proof.
  apply (summarize_does_not_retry_other_errors Sample.hf_failing 0 (lit "Bob:")
           {| status := 500; statusText := lit "Internal Server Error";
              content_type := Some (lit "text/plain"); resp_text := Ret [] |}
           [] 0); [reflexivity | reflexivity | reflexivity | discriminate].
Defined.

(** X16: a 200 JSON answer whose [error] string mentions ["loading"] is
    treated like HTTP 503: the orchestrator waits 15000 ms and calls
    itself again, and what that call does is what it returns. *)
Theorem summarize_retries_on_loading_body svc k t resp body data e fuel :
  hf_fetch svc k = Ret resp -> resp_ok resp = true ->
  is_json_type (content_type resp) = true ->
  resp_text resp = Ret body -> JSON_parse svc body = Some data ->
  json_prop error data = Some (JStr e) -> includes (lit "loading") e = true ->
  summarizeWithHuggingFace svc (S fuel) k t =
  after [EvSummarize t; EvHfRequest (slice0 4000 t); EvSleep 15000]
    (summarizeWithHuggingFace svc fuel (S k) t).
Proof.
  intros Hf Hok Hjs Hb Hp He Hl.
  destruct (summarize_step svc k t) as [v Hv]. rewrite Hv.
  assert (Hr : hf_retries svc k = true).
  { unfold hf_retries, signals_loading.
    rewrite Hf, Hb, Hok, Hjs, Hp, He. cbn [negb error_includes].
    rewrite Hl. reflexivity. }
  rewrite Hr, after_after. reflexivity.
Qed.

Lemma summarize_retries_on_loading_body_witness :
  summarizeWithHuggingFace (Fixture.hf_loading_body Sample.shipped) 2 0 (lit "Bob:") =
  Some (Ret (mk_result Sample.shipped (derive_keyPoints Sample.shipped)),
        [EvSummarize (lit "Bob:"); EvHfRequest (lit "Bob:"); EvSleep 15000;
         EvSummarize (lit "Bob:"); EvHfRequest (lit "Bob:")]).
Proof.
  rewrite (summarize_retries_on_loading_body
             (Fixture.hf_loading_body Sample.shipped) 0 (lit "Bob:")
             {| status := 200; statusText := lit "OK";
                content_type := Some (lit "application/json");
                resp_text := Ret (lit "loading") |}
             (lit "loading")
             (JObj [(lit "error", JStr (lit "Model is currently loading"))])
             (lit "Model is currently loading") 1
             eq_refl eq_refl eq_refl eq_refl eq_refl eq_refl eq_refl).
  reflexivity.
Defined.

(** X17: a 200 JSON answer whose [error] is a non-empty string that does
    not mention ["loading"] ends the call: the summary is
    ["Hugging Face API error: "] followed by that string, there is no key
    point, and [stopMeeting] does not accept the result. *)
Theorem summarize_reports_error_body svc k t resp body data e fuel :
  hf_fetch svc k = Ret resp -> resp_ok resp = true ->
  is_json_type (content_type resp) = true ->
  resp_text resp = Ret body -> JSON_parse svc body = Some data ->
  json_prop error data = Some (JStr e) -> e <> [] ->
  includes (lit "loading") e = false ->
  includes (lit "is currently loading") e = false ->
  let r := mk_result (lit "Hugging Face API error: " ++ e) [] in
  summarizeWithHuggingFace svc (S fuel) k t =
    Some (Ret r, [EvSummarize t; EvHfRequest (slice0 4000 t)]) /\
  summary_accepted r = false.
Proof.
  intros Hf Hok Hjs Hb Hp He Hne Hl1 Hl2. cbv zeta. split.
  - cbn [summarizeWithHuggingFace].
    rewrite (summarize_call_parsed _ _ _ _ _ _ _ Hf Hok Hjs Hb Hp).
    generalize (slice0 4000 t) as inputs. intros inputs.
    unfold after_parse. rewrite He. cbn [error_includes]. rewrite Hl1. run_cbn.
    rewrite Hl2. run_cbn. destruct e as [|c e]; [congruence|]. reflexivity.
  - unfold summary_accepted. cbn [sr_keyPoints length Nat.ltb Nat.leb].
    apply andb_false_r.
Qed.

Lemma summarize_reports_error_body_witness :
  summarizeWithHuggingFace Fixture.hf_refusing 1 0 (lit "Bob:") =
  Some (Ret (mk_result (lit "Hugging Face API error: Rate limit reached") []),
        [EvSummarize (lit "Bob:"); EvHfRequest (lit "Bob:")]).
Proof.
  apply (summarize_reports_error_body Fixture.hf_refusing 0 (lit "Bob:")
           {| status := 200; statusText := lit "OK";
              content_type := Some (lit "application/json");
              resp_text := Ret (lit "{...}") |}
           (lit "{...}")
           (JObj [(lit "error", JStr (lit "Rate limit reached"))])
           (lit "Rate limit reached") 0);
    try reflexivity. discriminate.
Defined.

(** X18: when the endpoint's JSON answer carries neither an error nor any
    text, the orchestrator returns the message ["No summary returned from
    HuggingFace API."] with the key point ["No summary available"], and
    [stopMeeting] accepts it: that message, not a digest of the transcript,
    is the summary of the aggregate. *)
Theorem missing_text_message_becomes_summary env fuel roomId s agg l resp body data :
  (stopMeeting env fuel roomId s).2 = Some (Ret agg, l) ->
  participantData s <> [] ->
  hf_fetch (hf env) 0 = Ret resp -> resp_ok resp = true ->
  is_json_type (content_type resp) = true ->
  resp_text resp = Ret body -> JSON_parse (hf env) body = Some data ->
  json_prop error data = None ->
  opt_truthy (extract_text data) = false ->
  summary agg = lit "No summary returned from HuggingFace API." /\
  keyPoints agg = [lit "No summary available"].
Proof.
  intros H Hpd Hf Hok Hjs Hb Hp He Hx.
  apply stopMeeting_outline in H. cbv zeta in H.
  destruct H as [Hlen [(E & _)|(_ & r & lr & Hsum & Hres & _)]].
  { apply fullTranscript_empty_iff in E. rewrite E in Hlen.
    destruct (participantData s); [congruence | discriminate]. }
  destruct fuel as [|fuel]; [discriminate|].
  cbn [summarizeWithHuggingFace] in Hsum.
  rewrite (summarize_call_parsed _ _ _ _ _ _ _ Hf Hok Hjs Hb Hp) in Hsum.
  unfold after_parse in Hsum. rewrite He in Hsum.
  cbn [error_includes opt_truthy bind lift emit after try_catch ret throw app]
    in Hsum.
  assert (Hr : r = mk_result (lit "No summary returned from HuggingFace API.")
                             [lit "No summary available"]).
  { destruct (extract_text data) as [v|]; cbn [opt_truthy] in Hx.
    - rewrite Hx in Hsum. injection Hsum as <- _. reflexivity.
    - injection Hsum as <- _. reflexivity. }
  subst r.
  assert (Hacc : summary_accepted
                   (mk_result (lit "No summary returned from HuggingFace API.")
                              [lit "No summary available"]) = true)
    by (vm_compute; reflexivity).
  rewrite Hacc in Hres. injection Hres as Hs Hk. split; assumption.
Qed.

Lemma missing_text_message_becomes_summary_witness :
  exists agg l,
    (stopMeeting
       (Sample.env_with Sample.tx_erroring Fixture.hf_blank Sample.save_up)
       1 Sample.room Sample.bob_silent).2 = Some (Ret agg, l) /\
    summary agg = lit "No summary returned from HuggingFace API." /\
    keyPoints agg = [lit "No summary available"].
Proof.
  exists_run (stopMeeting
                (Sample.env_with Sample.tx_erroring Fixture.hf_blank Sample.save_up)
                1 Sample.room Sample.bob_silent).2.
  match goal with
  | |- ?run = ?v /\ _ => assert (H : run = v) by (vm_compute; reflexivity)
  end.
  split; [exact H|].
  apply (missing_text_message_becomes_summary _ _ _ _ _ _
           {| status := 200; statusText := lit "OK";
              content_type := Some (lit "application/json");
              resp_text := Ret (lit "[]") |}
           (lit "[]") (JArr []) H); try reflexivity. discriminate.
Defined.

(* ================================================================== *)
(** ** Further properties: key points and names *)
(* ================================================================== *)

Lemma trim_start_head s c r : trim_start s = c :: r -> is_space c = false.
Proof.
  induction s as [|x s IH]; simpl; [discriminate|].
  destruct (is_space x) eqn:E; [exact IH|]. intros [= <- _]. exact E.
Qed.

Lemma trim_start_suffix s : exists pre, s = pre ++ trim_start s.
Proof.
  induction s as [|x s [pre IH]]; simpl; [exists []; reflexivity|].
  destruct (is_space x).
  - exists (x :: pre). simpl. rewrite <- IH. reflexivity.
  - exists []. reflexivity.
Qed.

Lemma trim_no_outer_space s : no_outer_space (trim s).
Proof.
  unfold trim, trim_end. set (u := trim_start s). set (v := trim_start (rev u)).
  destruct (trim_start_suffix (rev u)) as [pre Hpre]. fold v in Hpre.
  split.
  - intros c r Hv.
    assert (Hu : u = c :: r ++ rev pre).
    { rewrite <- (rev_involutive u), Hpre, rev_app_distr, Hv. reflexivity. }
    exact (trim_start_head s _ _ Hu).
  - intros c r Hv.
    assert (Hv' : v = c :: rev r).
    { rewrite <- (rev_involutive v), Hv, rev_app_distr. reflexivity. }
    exact (trim_start_head (rev u) _ _ Hv').
Qed.

Lemma trim_start_subset c s : In c (trim_start s) -> In c s.
Proof.
  destruct (trim_start_suffix s) as [pre H]. intros Hin.
  rewrite H. apply in_or_app. right. exact Hin.
Qed.

Lemma trim_subset c s : In c (trim s) -> In c s.
Proof.
  unfold trim, trim_end. intros H.
  apply in_rev, trim_start_subset in H. apply in_rev in H.
  apply trim_start_subset. exact H.
Qed.

Lemma split_on_no_separator sep s :
  Forall (fun piece => Forall (fun c => sep c = false) piece) (split_on sep s).
Proof.
  induction s as [|c s IH]; simpl; [repeat constructor|].
  destruct (sep c) eqn:E; [constructor; [constructor | exact IH]|].
  destruct (split_on sep s) as [|h t]; [repeat constructor; exact E|].
  inversion IH as [|? ? Hh Ht]; subst.
  constructor; [constructor; [exact E | exact Hh] | exact Ht].
Qed.

Lemma fragments_are_clean n m text :
  Forall (fun k => (m < length k)%nat /\ no_outer_space k /\
                   Forall (fun c => sentence_end c = false) k)
    (take n (List.filter (fun t => (m <? length t)%nat)
               (List.map trim (split_on sentence_end text)))).
Proof.
  apply Forall_take, Forall_forall. intros k Hk.
  apply list_elem_of_In, filter_In in Hk as [Hin Hlen].
  apply in_map_iff in Hin as (piece & <- & Hpiece).
  split; [apply Nat.ltb_lt, Hlen|]. split; [apply trim_no_outer_space|].
  pose proof (split_on_no_separator sentence_end text) as Hall.
  rewrite Forall_forall in Hall. apply list_elem_of_In in Hpiece.
  specialize (Hall _ Hpiece). rewrite Forall_forall in Hall.
  apply Forall_forall. intros c Hc. apply Hall.
  apply list_elem_of_In, trim_subset, list_elem_of_In, Hc.
Qed.

(** X19: the key points derived from a summary are at most 5; each has at
    least 5 characters, neither starts nor ends with white space, and
    contains none of [.], [?], [!].  The fallback key points cut from a
    transcript are the same with at least 11 characters each. *)
Theorem keyPoints_are_clean text :
  (length (derive_keyPoints text) <= 5)%nat /\
  Forall (fun k => (5 <= length k)%nat /\ no_outer_space k /\
                   Forall (fun c => sentence_end c = false) k)
         (derive_keyPoints text) /\
  (length (fallback_keyPoints text) <= 5)%nat /\
  Forall (fun k => (11 <= length k)%nat /\ no_outer_space k /\
                   Forall (fun c => sentence_end c = false) k)
         (fallback_keyPoints text).
Proof.
  unfold derive_keyPoints, fallback_keyPoints.
  split; [rewrite length_take; lia|].
  split; [exact (fragments_are_clean 5 4 text)|].
  split; [rewrite length_take; lia|].
  exact (fragments_are_clean 5 10 text).
Qed.

Lemma join_nonempty sep x l : x <> [] -> join sep (x :: l) <> [].
Proof.
  intros Hx. destruct x as [|c x]; [congruence|].
  destruct l; simpl; discriminate.
Qed.

Lemma or_else_nonempty a b : b <> [] -> or_else a b <> [].
Proof.
  intros Hb. unfold or_else. destruct a as [[|c s]|]; simpl; try exact Hb.
  discriminate.
Qed.

Lemma member_name_nonempty d : member_name d <> [].
Proof.
  unfold member_name.
  destruct (opt_str_truthy (opt_trim (first_name d))
            || opt_str_truthy (opt_trim (last_name d))) eqn:E.
  - destruct (opt_trim (first_name d)) as [[|c f]|];
      destruct (opt_trim (last_name d)) as [[|c' g]|];
      try discriminate E; cbn; try discriminate;
      destruct f; discriminate.
  - apply or_else_nonempty, or_else_nonempty. discriminate.
Qed.

Lemma build_nameMap_snoc ms mb :
  build_nameMap (ms ++ [mb]) =
  match public_user_data mb with
  | Some d =>
      match user_id d with
      | Some u =>
          if truthy u && negb (bool_decide (u = proto))
          then <[u := member_name d]> (build_nameMap ms)
          else build_nameMap ms
      | None => build_nameMap ms
      end
  | None => build_nameMap ms
  end.
Proof. unfold build_nameMap. rewrite fold_left_app. reflexivity. Qed.

Lemma truthy_nonempty (u : jsstring) : truthy u = true <-> u <> [].
Proof. destruct u; cbn; split; try discriminate; try congruence; auto. Qed.

Lemma build_nameMap_sound ms k v :
  build_nameMap ms !! k = Some v ->
  k <> [] /\ k <> proto /\
  exists mb d, In mb ms /\ public_user_data mb = Some d /\
               user_id d = Some k /\ v = member_name d.
Proof.
  induction ms as [|mb ms IH] using rev_ind.
  - unfold build_nameMap. cbn. rewrite lookup_empty. discriminate.
  - rewrite build_nameMap_snoc. intros H.
    assert (Hold : build_nameMap ms !! k = Some v ->
                   k <> [] /\ k <> proto /\
                   exists mb' d, In mb' (ms ++ [mb]) /\
                     public_user_data mb' = Some d /\
                     user_id d = Some k /\ v = member_name d).
    { intros H'. destruct (IH H') as (H1 & H2 & mb' & d & Hin & H3).
      split; [exact H1|]. split; [exact H2|]. exists mb', d.
      split; [apply in_or_app; left; exact Hin | exact H3]. }
    destruct (public_user_data mb) as [d|] eqn:Ed; [|exact (Hold H)].
    destruct (user_id d) as [u|] eqn:Eu; [|exact (Hold H)].
    destruct (truthy u && negb (bool_decide (u = proto))) eqn:Et;
      [|exact (Hold H)].
    destruct (decide (u = k)) as [->|Hne].
    + rewrite lookup_insert_eq in H. injection H as <-.
      apply andb_true_iff in Et as [Et1 Et2].
      apply truthy_nonempty in Et1.
      apply negb_true_iff, bool_decide_eq_false in Et2.
      split; [exact Et1|]. split; [exact Et2|]. exists mb, d.
      split; [apply in_or_app; right; left; reflexivity|]. auto.
    + rewrite lookup_insert_ne in H by exact Hne. exact (Hold H).
Qed.

Lemma build_nameMap_complete ms k mb d :
  In mb ms -> public_user_data mb = Some d -> user_id d = Some k ->
  k <> [] -> k <> proto -> is_Some (build_nameMap ms !! k).
Proof.
  intros Hin Hd Hu Hk Hp. revert Hin.
  induction ms as [|mb0 ms IH] using rev_ind; [intros []|].
  intros Hin. rewrite build_nameMap_snoc.
  assert (Hkeep : is_Some (build_nameMap ms !! k) ->
                  is_Some (match public_user_data mb0 with
                           | Some d0 =>
                               match user_id d0 with
                               | Some u =>
                                   if truthy u && negb (bool_decide (u = proto))
                                   then <[u := member_name d0]> (build_nameMap ms)
                                   else build_nameMap ms
                               | None => build_nameMap ms
                               end
                           | None => build_nameMap ms
                           end !! k)).
  { intros H. destruct (public_user_data mb0) as [d0|]; [|exact H].
    destruct (user_id d0) as [u|]; [|exact H].
    destruct (truthy u && negb (bool_decide (u = proto))); [|exact H].
    destruct (decide (u = k)) as [->|Hne];
      [rewrite lookup_insert_eq; eauto
      |rewrite lookup_insert_ne by exact Hne; exact H]. }
  apply in_app_or in Hin as [Hin|[<-|[]]]; [exact (Hkeep (IH Hin))|].
  rewrite Hd, Hu.
  rewrite (proj2 (truthy_nonempty k) Hk), (bool_decide_eq_false_2 _ Hp).
  cbn [andb negb]. rewrite lookup_insert_eq. eauto.
Qed.

(** X20: what the member directory yields.  Every entry of the name map
    is keyed by the user id of some member and holds a display name of
    such a member, and neither is empty; an identifier is a key exactly
    when it is the user id of a member, is not empty and is not
    [__proto__], which an assignment does not create; so a member without
    user id is left out.  A member with no usable first name, last name,
    user name or identifier is called ["Member"]. *)
Theorem nameMap_entries_are_nonempty ms :
  (forall k v, build_nameMap ms !! k = Some v ->
     k <> [] /\ v <> [] /\
     exists mb d, In mb ms /\ public_user_data mb = Some d /\
                  user_id d = Some k /\ v = member_name d) /\
  (forall k, is_Some (build_nameMap ms !! k) <->
     k <> [] /\ k <> proto /\
     exists mb d, In mb ms /\ public_user_data mb = Some d /\
                  user_id d = Some k) /\
  (forall d,
     opt_str_truthy (opt_trim (first_name d)) = false ->
     opt_str_truthy (opt_trim (last_name d)) = false ->
     opt_str_truthy (username d) = false ->
     opt_str_truthy (emailPrefix (identifier d)) = false ->
     member_name d = lit "Member").
Proof.
  split; [|split].
  - intros k v H.
    destruct (build_nameMap_sound _ _ _ H) as (Hk & _ & mb & d & Hin & Hd & Hu & ->).
    split; [exact Hk|]. split; [apply member_name_nonempty|]. eauto 6.
  - intros k. split.
    + intros [v H].
      destruct (build_nameMap_sound _ _ _ H) as (Hk & Hp & mb & d & Hin & Hd & Hu & _).
      eauto 8.
    + intros (Hk & Hp & mb & d & Hin & Hd & Hu).
      exact (build_nameMap_complete _ _ _ _ Hin Hd Hu Hk Hp).
  - intros d Hf Hl Hu He. unfold member_name. rewrite Hf, Hl. cbn [orb].
    unfold or_else.
    destruct (username d) as [u|]; cbn in Hu; [rewrite Hu|];
      (destruct (emailPrefix (identifier d)) as [e|]; cbn in He;
       [rewrite He|]; reflexivity).
Qed.

(** A directory of three: Alice, a member without user id, and a member
    of whom only the user id is known. *)
Lemma nameMap_of_three :
  build_nameMap
    [Fixture.member "user_alice" " Alice ";
     {| public_user_data :=
          Some {| user_id := None; first_name := Some (lit "Bob");
                  last_name := None; username := None; identifier := None |} |};
     {| public_user_data :=
          Some {| user_id := Some (lit "user_carol"); first_name := Some (lit " ");
                  last_name := None; username := Some [];
                  identifier := Some (lit "@example.org") |} |}]
  = <[lit "user_carol" := lit "Member"]> (<[lit "user_alice" := lit "Alice"]> ∅).
Proof. vm_compute. reflexivity. Qed.

(* ================================================================== *)
(** ** Further properties: the member directory *)
(* ================================================================== *)

Lemma page_continues_members svc m :
  page_continues svc m = true ->
  exists pg, clerk_fetch svc m = Ret pg /\
             page_memberships pg = Ret (page_members svc m).
Proof.
  unfold page_continues, page_members.
  destruct (clerk_fetch svc m) as [pg|]; [|discriminate].
  destruct (page_ok pg); [|discriminate].
  destruct (page_memberships pg) as [ms|] eqn:E; [|discriminate].
  intros _. exists pg. split; [reflexivity | exact E].
Qed.

(** The pagination, entered at page [k] with the members of the pages
    before it, reads the full pages up to the first page [n] that is not
    full and ends with what that page gives. *)
Lemma fetch_memberships_run svc n :
  (forall m, (m < n)%nat -> page_continues svc m = true) ->
  page_continues svc n = false ->
  forall d k fuel,
    (k + d)%nat = n -> (d < fuel)%nat ->
    fetch_memberships svc fuel k (members_upto svc k) =
    after (List.map EvClerkFetch (seq k (S d)))
      (match clerk_fetch svc n with
       | Ret pg =>
           if negb (page_ok pg) then ret (members_upto svc n)
           else match page_memberships pg with
                | Ret ms => ret (members_upto svc (S n))
                | Throw => throw
                end
       | Throw => throw
       end).
Proof.
  intros Hfull Hlast. induction d as [|d IH]; intros k fuel Hk Hlt;
    (destruct fuel as [|fuel]; [lia|]); rewrite fetch_memberships_step.
  - assert (k = n) as -> by lia. rewrite Hlast.
    cbn [seq List.map members_upto]. unfold page_members.
    destruct (clerk_fetch svc n) as [pg|]; [|reflexivity].
    destruct (negb (page_ok pg)); [reflexivity|].
    destruct (page_memberships pg) as [ms|]; [|reflexivity].
    destruct ms; [rewrite app_nil_r|]; reflexivity.
  - rewrite (Hfull k ltac:(lia)).
    destruct (page_continues_members svc k (Hfull k ltac:(lia))) as (pg & -> & ->).
    change (members_upto svc k ++ page_members svc k) with (members_upto svc (S k)).
    rewrite (IH (S k) fuel ltac:(lia) ltac:(lia)), after_after. reflexivity.
Qed.

Lemma getOrganizationMemberNames_unfold svc fuel org :
  opt_str_truthy org = true -> opt_str_truthy (CLERK_SECRET_KEY svc) = true ->
  getOrganizationMemberNames svc fuel org =
  try_catch (do all <- fetch_memberships svc fuel 0 [] ; ret (build_nameMap all))
            (ret ∅).
Proof.
  intros Ho Hk. unfold getOrganizationMemberNames. rewrite Ho, Hk. reflexivity.
Qed.

(** X21: the directory is read page by page, 500 members at a time, up to
    the first page that is not full; when that page could be read, the
    names returned are those of all members of all pages read, and exactly
    those pages were requested, in order. *)
Theorem directory_reads_until_a_short_page svc org n pg ms fuel :
  opt_str_truthy org = true -> opt_str_truthy (CLERK_SECRET_KEY svc) = true ->
  (forall m, (m < n)%nat -> page_continues svc m = true) ->
  clerk_fetch svc n = Ret pg -> page_ok pg = true ->
  page_memberships pg = Ret ms -> (length ms < 500)%nat ->
  (n < fuel)%nat ->
  getOrganizationMemberNames svc fuel org =
  Some (Ret (build_nameMap (members_upto svc (S n))),
        List.map EvClerkFetch (seq 0 (S n))).
Proof.
  intros Ho Hk Hfull Hf Hok Hms Hlen Hlt.
  assert (Hlast : page_continues svc n = false).
  { unfold page_continues. rewrite Hf, Hok, Hms. cbn [andb].
    destruct (Nat.ltb_spec (length ms) 500); [reflexivity | lia]. }
  rewrite (getOrganizationMemberNames_unfold _ _ _ Ho Hk).
  change (fetch_memberships svc fuel 0 [])
    with (fetch_memberships svc fuel 0 (members_upto svc 0)).
  rewrite (fetch_memberships_run svc n Hfull Hlast n 0%nat fuel eq_refl Hlt).
  rewrite Hf, Hok, Hms. cbn [negb].
  generalize (List.map EvClerkFetch (seq 0 (S n))) as evs. intros evs.
  cbn. rewrite !app_nil_r. reflexivity.
Qed.

Lemma directory_reads_until_a_short_page_witness :
  exists names,
    getOrganizationMemberNames Fixture.clerk_small 1 (Some (lit "org_1")) =
    Some (Ret names, [EvClerkFetch 0]) /\
    names !! lit "user_alice" = Some (lit "Alice").
Proof.
  eexists. split.
  - apply (directory_reads_until_a_short_page Fixture.clerk_small
             (Some (lit "org_1")) 0
             {| page_ok := true;
                page_memberships := Ret [Fixture.member "user_alice" " Alice "] |}
             [Fixture.member "user_alice" " Alice "] 1);
      try reflexivity; [intros m Hm; lia | cbn; lia | lia].
  - vm_compute. reflexivity.
Defined.

(** X22: what a failing page costs.  After [n] full pages, a page refused
    with an HTTP status ends the pagination and keeps the names of the
    members read so far; a page whose request or body fails makes the
    resolver return the empty mapping, and the names read so far are
    lost.  In neither case does the resolver raise. *)
Theorem directory_failure_modes svc org n fuel :
  opt_str_truthy org = true -> opt_str_truthy (CLERK_SECRET_KEY svc) = true ->
  (forall m, (m < n)%nat -> page_continues svc m = true) ->
  (n < fuel)%nat ->
  (forall pg, clerk_fetch svc n = Ret pg -> page_ok pg = false ->
     getOrganizationMemberNames svc fuel org =
     Some (Ret (build_nameMap (members_upto svc n)),
           List.map EvClerkFetch (seq 0 (S n)))) /\
  (clerk_fetch svc n = Throw \/
   (exists pg, clerk_fetch svc n = Ret pg /\ page_ok pg = true /\
               page_memberships pg = Throw) ->
   getOrganizationMemberNames svc fuel org =
   Some (Ret ∅, List.map EvClerkFetch (seq 0 (S n)))).
Proof.
  intros Ho Hk Hfull Hlt.
  rewrite (getOrganizationMemberNames_unfold _ _ _ Ho Hk).
  split.
  - intros pg Hf Hok.
    assert (Hlast : page_continues svc n = false).
    { unfold page_continues. rewrite Hf, Hok. reflexivity. }
    change (fetch_memberships svc fuel 0 [])
      with (fetch_memberships svc fuel 0 (members_upto svc 0)).
    rewrite (fetch_memberships_run svc n Hfull Hlast n 0%nat fuel eq_refl Hlt).
    rewrite Hf, Hok. cbn [negb].
    generalize (List.map EvClerkFetch (seq 0 (S n))) as evs. intros evs.
    cbn. rewrite !app_nil_r. reflexivity.
  - intros H.
    assert (Hlast : page_continues svc n = false).
    { unfold page_continues.
      destruct H as [Hf|(pg & Hf & Hok & Hms)]; rewrite Hf;
        [|rewrite Hok, Hms]; reflexivity. }
    change (fetch_memberships svc fuel 0 [])
      with (fetch_memberships svc fuel 0 (members_upto svc 0)).
    rewrite (fetch_memberships_run svc n Hfull Hlast n 0%nat fuel eq_refl Hlt).
    generalize (List.map EvClerkFetch (seq 0 (S n))) as evs. intros evs.
    destruct H as [Hf|(pg & Hf & Hok & Hms)]; rewrite Hf;
      [|rewrite Hok, Hms]; cbn; rewrite !app_nil_r; reflexivity.
Qed.

Lemma directory_failure_modes_witness :
  getOrganizationMemberNames Fixture.clerk_down 1 (Some (lit "org_1")) =
  Some (Ret ∅, [EvClerkFetch 0]).
Proof.
  destruct (directory_failure_modes Fixture.clerk_down (Some (lit "org_1")) 0 1
              eq_refl eq_refl ltac:(intros m Hm; lia) ltac:(lia)) as [_ H].
  apply H. left. reflexivity.
Defined.

Lemma getOrganizationMemberNames_silent svc fuel org :
  opt_str_truthy org = false \/ opt_str_truthy (CLERK_SECRET_KEY svc) = false ->
  getOrganizationMemberNames svc fuel org = ret ∅.
Proof.
  intros H. unfold getOrganizationMemberNames.
  destruct (opt_str_truthy org); [|reflexivity].
  destruct H as [H|H]; [discriminate|]. rewrite H. reflexivity.
Qed.

(* ================================================================== *)
(** ** Further properties: what a session end does, and in which order *)
(* ================================================================== *)

Lemma poll_loop_traffic svc fuel n st res :
  logs job_traffic (poll_loop svc fuel n st res).
Proof.
  revert n st res. induction fuel as [|fuel IH]; intros n st res.
  - simpl. destruct (still_running st); [intros r l H; discriminate | apply logs_ret].
  - destruct (still_running st) eqn:E;
      [|rewrite poll_loop_stop by exact E; apply logs_ret].
    rewrite poll_loop_step by exact E.
    assert (Hpre : Forall job_traffic [EvSleep 3000; EvPollJob]).
    { constructor; [right; right; right; reflexivity|].
      constructor; [right; right; left; reflexivity | constructor]. }
    destruct (tx_poll svc n) as [r|].
    + apply logs_after; [exact Hpre | apply IH].
    + intros r l [= <- <-]. exact Hpre.
Qed.

(** A transcription announces its audio once and then only talks to the
    transcription service. *)
Lemma transcribe_traffic svc fuel blob o l :
  transcribeWithAssemblyAI svc fuel blob = Some (o, l) ->
  exists l', l = EvTranscribe blob :: l' /\ Forall job_traffic l'.
Proof.
  rewrite transcribe_unfold. unfold after.
  destruct (match tx_tmpfile svc with Ret _ => _ | Throw => _ end)
    as [[o' l']|] eqn:E; [|discriminate].
  intros [= <- <-]. exists l'. split; [reflexivity|].
  match type of E with
  | ?m = _ => assert (Hl : logs job_traffic m)
  end.
  { destruct (tx_tmpfile svc); [|apply logs_throw].
    apply logs_try_catch; [|apply logs_ret].
    apply logs_bind; [apply logs_emit; left; reflexivity|]. intros _.
    apply logs_bind; [apply logs_lift|]. intros _.
    apply logs_bind; [apply logs_emit; right; left; reflexivity|]. intros _.
    apply logs_bind; [apply logs_lift|]. intros st0.
    apply logs_bind; [apply poll_loop_traffic|]. intros sr.
    destruct (bool_decide _); [destruct (snd sr)|];
      first [apply logs_ret | apply logs_throw]. }
  exact (Hl _ _ E).
Qed.

Lemma transcribed_job_traffic l : Forall job_traffic l -> transcribed l = [].
Proof.
  induction 1 as [|e l He _ IH]; [reflexivity|].
  unfold transcribed in *. cbn. rewrite IH.
  destruct He as [-> | [-> | [-> | ->]]]; reflexivity.
Qed.

Lemma job_is_transcription_traffic l :
  Forall job_traffic l -> Forall transcription_traffic l.
Proof. intros H. eapply Forall_impl; [exact H|]. intros e He. right. exact He. Qed.

(** One turn of the loop: no event for a record without audio, one
    transcription of its combined audio otherwise. *)
Lemma transcribe_participant_traffic svc fuel mn p o l :
  transcribe_participant svc fuel mn p = Some (o, l) ->
  transcribed l = audio_to_transcribe [p] /\ Forall transcription_traffic l.
Proof.
  unfold transcribe_participant, audio_to_transcribe. cbn [List.map List.filter].
  destruct (length (p_chunks p) =? 0)%nat eqn:Ec.
  { intros [= _ <-]. apply Nat.eqb_eq in Ec.
    destruct (p_chunks p); [|discriminate]. split; [reflexivity | constructor]. }
  cbv zeta. intros H.
  destruct (size (new_Blob (p_chunks p)) =? 0)%nat eqn:Es; cbn [negb].
  { apply try_catch_inv in H as [(a & H & _)|(l1 & l2 & H & _)];
      [|discriminate].
    injection H as _ <-. split; [reflexivity | constructor]. }
  assert (Hl : exists l', l = EvTranscribe (new_Blob (p_chunks p)) :: l' /\
                          Forall job_traffic l').
  { apply try_catch_inv in H as [(a & H & _)|(l1 & l2 & H & Hh & ->)].
    - apply bind_inv in H as [[H _]|(text & l1 & l2 & H & Hr & ->)].
      + exact (transcribe_traffic _ _ _ _ _ H).
      + injection Hr as _ <-. rewrite app_nil_r.
        exact (transcribe_traffic _ _ _ _ _ H).
    - injection Hh as _ <-. rewrite app_nil_r.
      apply bind_inv in H as [[H _]|(text & l3 & l4 & H & Hr & ->)].
      + exact (transcribe_traffic _ _ _ _ _ H).
      + discriminate. }
  destruct Hl as (l' & -> & Hl'). split.
  - unfold transcribed in *. cbn. f_equal. exact (transcribed_job_traffic _ Hl').
  - constructor; [left; eauto | apply job_is_transcription_traffic, Hl'].
Qed.

Lemma transcribed_app l1 l2 : transcribed (l1 ++ l2) = transcribed l1 ++ transcribed l2.
Proof. unfold transcribed. apply omap_app. Qed.

Lemma audio_to_transcribe_cons p ps :
  audio_to_transcribe (p :: ps) = audio_to_transcribe [p] ++ audio_to_transcribe ps.
Proof.
  unfold audio_to_transcribe. cbn.
  destruct (negb _); reflexivity.
Qed.

Lemma transcribe_all_traffic tx fuel mn ps : forall k o l,
  transcribe_all tx fuel mn k ps = Some (o, l) ->
  transcribed l = audio_to_transcribe ps /\ Forall transcription_traffic l.
Proof.
  induction ps as [|p ps IH]; intros k o l H.
  - injection H as _ <-. split; [reflexivity | constructor].
  - cbn [transcribe_all] in H. rewrite audio_to_transcribe_cons.
    apply bind_inv in H as [[H _]|(t & l1 & l2 & H1 & H & ->)].
    { destruct (transcribe_participant_safe (tx k) fuel mn p _ H). }
    apply transcribe_participant_traffic in H1 as [H1 H1'].
    apply bind_inv in H as [[H _]|(ts & l3 & l4 & H3 & H & ->)].
    + apply IH in H as [H2 H2']. rewrite transcribed_app, H1, H2.
      split; [reflexivity | apply Forall_app; split; assumption].
    + injection H as _ <-. rewrite app_nil_r.
      apply IH in H3 as [H2 H2']. rewrite transcribed_app, H1, H2.
      split; [reflexivity | apply Forall_app; split; assumption].
Qed.

Lemma fetch_memberships_directory svc fuel : forall page acc,
  logs directory_traffic (fetch_memberships svc fuel page acc).
Proof.
  induction fuel as [|fuel IH]; intros page acc; [intros r l H; discriminate|].
  rewrite fetch_memberships_step.
  apply logs_after; [constructor; [eexists; reflexivity | constructor]|].
  destruct (page_continues svc page), (clerk_fetch svc page) as [pg|];
    try apply logs_throw.
  - destruct (page_memberships pg); [apply IH | apply logs_throw].
  - destruct (negb (page_ok pg)); [apply logs_ret|].
    destruct (page_memberships pg) as [ms|]; [|apply logs_throw].
    destruct (length ms =? 0)%nat; apply logs_ret.
Qed.

Lemma getOrganizationMemberNames_directory svc fuel org :
  logs directory_traffic (getOrganizationMemberNames svc fuel org).
Proof.
  unfold getOrganizationMemberNames.
  destruct (negb (opt_str_truthy org)); [apply logs_ret|].
  apply logs_try_catch; [|apply logs_ret].
  destruct (negb (opt_str_truthy (CLERK_SECRET_KEY svc))); [apply logs_ret|].
  apply logs_bind; [apply fetch_memberships_directory | intros a; apply logs_ret].
Qed.

Lemma resolve_memberNames_directory env fuel a :
  logs directory_traffic (resolve_memberNames env fuel a).
Proof.
  unfold resolve_memberNames. destruct (opt_str_truthy (orgId a)).
  - apply getOrganizationMemberNames_directory.
  - apply logs_try_catch; [|apply logs_ret].
    apply logs_bind; [apply logs_lift|]. intros room.
    destruct (opt_str_truthy room);
      [apply getOrganizationMemberNames_directory | apply logs_ret].
Qed.

(** [saveMeetingSummary] in closed form: nothing happens when [auth()]
    fails; otherwise one insert is attempted. *)
Lemma saveMeetingSummary_cases svc s roomId :
  saveMeetingSummary svc s roomId =
  match save_auth svc with
  | Throw => Some (Ret None, [])
  | Ret a =>
      let d := insertData_of svc (resolved_org svc a) (userId a) s roomId in
      Some (Ret (saved_rows (insert svc d) (verify svc)), [EvInsert d])
  end.
Proof.
  unfold saveMeetingSummary, resolved_org, saved_rows.
  destruct (save_auth svc) as [a|]; [|reflexivity]. cbv zeta.
  run_cbn. rewrite !after_nil.
  destruct (opt_str_truthy (orgId a)) eqn:Eo; run_cbn.
  - rewrite Eo. run_cbn.
    destruct (insert svc _) as [reply|]; run_cbn; [|reflexivity].
    destruct (reply_error reply); run_cbn; [reflexivity|].
    destruct (reply_data reply) as [[|row rows]|]; run_cbn; try reflexivity.
    destruct (verify svc); reflexivity.
  - destruct (save_room svc) as [room|]; run_cbn.
    + destruct (opt_str_truthy room) eqn:Er; run_cbn.
      * rewrite Er. run_cbn.
        destruct (insert svc _) as [reply|]; run_cbn; [|reflexivity].
        destruct (reply_error reply); run_cbn; [reflexivity|].
        destruct (reply_data reply) as [[|row rows]|]; run_cbn; try reflexivity.
        destruct (verify svc); reflexivity.
      * rewrite Eo. run_cbn.
        destruct (insert svc _) as [reply|]; run_cbn; [|reflexivity].
        destruct (reply_error reply); run_cbn; [reflexivity|].
        destruct (reply_data reply) as [[|row rows]|]; run_cbn; try reflexivity.
        destruct (verify svc); reflexivity.
    + rewrite Eo. run_cbn.
      destruct (insert svc _) as [reply|]; run_cbn; [|reflexivity].
      destruct (reply_error reply); run_cbn; [reflexivity|].
      destruct (reply_data reply) as [[|row rows]|]; run_cbn; try reflexivity.
      destruct (verify svc); reflexivity.
Qed.

Lemma saveMeetingSummary_log svc s roomId o l :
  saveMeetingSummary svc s roomId = Some (o, l) ->
  l = List.map EvInsert (insert_attempts svc s roomId).
Proof.
  rewrite saveMeetingSummary_cases. unfold insert_attempts.
  destruct (save_auth svc); intros [= _ <-]; reflexivity.
Qed.

(** The log of a returning [stopMeeting] call, phase by phase. *)
Lemma stopMeeting_log env fuel roomId s agg l :
  (stopMeeting env fuel roomId s).2 = Some (Ret agg, l) ->
  let ft := fullTranscript_of (transcriptions agg) in
  let ps := Object_values (participantData s) in
  exists a mn ld lt ls,
    auth_meeting env = Ret a /\
    resolve_memberNames env fuel a = Some (Ret mn, ld) /\
    transcribe_all (tx_of env) fuel mn 0 ps = Some (Ret (transcriptions agg), lt) /\
    l = ld ++ lt ++ ls
        ++ List.map EvInsert (insert_attempts (save env) agg roomId) /\
    Forall directory_traffic ld /\
    transcribed lt = audio_to_transcribe ps /\
    Forall transcription_traffic lt /\
    Forall (summarization_traffic ft) ls /\
    (ft = [] -> ls = []).
Proof.
  intros H. cbv zeta. unfold stopMeeting in H. cbn [snd] in H. cbv zeta in H.
  destruct (negb (valid_time (session_start env s) && valid_time (now_end env)));
    [discriminate|].
  apply bind_inv_Ret in H as (a & la & l0 & Ha & H & ->).
  apply bind_inv_Ret in H as (mn & l1 & l0' & Hmn & H & ->).
  apply bind_inv_Ret in H as (ts & l2 & l3 & Hts & H & ->).
  assert (la = []) as ->.
  { unfold lift in Ha. injection Ha as _ <-. reflexivity. }
  assert (Ha' : auth_meeting env = Ret a).
  { unfold lift in Ha. injection Ha as ->. reflexivity. }
  cbn [app].
  pose proof (resolve_memberNames_directory _ _ _ _ _ Hmn) as Hd.
  destruct (transcribe_all_traffic _ _ _ _ _ _ _ Hts) as [Ht Ht'].
  destruct (length (fullTranscript_of ts) =? 0)%nat eqn:E.
  - apply bind_inv_Ret in H as (v & l4 & l5 & Hsave & H & ->).
    injection H as <- <-. rewrite app_nil_r.
    apply saveMeetingSummary_log in Hsave as ->.
    exists a, mn, l1, l2, []. cbn [transcriptions mk_summary app].
    repeat split; try assumption; constructor.
  - apply bind_inv_Ret in H as (r & l4 & l5 & Hsum & H & ->).
    apply bind_inv_Ret in H as (u & l6 & l7 & Hsave & H & ->).
    injection H as <- <-. rewrite app_nil_r.
    exists a, mn, l1, l2, l4. cbn [transcriptions mk_summary].
    assert (l6 = List.map EvInsert
                   (insert_attempts (save env)
                      (mk_summary (sr_summary r) (sr_keyPoints r)
                         (Object_values (participantData s))
                         (participantNames_of mn (Object_values (participantData s)))
                         ts (session_start env s) (now_end env)) roomId)) as ->.
    { apply try_catch_inv in Hsave as [(x & Hs & _)|(l8 & l9 & Hs & Hh & ->)].
      - apply bind_inv_Ret in Hs as (v & l8 & l9 & Hs & Hr & ->).
        injection Hr as _ <-. rewrite app_nil_r.
        exact (saveMeetingSummary_log _ _ _ _ _ Hs).
      - injection Hh as _ <-. rewrite app_nil_r.
        apply bind_inv in Hs as [[Hs _]|(v & l10 & l11 & Hs & Hr & _)];
          [|discriminate].
        exact (saveMeetingSummary_log _ _ _ _ _ Hs). }
    repeat split; try assumption.
    + exact (summarize_or_fallback_logs _ _ _ (summarize_logs _ _ _ _) _ _ Hsum).
    + intros E'. rewrite E' in E. discriminate.
Qed.

Lemma insert_attempts_short svc s roomId :
  insert_attempts svc s roomId = [] \/
  exists d, insert_attempts svc s roomId = [d].
Proof. unfold insert_attempts. destruct (save_auth svc); eauto. Qed.

(** X23: a session end works in four phases that never interleave: it
    first reads the member directory, then transcribes, then summarizes
    the combined transcript of the aggregate it returns, and at the very
    end tries at most one insert. *)
Theorem stopMeeting_phases env fuel roomId s agg l :
  (stopMeeting env fuel roomId s).2 = Some (Ret agg, l) ->
  exists ld lt ls li,
    l = ld ++ lt ++ ls ++ li /\
    Forall directory_traffic ld /\
    Forall transcription_traffic lt /\
    Forall (summarization_traffic (fullTranscript_of (transcriptions agg))) ls /\
    (li = [] \/ exists d, li = [EvInsert d]).
Proof.
  intros H. apply stopMeeting_log in H. cbv zeta in H.
  destruct H as (a & mn & ld & lt & ls & _ & _ & _ & -> & Hd & _ & Ht & Hs & _).
  exists ld, lt, ls, (List.map EvInsert (insert_attempts (save env) agg roomId)).
  repeat split; try assumption.
  destruct (insert_attempts_short (save env) agg roomId) as [->|[d ->]];
    [left; reflexivity | right; exists d; reflexivity].
Qed.

Lemma stopMeeting_phases_witness :
  exists agg l,
    (stopMeeting Fixture.env_member 5 Sample.room
       (run_ops Sample.two_speakers Sample.unstarted)).2 = Some (Ret agg, l) /\
    exists ld lt ls li,
      l = ld ++ lt ++ ls ++ li /\
      Forall directory_traffic ld /\
      Forall transcription_traffic lt /\
      Forall (summarization_traffic (fullTranscript_of (transcriptions agg))) ls /\
      (li = [] \/ exists d, li = [EvInsert d]).
Proof.
  exists_run (stopMeeting Fixture.env_member 5 Sample.room
                (run_ops Sample.two_speakers Sample.unstarted)).2.
  match goal with
  | |- ?run = ?v /\ _ => assert (H : run = v) by (vm_compute; reflexivity)
  end.
  split; [exact H|].
  exact (stopMeeting_phases _ _ _ _ _ _ H).
Defined.

Lemma transcribed_none l :
  Forall not_transcribe l -> transcribed l = [].
Proof.
  induction 1 as [|e l He _ IH]; [reflexivity|].
  unfold transcribed in *. cbn. rewrite IH.
  destruct e; try reflexivity. destruct He.
Qed.

Lemma directory_not_transcribe l :
  Forall directory_traffic l -> Forall not_transcribe l.
Proof.
  intros H. eapply Forall_impl; [exact H|]. intros e [n ->]. exact I.
Qed.

Lemma summarization_not_transcribe t l :
  Forall (summarization_traffic t) l -> Forall not_transcribe l.
Proof.
  intros H. eapply Forall_impl; [exact H|].
  intros e [-> | [-> | ->]]; exact I.
Qed.

Lemma inserts_not_transcribe ds : Forall not_transcribe (List.map EvInsert ds).
Proof. induction ds; constructor; [exact I | assumption]. Qed.

(** X24: a session end hands the audio of every participant to the
    transcription exactly once: the calls made are the combined recordings
    of the participants in the order in which [Object.values] lists the
    store (identifiers that are array indices first, ascending, then the
    others in creation order), those of size zero left out; nothing is
    transcribed twice, whatever fails along the way. *)
Theorem every_recording_transcribed_once env fuel roomId s agg l :
  (stopMeeting env fuel roomId s).2 = Some (Ret agg, l) ->
  transcribed l = audio_to_transcribe (Object_values (participantData s)).
Proof.
  intros H. apply stopMeeting_log in H. cbv zeta in H.
  destruct H as (a & mn & ld & lt & ls & _ & _ & _ & -> & Hd & Ht & _ & Hs & _).
  rewrite !transcribed_app, Ht.
  rewrite (transcribed_none _ (directory_not_transcribe _ Hd)).
  rewrite (transcribed_none _ (summarization_not_transcribe _ _ Hs)).
  rewrite (transcribed_none _ (inserts_not_transcribe _)).
  cbn [app]. apply app_nil_r.
Qed.

(** Participants ["b"], ["10"] and ["2"] register and speak in that order,
    and a silent ["7"] registers last; the recordings are transcribed in
    the order ["2"], ["10"], ["b"]. *)
Lemma every_recording_transcribed_once_witness :
  exists agg l,
    (stopMeeting Fixture.env_member 5 Sample.room
       (run_ops
          [Register (Fixture.seat "b"); Register (Fixture.seat "10");
           Register (Fixture.seat "2");
           Ingest (lit "b") [Byte.x0b] 1100;
           Ingest (lit "10") [Byte.x0a] 1200;
           Ingest (lit "2") [Byte.x02] 1300;
           Register (Fixture.seat "7")]
          Sample.unstarted)).2
      = Some (Ret agg, l) /\
    participants agg = [lit "2"; lit "7"; lit "10"; lit "b"] /\
    transcribed l = [[Byte.x02]; [Byte.x0a]; [Byte.x0b]].
Proof.
  exists_run (stopMeeting Fixture.env_member 5 Sample.room
                (run_ops
                   [Register (Fixture.seat "b"); Register (Fixture.seat "10");
                    Register (Fixture.seat "2");
                    Ingest (lit "b") [Byte.x0b] 1100;
                    Ingest (lit "10") [Byte.x0a] 1200;
                    Ingest (lit "2") [Byte.x02] 1300;
                    Register (Fixture.seat "7")]
                   Sample.unstarted)).2.
  match goal with
  | |- ?run = ?v /\ _ => assert (H : run = v) by (vm_compute; reflexivity)
  end.
  split; [exact H|]. split; [reflexivity|].
  rewrite (every_recording_transcribed_once _ _ _ _ _ _ H). reflexivity.
Defined.

Lemma inserted_app l1 l2 : inserted (l1 ++ l2) = inserted l1 ++ inserted l2.
Proof. unfold inserted. apply omap_app. Qed.

Lemma inserted_none l : Forall not_insert l -> inserted l = [].
Proof.
  induction 1 as [|e l He _ IH]; [reflexivity|].
  unfold inserted in *. cbn. rewrite IH.
  destruct e; try reflexivity. destruct He.
Qed.

Lemma inserted_inserts ds : inserted (List.map EvInsert ds) = ds.
Proof.
  induction ds as [|d ds IH]; [reflexivity|].
  unfold inserted in *. cbn. rewrite IH. reflexivity.
Qed.

Lemma directory_not_insert l : Forall directory_traffic l -> Forall not_insert l.
Proof.
  intros H. eapply Forall_impl; [exact H|]. intros e [n ->]. exact I.
Qed.

Lemma transcription_not_insert l :
  Forall transcription_traffic l -> Forall not_insert l.
Proof.
  intros H. eapply Forall_impl; [exact H|].
  intros e [[b ->] | [-> | [-> | [-> | ->]]]]; exact I.
Qed.

Lemma summarization_not_insert t l :
  Forall (summarization_traffic t) l -> Forall not_insert l.
Proof.
  intros H. eapply Forall_impl; [exact H|].
  intros e [-> | [-> | ->]]; exact I.
Qed.

(** X25: what a session end persists is what it returns.  Whenever the
    sink's [auth()] answers, exactly one record is handed to the insert,
    none otherwise; that record is for the room asked for and carries the
    summary, key points, participants, names, transcriptions, duration and
    times of the very aggregate handed back to the caller, placeholder and
    fallback summaries included. *)
Theorem stopMeeting_persists_what_it_returns env fuel roomId s agg l :
  (stopMeeting env fuel roomId s).2 = Some (Ret agg, l) ->
  (save_auth (save env) = Throw -> inserted l = []) /\
  (forall a, save_auth (save env) = Ret a -> exists d, inserted l = [d]) /\
  (forall d, In d (inserted l) ->
     room_id d = roomId /\
     summary_text d = summary agg /\
     key_points d = keyPoints agg /\
     ins_participants d = participants agg /\
     participant_names d = participantNames agg /\
     ins_transcriptions d = transcriptions agg /\
     duration_ms d = duration agg /\
     start_time d = startTime agg /\
     end_time d = endTime agg).
Proof.
  intros H. apply stopMeeting_log in H. cbv zeta in H.
  destruct H as (a & mn & ld & lt & ls & _ & _ & _ & -> & Hd & _ & Ht & Hs & _).
  rewrite !inserted_app.
  rewrite (inserted_none _ (directory_not_insert _ Hd)).
  rewrite (inserted_none _ (transcription_not_insert _ Ht)).
  rewrite (inserted_none _ (summarization_not_insert _ _ Hs)).
  rewrite inserted_inserts. cbn [app]. unfold insert_attempts.
  split; [intros ->; reflexivity|]. split.
  - intros a' ->. eexists. reflexivity.
  - intros d Hin. destruct (save_auth (save env)) as [a'|]; [|destruct Hin].
    destruct Hin as [<-|[]]. repeat split.
Qed.

Lemma stopMeeting_persists_what_it_returns_witness :
  exists agg l d,
    (stopMeeting Fixture.env_member 5 Sample.room
       (run_ops Sample.two_speakers Sample.unstarted)).2 = Some (Ret agg, l) /\
    inserted l = [d] /\
    summary_text d = summary agg /\ ins_transcriptions d = transcriptions agg.
Proof.
  assert (H : exists agg l,
    (stopMeeting Fixture.env_member 5 Sample.room
       (run_ops Sample.two_speakers Sample.unstarted)).2 = Some (Ret agg, l)).
  { exists_run (stopMeeting Fixture.env_member 5 Sample.room
                  (run_ops Sample.two_speakers Sample.unstarted)).2.
    vm_compute. reflexivity. }
  destruct H as (agg & l & H).
  destruct (stopMeeting_persists_what_it_returns _ _ _ _ _ _ H)
    as (_ & Hone & Hfields).
  destruct (Hone Fixture.member_auth eq_refl) as [d Hd].
  exists agg, l, d. split; [exact H|]. split; [exact Hd|].
  destruct (Hfields d) as (_ & Hs & _ & _ & _ & Ht & _).
  { rewrite Hd. left. reflexivity. }
  split; [exact Hs | exact Ht].
Defined.

(** X26: [saveMeetingSummary] never raises and always returns.  It hands
    back rows exactly when [auth()] answered, the insert answered without
    an error and with at least one row, and the read-back query did not
    raise; in every other case it hands back [null], also when the record
    has been inserted and only the read-back raised. *)
Theorem saveMeetingSummary_rows svc s roomId :
  exists v l,
    saveMeetingSummary svc s roomId = Some (Ret v, l) /\
    forall rows,
      v = Some rows <->
      (rows <> [] /\ verify svc = Ret tt /\
       exists a reply,
         save_auth svc = Ret a /\
         l = [EvInsert (insertData_of svc (resolved_org svc a) (userId a) s roomId)] /\
         insert svc (insertData_of svc (resolved_org svc a) (userId a) s roomId)
           = Ret reply /\
         reply_error reply = false /\
         reply_data reply = Some rows).
Proof.
  rewrite saveMeetingSummary_cases.
  destruct (save_auth svc) as [a|] eqn:Ea.
  - cbv zeta. eexists _, _. split; [reflexivity|]. intros rows.
    unfold saved_rows.
    set (d := insertData_of svc (resolved_org svc a) (userId a) s roomId).
    destruct (insert svc d) as [reply|] eqn:Ei.
    + destruct (reply_error reply) eqn:Ee.
      * split; [discriminate|].
        intros (_ & _ & a' & reply' & [= <-] & _ & Hi & He & _).
        fold d in Hi. congruence.
      * destruct (reply_data reply) as [[|row rest]|] eqn:Ed.
        -- split; [discriminate|].
           intros (Hne & _ & a' & reply' & [= <-] & _ & Hi & _ & Hd).
           fold d in Hi. congruence.
        -- destruct (verify svc) as [[]|] eqn:Ev.
           ++ split.
              ** intros [= <-]. split; [discriminate|]. split; [reflexivity|].
                 exists a, reply. repeat split; assumption.
              ** intros (_ & _ & a' & reply' & [= <-] & _ & Hi & _ & Hd).
                 fold d in Hi. congruence.
           ++ split; [discriminate|]. intros (_ & Hv & _). discriminate.
        -- split; [discriminate|].
           intros (_ & _ & a' & reply' & [= <-] & _ & Hi & _ & Hd).
           fold d in Hi. congruence.
    + split; [discriminate|].
      intros (_ & _ & a' & reply' & [= <-] & _ & Hi & _).
      fold d in Hi. congruence.
  - eexists _, _. split; [reflexivity|]. intros rows.
    split; [discriminate|]. intros (_ & _ & a & reply & Ha & _). discriminate.
Qed.

(** The read-back failing after a successful insert: the caller is told
    [null] although the record has been handed over. *)
Lemma saveMeetingSummary_unverified s :
  exists d, saveMeetingSummary Fixture.save_unverified s Sample.room
            = Some (Ret None, [EvInsert d]).
Proof. eexists. rewrite saveMeetingSummary_cases. reflexivity. Qed.

(** X27: the organization and the author a summary is filed under.  The
    caller's organization is used when the session has one; otherwise the
    room's, when the room can be read and has one; otherwise, and also when
    reading the room raises, [DEFAULT_ORG_ID] or, failing that,
    ["org_default"].  The author is the caller, else [SYSTEM_USER_ID], else
    ["system"]. *)
Theorem summary_is_filed_under svc s roomId a o l :
  save_auth svc = Ret a ->
  saveMeetingSummary svc s roomId = Some (o, l) ->
  exists d,
    l = [EvInsert d] /\
    created_by d = nullish (userId a) (nullish (SYSTEM_USER_ID svc) (lit "system")) /\
    (opt_str_truthy (orgId a) = true -> orgId a = Some (org_id d)) /\
    (opt_str_truthy (orgId a) = false ->
     (forall room, save_room svc = Ret room -> opt_str_truthy room = true ->
        room = Some (org_id d)) /\
     ((save_room svc = Throw \/
       exists room, save_room svc = Ret room /\ opt_str_truthy room = false) ->
        org_id d = nullish (DEFAULT_ORG_ID svc) (lit "org_default"))).
Proof.
  intros Ha. rewrite saveMeetingSummary_cases, Ha. cbv zeta. intros [= _ <-].
  eexists. split; [reflexivity|]. cbn [created_by org_id insertData_of].
  split; [reflexivity|]. unfold resolved_org. split.
  - intros Ho. rewrite Ho, Ho.
    destruct (orgId a) as [x|]; [reflexivity | discriminate].
  - intros Ho. rewrite Ho. split.
    + intros room -> Hr. rewrite Hr, Hr.
      destruct room as [x|]; [reflexivity | discriminate].
    + intros [-> | (room & -> & Hr)].
      * rewrite Ho. reflexivity.
      * rewrite Hr, Ho. reflexivity.
Qed.

Lemma summary_is_filed_under_witness :
  exists o d,
    saveMeetingSummary Fixture.save_by_room
      (mk_summary Sample.shipped [] [] ∅ [] 0 9000) Sample.room
      = Some (o, [EvInsert d]) /\
    org_id d = lit "org_2" /\ created_by d = lit "user_system".
Proof.
  destruct (saveMeetingSummary_returns Fixture.save_by_room
              (mk_summary Sample.shipped [] [] ∅ [] 0 9000) Sample.room)
    as (v & l & H).
  destruct (summary_is_filed_under Fixture.save_by_room _ Sample.room
              Sample.anonymous _ _ eq_refl H) as (d & -> & Hc & _ & Hroom).
  destruct (Hroom eq_refl) as [Hr _].
  specialize (Hr (Some (lit "org_2")) eq_refl eq_refl).
  exists (Ret v), d. split; [exact H|]. split; [congruence | exact Hc].
Defined.

(** X28: the listing raises only when its client cannot be made, which
    happens before its [try].  With a client it never raises: it answers
    the rows of the query when somebody is logged in and the query answers
    without error, and the empty list in every other case, a failing
    [auth()] or query included. *)
Theorem getMeetingSummaries_result {Row} (svc : ListService Row) org :
  (list_client svc = Throw ->
   getMeetingSummaries svc org = Some (Throw, [])) /\
  (list_client svc = Ret tt ->
   exists rows,
     getMeetingSummaries svc org = Some (Ret rows, []) /\
     (rows <> [] ->
      exists a reply,
        list_auth svc = Ret a /\ opt_str_truthy (userId a) = true /\
        list_query svc org = Ret reply /\ query_error reply = false /\
        query_data reply = Some rows) /\
     (forall a reply rows',
        list_auth svc = Ret a -> opt_str_truthy (userId a) = true ->
        list_query svc org = Ret reply -> query_error reply = false ->
        query_data reply = Some rows' -> rows = rows')).
Proof.
  unfold getMeetingSummaries. split; intros ->; [reflexivity|]. run_cbn.
  destruct (list_auth svc) as [a|] eqn:Ea; run_cbn.
  - destruct (opt_str_truthy (userId a)) eqn:Eu; run_cbn.
    + destruct (list_query svc org) as [reply|] eqn:Eq; run_cbn.
      * destruct (query_error reply) eqn:Ee; run_cbn.
        -- exists []. split; [reflexivity|]. split; [congruence|].
           intros a' reply' rows' [= <-] _ [= <-]. congruence.
        -- exists (default [] (query_data reply)). split; [reflexivity|]. split.
           ++ intros Hne. exists a, reply. repeat split; try assumption.
              destruct (query_data reply); [reflexivity | destruct Hne; reflexivity].
           ++ intros a' reply' rows' [= <-] _ [= <-] _ ->. reflexivity.
      * exists []. split; [reflexivity|]. split; [congruence|].
        intros a' reply' rows' _ _ [=].
    + exists []. split; [reflexivity|]. split; [congruence|].
      intros a' reply' rows' [= <-]. congruence.
  - exists []. split; [reflexivity|]. split; [congruence|].
    intros a' reply' rows' [=].
Qed.

Lemma getMeetingSummaries_result_witness :
  getMeetingSummaries Fixture.list_unconfigured (lit "org_1") = Some (Throw, []) /\
  getMeetingSummaries Fixture.list_user (lit "org_1")
    = Some (Ret [2%nat; 1%nat], []) /\
  getMeetingSummaries Fixture.list_anonymous (lit "org_1") = Some (Ret [], []).
Proof.
  split; [|split].
  - apply (getMeetingSummaries_result Fixture.list_unconfigured). reflexivity.
  - destruct (getMeetingSummaries_result Fixture.list_user (lit "org_1"))
      as [_ H].
    destruct (H eq_refl) as (rows & Hrun & _ & Hrows).
    rewrite Hrun.
    rewrite (Hrows _ _ [2%nat; 1%nat] eq_refl eq_refl eq_refl eq_refl eq_refl).
    reflexivity.
  - vm_compute. reflexivity.
Defined.

Lemma name_text_Member k : name_text (Member k) <> [].
Proof.
  unfold name_text. destruct (decide (k = proto)); discriminate.
Qed.

Lemma resolvedName_nonempty mn p :
  p_id p <> [] -> name_text (resolvedName mn p) <> [].
Proof.
  intros H. unfold resolvedName.
  assert (Hf : name_text (Text (or_else (p_name p) (p_id p))) <> [])
    by (cbn; apply or_else_nonempty, H).
  destruct (mn !! p_id p) as [n|].
  - destruct n as [|c n]; [exact Hf | discriminate].
  - destruct (inherited (p_id p)); [apply name_text_Member | exact Hf].
Qed.

Lemma resolve_memberNames_without_key env fuel a mn l :
  opt_str_truthy (CLERK_SECRET_KEY (clerk env)) = false ->
  resolve_memberNames env fuel a = Some (Ret mn, l) -> mn = ∅ /\ l = [].
Proof.
  intros Hkey Hmn. unfold resolve_memberNames in Hmn.
  destruct (opt_str_truthy (orgId a)).
  - rewrite getOrganizationMemberNames_silent in Hmn by (right; exact Hkey).
    injection Hmn as <- <-. split; reflexivity.
  - destruct (rooms_meeting env) as [room|]; cbn in Hmn.
    + destruct (opt_str_truthy room).
      * rewrite getOrganizationMemberNames_silent in Hmn by (right; exact Hkey).
        injection Hmn as <- <-. split; reflexivity.
      * injection Hmn as <- <-. split; reflexivity.
    + injection Hmn as <- <-. split; reflexivity.
Qed.

(** X29: the name of a Transcript Entry never prints as the empty string
    for a non-empty identifier; and when no Clerk secret key is
    configured, [stopMeeting] sends no request to the directory and names
    every entry by the name stored at registration, or by the raw
    identifier when that name is missing or empty, except for a participant
    whose identifier names a member of [Object.prototype]: the lookup in
    the empty name map finds that member, and it becomes the name. *)
Theorem entry_names_without_directory env fuel roomId s agg l :
  (stopMeeting env fuel roomId s).2 = Some (Ret agg, l) ->
  Forall (fun t => t_id t <> [] ->
                   exists n, t_name t = Some n /\ name_text n <> [])
         (transcriptions agg) /\
  (opt_str_truthy (CLERK_SECRET_KEY (clerk env)) = false ->
   Forall2 (fun p t =>
              t_name t = Some (if inherited (p_id p) then Member (p_id p)
                               else Text (or_else (p_name p) (p_id p))))
           (Object_values (participantData s)) (transcriptions agg) /\
   forall n, ~ In (EvClerkFetch n) l).
Proof.
  intros H. apply stopMeeting_log in H. cbv zeta in H.
  destruct H as (a & mn & ld & lt & ls & _ & Hmn & Hts & -> & _ & _ & Ht & Hs & _).
  pose proof (transcribe_all_entries _ _ _ _ _ _ _ Hts) as Hent.
  split.
  - clear -Hent. induction Hent as [|p t ps ts' [Hid Hn] _ IH]; constructor; auto.
    intros Hne. exists (resolvedName mn p). split; [exact Hn|].
    apply resolvedName_nonempty. congruence.
  - intros Hkey.
    destruct (resolve_memberNames_without_key _ _ _ _ _ Hkey Hmn) as [-> ->].
    split.
    + clear -Hent.
      induction Hent as [|p t ps ts' [Hid Hn] _ IH]; constructor; [|exact IH].
      rewrite Hn. unfold resolvedName. rewrite lookup_empty. reflexivity.
    + intros n Hin. cbn [app] in Hin.
      rewrite !in_app_iff in Hin. destruct Hin as [Hin|[Hin|Hin]].
      * rewrite Forall_forall in Ht. apply list_elem_of_In, Ht in Hin.
        destruct Hin as [[b Hb]|[Hb|[Hb|[Hb|Hb]]]]; discriminate.
      * rewrite Forall_forall in Hs. apply list_elem_of_In, Hs in Hin.
        destruct Hin as [Hb|[Hb|Hb]]; discriminate.
      * apply in_map_iff in Hin as (d & Hd & _). discriminate.
Qed.

(** A session without directory: Alice registered under her name, Bob
    sent audio without registering, and a third participant registered as
    ["toString"]. *)
Lemma entry_names_without_directory_witness :
  exists agg l,
    (stopMeeting
       (Sample.env_with (Sample.tx_completing Sample.shipped)
          (Sample.hf_warming Sample.shipped) Sample.save_up)
       5 Sample.room
       (run_ops (Sample.two_speakers ++ [Register (Fixture.seat "toString")])
          Sample.unstarted)).2
      = Some (Ret agg, l) /\
    List.map t_name (transcriptions agg)
      = [Some (Text (lit "Alice")); Some (Text (lit "user_bob"));
         Some (Member (lit "toString"))] /\
    ~ In (EvClerkFetch 0) l.
Proof.
  exists_run (stopMeeting
                (Sample.env_with (Sample.tx_completing Sample.shipped)
                   (Sample.hf_warming Sample.shipped) Sample.save_up)
                5 Sample.room
                (run_ops (Sample.two_speakers ++ [Register (Fixture.seat "toString")])
                   Sample.unstarted)).2.
  match goal with
  | |- ?run = ?v /\ _ => assert (H : run = v) by (vm_compute; reflexivity)
  end.
  split; [exact H|]. split; [reflexivity|].
  destruct (entry_names_without_directory _ _ _ _ _ _ H) as [_ Hoff].
  destruct (Hoff eq_refl) as [_ Hno]. exact (Hno 0%nat).
Defined.
